(** * desktop_parser: the document-to-LLM analysis pipeline

    A shallow embedding of the chunkers, the JSON extractor and repairer,
    the chunk analyzer, the synthesizer and [analyzeDocument], followed by
    the properties of the specification that concern them.

    JavaScript strings are sequences of UTF-16 code units; a code unit is a
    number in [N], a string is a [list N].  Indices are in [Z], as
    [indexOf] and [lastIndexOf] answer [-1] when nothing is found. *)

From Stdlib Require Import List ZArith NArith Lia Bool String Ascii.
From Stdlib Require DecimalString.
Import ListNotations.

Local Open Scope Z_scope.

Set Warnings "-register-all".

(** ** JavaScript strings *)

Module JS.

Definition jsstring := list N.

(** A literal of the source: the code units of an ASCII text. *)
Definition str (s : string) : jsstring :=
  List.map N_of_ascii (list_ascii_of_string s).

Definition DQUOTE : N := 34%N.      (* the double quote *)
Definition SQUOTE : N := 39%N.      (* ' *)
Definition BACKSLASH : N := 92%N.   (* \ *)
Definition LBRACE : N := 123%N.     (* { *)
Definition RBRACE : N := 125%N.     (* } *)
Definition BACKTICK : N := 96%N.    (* ` *)
Definition LF : N := 10%N.
Definition SPACE : N := 32%N.
Definition DOT : N := 46%N.

(** [quoted s] is the text of [s] between two double quotes. *)
Definition quoted (s : string) : jsstring := DQUOTE :: str s ++ [DQUOTE].

Definition len (s : jsstring) : Z := Z.of_nat (List.length s).

Definition jsstring_eqb (a b : jsstring) : bool :=
  if list_eq_dec N.eq_dec a b then true else false.

(** Clamp a position into [0 .. len s], as [substring] does. *)
Definition clamp (s : jsstring) (i : Z) : nat :=
  Z.to_nat (Z.min (Z.max i 0) (len s)).

Definition cut (s : jsstring) (lo hi : nat) : jsstring :=
  firstn (hi - lo) (skipn lo s).

(** [s.substring(start, end)]: both ends are clamped, and swapped when
    [start > end]. *)
Definition substring (s : jsstring) (start end_ : Z) : jsstring :=
  let a := clamp s start in
  let b := clamp s end_ in
  cut s (Nat.min a b) (Nat.max a b).

(** [s.substring(start)]. *)
Definition substring_from (s : jsstring) (start : Z) : jsstring :=
  substring s start (len s).

(** [s.slice(start, end)]: negative positions count from the end, and the
    result is empty when the ends cross. *)
Definition slice_pos (s : jsstring) (i : Z) : nat :=
  if i <? 0 then Z.to_nat (Z.max (len s + i) 0)
  else Z.to_nat (Z.min i (len s)).

Definition slice (s : jsstring) (start end_ : Z) : jsstring :=
  cut s (slice_pos s start) (slice_pos s end_).

(** [starts_with pat s]: [pat] is a prefix of [s]. *)
Fixpoint starts_with (pat s : jsstring) : bool :=
  match pat, s with
  | [], _ => true
  | _ :: _, [] => false
  | p :: pat', c :: s' => (p =? c)%N && starts_with pat' s'
  end.

(** Position of the first occurrence of [pat] in [s]. *)
Fixpoint find_first (pat s : jsstring) : option nat :=
  if starts_with pat s then Some 0%nat
  else match s with
       | [] => None
       | _ :: s' => option_map S (find_first pat s')
       end.

(** [s.indexOf(pat)]. *)
Definition indexOf (s pat : jsstring) : Z :=
  match find_first pat s with
  | Some i => Z.of_nat i
  | None => -1
  end.

(** [s.includes(pat)]. *)
Definition includes (s pat : jsstring) : bool :=
  match find_first pat s with Some _ => true | None => false end.

(** The greatest [k <= i] at which [pat] occurs in [s], scanning downwards
    as [lastIndexOf] does. *)
Fixpoint find_last_upto (pat s : jsstring) (i : nat) : Z :=
  if starts_with pat (skipn i s) then Z.of_nat i
  else match i with
       | O => -1
       | S j => find_last_upto pat s j
       end.

(** [s.lastIndexOf(pat, position)]: the scan starts at [position] clamped
    between [0] and [s.length - pat.length]. *)
Definition lastIndexOf_from (s pat : jsstring) (position : Z) : Z :=
  if len s <? len pat then -1
  else find_last_upto pat s
         (Z.to_nat (Z.min (Z.max position 0) (len s - len pat))).

(** [s.lastIndexOf(pat)]. *)
Definition lastIndexOf (s pat : jsstring) : Z :=
  lastIndexOf_from s pat (len s).

(** White space and line terminators: the class [\s] of regular
    expressions, which is also what [trim] removes. *)
Definition is_space (c : N) : bool :=
  ((9 <=? c) && (c <=? 13) || (c =? 32) || (c =? 160) || (c =? 5760)
   || (8192 <=? c) && (c <=? 8202) || (c =? 8232) || (c =? 8233)
   || (c =? 8239) || (c =? 8287) || (c =? 12288) || (c =? 65279))%N.

(** Line terminators: what [.] does not match. *)
Definition is_line_terminator (c : N) : bool :=
  ((c =? 10) || (c =? 13) || (c =? 8232) || (c =? 8233))%N.

Fixpoint trimStart (s : jsstring) : jsstring :=
  match s with
  | c :: s' => if is_space c then trimStart s' else s
  | [] => []
  end.

Definition trimEnd (s : jsstring) : jsstring := rev (trimStart (rev s)).

(** [s.trim()]. *)
Definition trim (s : jsstring) : jsstring := trimEnd (trimStart s).

(** [!s] for a string: only the empty string is falsy. *)
Definition is_empty (s : jsstring) : bool :=
  match s with [] => true | _ :: _ => false end.

End JS.

(** ** JSON values and [JSON.parse] *)

Module Json.
Import JS.

(** A number is kept as the exact decimal [(-1)^neg * mantissa * 10^exp10]
    that its literal denotes; the double it rounds to is not computed. *)
Record NumLit := mkNum { num_neg : bool; num_mantissa : N; num_exp10 : Z }.

(** The values of the pipeline: what [JSON.parse] builds, and the object
    literals of the source.  The fields of an object are listed in the
    order of their creation. *)
Inductive JSON : Type :=
| JNull
| JBool (b : bool)
| JNumber (n : NumLit)
| JString (s : jsstring)
| JArray (items : list JSON)
| JObject (fields : list (jsstring * JSON)).

(** [o.k] on an object: [None] is [undefined]. *)
Fixpoint lookup (k : jsstring) (fields : list (jsstring * JSON)) : option JSON :=
  match fields with
  | [] => None
  | (k', v) :: rest => if jsstring_eqb k k' then Some v else lookup k rest
  end.

Definition get (k : jsstring) (v : JSON) : option JSON :=
  match v with
  | JObject fields => lookup k fields
  | _ => None
  end.

(** Defining a property: a key met again keeps its place and takes the
    new value. *)
Fixpoint obj_set (k : jsstring) (v : JSON) (fields : list (jsstring * JSON))
  : list (jsstring * JSON) :=
  match fields with
  | [] => [(k, v)]
  | (k', v') :: rest =>
      if jsstring_eqb k k' then (k', v) :: rest
      else (k', v') :: obj_set k v rest
  end.

(** A number literal whose double is [0]: a zero mantissa, or a magnitude
    of at most [2^-1075], half the least positive double, which rounds to
    [0]. *)
Definition num_is_zero (n : NumLit) : bool :=
  (num_mantissa n =? 0)%N
  || ((num_exp10 n <? 0)
      && (Z.of_N (num_mantissa n) * 2 ^ 1075 <=? 10 ^ (- num_exp10 n))).

(** Truthiness, as [if (v)] and [!v] test it. *)
Definition truthy (v : JSON) : bool :=
  match v with
  | JNull => false
  | JBool b => b
  | JNumber n => negb (num_is_zero n)
  | JString s => negb (is_empty s)
  | JArray _ | JObject _ => true
  end.

(** Truthiness of a property that may be absent. *)
Definition truthy_opt (o : option JSON) : bool :=
  match o with Some v => truthy v | None => false end.

(** *** The grammar of ECMA-404 *)

Definition is_json_ws (c : N) : bool :=
  ((c =? 32) || (c =? 9) || (c =? 10) || (c =? 13))%N.

Fixpoint skip_ws (s : jsstring) : jsstring :=
  match s with
  | c :: s' => if is_json_ws c then skip_ws s' else s
  | [] => []
  end.

Definition is_digit (c : N) : bool := ((48 <=? c) && (c <=? 57))%N.

Definition hex_value (c : N) : option N :=
  if is_digit c then Some (c - 48)%N
  else if ((97 <=? c) && (c <=? 102))%N then Some (c - 87)%N
  else if ((65 <=? c) && (c <=? 70))%N then Some (c - 55)%N
  else None.

Definition hex4 (a b c d : N) : option N :=
  match hex_value a, hex_value b, hex_value c, hex_value d with
  | Some x, Some y, Some z, Some w => Some (((x * 16 + y) * 16 + z) * 16 + w)%N
  | _, _, _, _ => None
  end.

(** The character after a backslash, other than [u]. *)
Definition simple_escape (c : N) : option N :=
  if (c =? 34)%N then Some 34%N          (* quote *)
  else if (c =? 92)%N then Some 92%N     (* backslash *)
  else if (c =? 47)%N then Some 47%N     (* / *)
  else if (c =? 98)%N then Some 8%N      (* b *)
  else if (c =? 102)%N then Some 12%N    (* f *)
  else if (c =? 110)%N then Some 10%N    (* n *)
  else if (c =? 114)%N then Some 13%N    (* r *)
  else if (c =? 116)%N then Some 9%N     (* t *)
  else None.

(** The characters of a string after its opening quote, up to and
    including the closing quote. *)
Fixpoint parse_string_chars (s acc : jsstring) : option (jsstring * jsstring) :=
  match s with
  | [] => None
  | c :: r =>
      if (c =? DQUOTE)%N then Some (rev acc, r)
      else if (c =? BACKSLASH)%N then
        match r with
        | [] => None
        | e :: r' =>
            if (e =? 117)%N then
              match r' with
              | h1 :: h2 :: h3 :: h4 :: r'' =>
                  match hex4 h1 h2 h3 h4 with
                  | Some v => parse_string_chars r'' (v :: acc)
                  | None => None
                  end
              | _ => None
              end
            else
              match simple_escape e with
              | Some v => parse_string_chars r' (v :: acc)
              | None => None
              end
        end
      else if (c <? 32)%N then None
      else parse_string_chars r (c :: acc)
  end.

Fixpoint take_digits (s : jsstring) : list N * jsstring :=
  match s with
  | c :: r =>
      if is_digit c then let '(ds, r') := take_digits r in (c :: ds, r')
      else ([], s)
  | [] => ([], [])
  end.

Definition digits_value (ds : list N) : N :=
  fold_left (fun a d => (a * 10 + (d - 48))%N) ds 0%N.

(** A number: an optional minus sign; a single zero, or a non-zero digit
    and further digits; optionally a dot and one digit or more; optionally
    [e] or [E], a sign and one digit or more. *)
Definition number_sign (s : jsstring) : bool * jsstring :=
  match s with
  | c :: r => if (c =? 45)%N then (true, r) else (false, s)
  | [] => (false, s)
  end.

Definition number_int (s : jsstring) : option (list N * jsstring) :=
  match s with
  | c :: r =>
      if (c =? 48)%N then Some ([c], r)
      else if is_digit c then Some (take_digits s)
      else None
  | [] => None
  end.

Definition number_frac (s : jsstring) : option (list N * jsstring) :=
  match s with
  | c :: r =>
      if (c =? 46)%N then
        match take_digits r with
        | ([], _) => None
        | (fds, r') => Some (fds, r')
        end
      else Some ([], s)
  | [] => Some ([], s)
  end.

Definition exponent_sign (s : jsstring) : bool * jsstring :=
  match s with
  | c :: r =>
      if (c =? 45)%N then (true, r)
      else if (c =? 43)%N then (false, r)
      else (false, s)
  | [] => (false, s)
  end.

Definition number_exp (s : jsstring) : option (Z * jsstring) :=
  match s with
  | c :: r =>
      if ((c =? 101) || (c =? 69))%N then
        let '(eneg, r1) := exponent_sign r in
        match take_digits r1 with
        | ([], _) => None
        | (eds, r2) =>
            let e := Z.of_N (digits_value eds) in
            Some ((if eneg then - e else e), r2)
        end
      else Some (0, s)
  | [] => Some (0, s)
  end.

Definition parse_number (s : jsstring) : option (NumLit * jsstring) :=
  let '(neg, s1) := number_sign s in
  match number_int s1 with
  | None => None
  | Some (ids, s2) =>
      match number_frac s2 with
      | None => None
      | Some (fds, s3) =>
          match number_exp s3 with
          | None => None
          | Some (e, s4) =>
              Some (mkNum neg (digits_value (ids ++ fds))
                      (e - Z.of_nat (List.length fds)), s4)
          end
      end
  end.

(** A value, then the elements of an array after its first position, then
    the members of an object.  Each call spends one unit of [fuel]. *)
Fixpoint parse_value (fuel : nat) (s : jsstring) : option (JSON * jsstring) :=
  match fuel with
  | O => None
  | S f =>
      match skip_ws s with
      | [] => None
      | c :: r =>
          if (c =? LBRACE)%N then
            match skip_ws r with
            | c2 :: r2 =>
                if (c2 =? RBRACE)%N then Some (JObject [], r2)
                else parse_members f r []
            | [] => None
            end
          else if (c =? 91)%N then
            match skip_ws r with
            | c2 :: r2 =>
                if (c2 =? 93)%N then Some (JArray [], r2)
                else parse_elements f r []
            | [] => None
            end
          else if (c =? DQUOTE)%N then
            match parse_string_chars r [] with
            | Some (x, r') => Some (JString x, r')
            | None => None
            end
          else if starts_with (str "true") (c :: r) then
            Some (JBool true, skipn 4 (c :: r))
          else if starts_with (str "false") (c :: r) then
            Some (JBool false, skipn 5 (c :: r))
          else if starts_with (str "null") (c :: r) then
            Some (JNull, skipn 4 (c :: r))
          else
            match parse_number (c :: r) with
            | Some (n, r') => Some (JNumber n, r')
            | None => None
            end
      end
  end
with parse_elements (fuel : nat) (s : jsstring) (acc : list JSON)
  : option (JSON * jsstring) :=
  match fuel with
  | O => None
  | S f =>
      match parse_value f s with
      | Some (v, r) =>
          match skip_ws r with
          | c :: r' =>
              if (c =? 44)%N then parse_elements f r' (v :: acc)
              else if (c =? 93)%N then Some (JArray (rev (v :: acc)), r')
              else None
          | [] => None
          end
      | None => None
      end
  end
with parse_members (fuel : nat) (s : jsstring) (acc : list (jsstring * JSON))
  : option (JSON * jsstring) :=
  match fuel with
  | O => None
  | S f =>
      match skip_ws s with
      | c :: r =>
          if (c =? DQUOTE)%N then
            match parse_string_chars r [] with
            | Some (k, r1) =>
                match skip_ws r1 with
                | c1 :: r2 =>
                    if (c1 =? 58)%N then
                      match parse_value f r2 with
                      | Some (v, r3) =>
                          match skip_ws r3 with
                          | c3 :: r4 =>
                              if (c3 =? 44)%N
                              then parse_members f r4 (obj_set k v acc)
                              else if (c3 =? RBRACE)%N
                              then Some (JObject (obj_set k v acc), r4)
                              else None
                          | [] => None
                          end
                      | None => None
                      end
                    else None
                | [] => None
                end
            | None => None
            end
          else None
      | [] => None
      end
  end.

(** [JSON.parse(text)]: one value, surrounded by white space only.  [None]
    is the [SyntaxError] it throws.  A call of the parser consumes a
    character before it calls again, so the fuel given here never runs
    out: see [parse_fuel_enough] below. *)
Definition parse (text : jsstring) : option JSON :=
  match parse_value (2 * List.length text + 2) text with
  | Some (v, r) =>
      match skip_ws r with
      | [] => Some v
      | _ :: _ => None
      end
  | None => None
  end.

End Json.

(** ** The chunkers

    A [while] loop of the source is a function on [fuel]: one unit per
    iteration, [None] when the loop is still running after [fuel]
    iterations. *)

(** *** services/llm-service.js *)

Module LLMService.
Import JS.

Fixpoint _splitTextIntoChunks_loop (fuel : nat) (text : jsstring)
    (chunkSize overlapSize startIndex : Z) (chunks : list jsstring)
  : option (list jsstring) :=
  match fuel with
  | O => None
  | S fuel' =>
      if startIndex <? len text then
        let endIndex := Z.min (startIndex + chunkSize) (len text) in
        let endIndex :=
          if endIndex <? len text then
            let paragraphEnd := lastIndexOf_from text [LF; LF] endIndex in
            if paragraphEnd >? startIndex then paragraphEnd
            else
              let sentenceEnd := lastIndexOf_from text [DOT; SPACE] endIndex in
              if sentenceEnd >? startIndex then sentenceEnd + 1
              else endIndex
          else endIndex in
        _splitTextIntoChunks_loop fuel' text chunkSize overlapSize
          (Z.max startIndex (endIndex - overlapSize))
          (chunks ++ [substring text startIndex endIndex])
      else Some chunks
  end.

Definition _splitTextIntoChunks (fuel : nat) (text : jsstring)
    (chunkSize overlapSize : Z) : option (list jsstring) :=
  _splitTextIntoChunks_loop fuel text chunkSize overlapSize 0 [].

End LLMService.

(** The options of a [DocAnalyzer]: [{ maxChunkSize: 4000, overlapSize:
    200, ...options }]. *)
Record AnalyzerOptions := mkOptions { maxChunkSize : Z; overlapSize : Z }.

Definition defaultOptions : AnalyzerOptions := mkOptions 4000 200.

(** *** analyzers/doc-analyzer.js *)

Module LegacyDocAnalyzer.
Import JS.

Fixpoint _splitIntoChunks_loop (fuel : nat) (options : AnalyzerOptions)
    (document : jsstring) (position : Z) (chunks : list jsstring)
  : option (list jsstring) :=
  match fuel with
  | O => None
  | S fuel' =>
      if position <? len document then
        let end_ := Z.min (position + maxChunkSize options) (len document) in
        let chunks := chunks ++ [substring document position end_] in
        let position := end_ - overlapSize options in
        if (position <=? 0) || (maxChunkSize options <=? overlapSize options)
        then Some chunks
        else _splitIntoChunks_loop fuel' options document position chunks
      else Some chunks
  end.

Definition _splitIntoChunks (fuel : nat) (options : AnalyzerOptions)
    (document : jsstring) : option (list jsstring) :=
  if len document <=? maxChunkSize options then Some [document]
  else _splitIntoChunks_loop fuel options document 0 [].

End LegacyDocAnalyzer.

(** *** The two [_splitIntoChunks] of the later [DocAnalyzer]

    The class body defines the method twice; the second definition
    replaces the first, so [_splitIntoChunks] is the fixed-size chunker and
    the boundary-seeking one is never called. *)

Module Chunker.
Import JS.

(** [splitPos <= startPos || splitPos < endPos - maxChunkSize/2]: the
    candidate does not lie after the start of the chunk, or lies more than
    half a chunk before [endPos].  The second test is written without the
    division, both sides doubled. *)
Definition refused (options : AnalyzerOptions) (startPos endPos splitPos : Z)
  : bool :=
  (splitPos <=? startPos) || (2 * splitPos <? 2 * endPos - maxChunkSize options).

(** The break chosen for the chunk that starts at [startPos] and is not
    the last one. *)
Definition splitPos_of (options : AnalyzerOptions) (text : jsstring)
    (startPos : Z) : Z :=
  let endPos := startPos + maxChunkSize options in
  let splitPos := lastIndexOf_from text [LF; LF] endPos in
  let splitPos :=
    if refused options startPos endPos splitPos
    then lastIndexOf_from text [DOT; SPACE] endPos
    else splitPos in
  let splitPos :=
    if refused options startPos endPos splitPos then endPos else splitPos in
  splitPos.

Fixpoint _splitIntoChunks_shadowed_loop (fuel : nat) (options : AnalyzerOptions)
    (text : jsstring) (startPos : Z) (chunks : list jsstring)
  : option (list jsstring) :=
  match fuel with
  | O => None
  | S fuel' =>
      if startPos <? len text then
        let endPos := startPos + maxChunkSize options in
        if endPos >=? len text
        then Some (chunks ++ [substring_from text startPos])
        else
          let splitPos := splitPos_of options text startPos in
          _splitIntoChunks_shadowed_loop fuel' options text
            (Z.max startPos (splitPos - overlapSize options))
            (chunks ++ [substring text startPos splitPos])
      else Some chunks
  end.

(** The first definition. *)
Definition _splitIntoChunks_shadowed (fuel : nat) (options : AnalyzerOptions)
    (text : jsstring) : option (list jsstring) :=
  if is_empty text then Some []
  else if len text <=? maxChunkSize options then Some [text]
  else _splitIntoChunks_shadowed_loop fuel options text 0 [].

Definition chunkSize : Z := 4000.

(** [for (let i = 0; i < text.length; i += chunkSize)]: the loop ends
    within [text.length] iterations, which is the fuel given below. *)
Fixpoint _splitIntoChunks_loop (fuel : nat) (text : jsstring) (i : Z)
  : list jsstring :=
  match fuel with
  | O => []
  | S fuel' =>
      if i <? len text
      then slice text i (i + chunkSize)
             :: _splitIntoChunks_loop fuel' text (i + chunkSize)
      else []
  end.

(** The second definition, the one in force.  Its argument is a string
    here, so the conversion of other values does not arise. *)
Definition _splitIntoChunks (text : jsstring) : list jsstring :=
  if is_empty text then []
  else _splitIntoChunks_loop (List.length text) text 0.

End Chunker.

(** ** The response extractor and repairer *)

Module Repair.
Import JS Json.

(** [_extractJsonFromText]; [None] is [null]. *)
Definition _extractJsonFromText (text : jsstring) : option jsstring :=
  if is_empty text then None
  else
    let jsonStartIndex := indexOf text [LBRACE] in
    let jsonEndIndex := lastIndexOf text [RBRACE] in
    if (jsonStartIndex >=? 0) && (jsonEndIndex >? jsonStartIndex)
    then Some (substring text jsonStartIndex (jsonEndIndex + 1))
    else None.

(** [.replace(/```json|```/g, '')]: at each position the longer fence is
    tried first; [skip] counts the characters of a fence still to drop. *)
Fixpoint remove_fences_skip (skip : nat) (s : jsstring) : jsstring :=
  match s with
  | [] => []
  | c :: r =>
      match skip with
      | S k => remove_fences_skip k r
      | O =>
          if starts_with (str "```json") s then remove_fences_skip 6 r
          else if starts_with (str "```") s then remove_fences_skip 2 r
          else c :: remove_fences_skip 0 r
      end
  end.

Definition remove_fences (s : jsstring) : jsstring := remove_fences_skip 0 s.

(** The replacement of every double quote that no backslash precedes
    (a negative lookbehind) by a backslash and the double quote. *)
Fixpoint escape_quotes_after (after_backslash : bool) (s : jsstring) : jsstring :=
  match s with
  | [] => []
  | c :: r =>
      if (c =? DQUOTE)%N && negb after_backslash
      then BACKSLASH :: DQUOTE :: escape_quotes_after false r
      else c :: escape_quotes_after (c =? BACKSLASH)%N r
  end.

Definition escape_quotes (s : jsstring) : jsstring := escape_quotes_after false s.

(** The replacement of every two backslashes followed by a double quote
    by one backslash and the double quote, from left to right. *)
Fixpoint collapse_double_escapes (s : jsstring) : jsstring :=
  match s with
  | [] => []
  | a :: t =>
      match t with
      | b :: c :: rest =>
          if (a =? BACKSLASH)%N && (b =? BACKSLASH)%N && (c =? DQUOTE)%N
          then BACKSLASH :: DQUOTE :: collapse_double_escapes rest
          else a :: collapse_double_escapes t
      | _ => a :: collapse_double_escapes t
      end
  end.

(** The replacement of every single quote by a double quote. *)
Definition single_to_double (s : jsstring) : jsstring :=
  List.map (fun c => if (c =? SQUOTE)%N then DQUOTE else c) s.

(** [.match(/{[^]*}/)]: the match starts at the first [{] and, the star
    being greedy, ends at the last [}] of the string, provided that one
    comes later. *)
Definition match_outer_braces (s : jsstring) : option jsstring :=
  let first := indexOf s [LBRACE] in
  let last := lastIndexOf s [RBRACE] in
  if (first >=? 0) && (last >? first)
  then Some (substring s first (last + 1))
  else None.

(** The text that [_attemptJsonFix] hands to [JSON.parse]. *)
Definition cleaned_of (jsonStr : jsstring) : jsstring :=
  let cleaned := trim (remove_fences jsonStr) in
  let cleaned := escape_quotes cleaned in
  let cleaned := collapse_double_escapes cleaned in
  single_to_double cleaned.

(** [_attemptJsonFix]; [JNull] is [null], whether returned as such or
    parsed from the text. *)
Definition _attemptJsonFix (jsonStr : jsstring) : JSON :=
  if is_empty jsonStr then JNull
  else
    let cleaned := cleaned_of jsonStr in
    match parse cleaned with
    | Some v => v
    | None =>
        match match_outer_braces cleaned with
        | Some m =>
            match parse m with
            | Some v => v
            | None => JNull
            end
        | None => JNull
        end
    end.

End Repair.

(** ** Content checks of the orchestrator *)

Module Content.
Import JS.

(** The document handed to [analyzeDocument]: a string, an object, or
    [null]/[undefined].  Of an object only what the code reads is kept: the
    properties [content], [text], [data] and [fileName] when they hold a
    string ([None] otherwise), and the text [JSON.stringify] gives for it
    ([None] when it throws or gives [undefined]). *)
Record DocObject := mkDoc {
  doc_content : option jsstring;
  doc_text : option jsstring;
  doc_data : option jsstring;
  doc_fileName : option jsstring;
  doc_stringified : option jsstring
}.

Inductive Document :=
| DocString (s : jsstring)
| DocObj (o : DocObject)
| DocNullish.

(** [o.p && typeof o.p === 'string']. *)
Definition string_prop (p : option jsstring) : option jsstring :=
  match p with
  | Some s => if is_empty s then None else Some s
  | None => None
  end.

Definition _extractContent (document : Document) : jsstring :=
  match document with
  | DocNullish => []
  | DocString s => s
  | DocObj o =>
      match string_prop (doc_content o) with
      | Some s => s
      | None =>
          match string_prop (doc_text o) with
          | Some s => s
          | None =>
              match string_prop (doc_data o) with
              | Some s => s
              | None =>
                  match doc_stringified o with
                  | Some s => s
                  | None => []
                  end
              end
          end
      end
  end.

(** [document.fileName || 'unknown']. *)
Definition documentName_of (document : Document) : jsstring :=
  match document with
  | DocObj o =>
      match string_prop (doc_fileName o) with
      | Some s => s
      | None => str "unknown"
      end
  | _ => str "unknown"
  end.

Definition non_printable (code : N) : bool :=
  ((code <? 32) && negb (code =? 9) && negb (code =? 10) && negb (code =? 13)
   || (127 <=? code) && (code <=? 159))%N.

Definition binarySignatures : list jsstring :=
  [str "%PDF-"; str "PK"; str "ID3"; str "GIF"; str "PNG"; str "JFIF";
   str "BM"; str "MZ"].

(** [nonPrintableCount > sampleSize * 0.1] is decided as
    [10 * nonPrintableCount > sampleSize]. *)
Definition _isBinaryContent (text : jsstring) : bool :=
  if is_empty text then true
  else
    let sampleSize := Z.min (len text) 1000 in
    let nonPrintableCount :=
      Z.of_nat (List.length
                  (filter non_printable (firstn (Z.to_nat sampleSize) text))) in
    if 10 * nonPrintableCount >? sampleSize then true
    else
      let start := substring text 0 20 in
      existsb (fun sig => includes start sig) binarySignatures.

(** [/[\x00-\x08\x0B\x0C\x0E-\x1F\x7F-\x9F]/]. *)
Definition is_control (c : N) : bool :=
  ((c <=? 8) || (c =? 11) || (c =? 12) || (14 <=? c) && (c <=? 31)
   || (127 <=? c) && (c <=? 159))%N.

(** Global replacement of [/C{n,}/] for a character class [C]: the
    quantifier is greedy, so each maximal run of [n] characters or more of
    the class is replaced as a whole.  [run] holds the current run,
    reversed. *)
Section Runs.
Variable in_class : N -> bool.
Variable n : nat.
Variable replacement : jsstring.

Definition flush_run (run : jsstring) : jsstring :=
  if (n <=? List.length run)%nat then replacement else rev run.

Fixpoint replace_runs_from (run s : jsstring) : jsstring :=
  match s with
  | [] => flush_run run
  | c :: r =>
      if in_class c then replace_runs_from (c :: run) r
      else flush_run run ++ c :: replace_runs_from [] r
  end.

Definition replace_runs (s : jsstring) : jsstring := replace_runs_from [] s.
End Runs.

(** [.replace(/(.)\1{20,}/g, '$1$1$1 [REPEATED CHARS REMOVED] ')]: a
    maximal run of 21 or more copies of a character other than a line
    terminator is cut down to three and the marker. *)
Definition flush_repeat (cur : option (N * nat)) : jsstring :=
  match cur with
  | None => []
  | Some (d, k) =>
      if (21 <=? k)%nat
      then [d; d; d] ++ str " [REPEATED CHARS REMOVED] "
      else repeat d k
  end.

Fixpoint limit_repeats_from (cur : option (N * nat)) (s : jsstring) : jsstring :=
  match s with
  | [] => flush_repeat cur
  | c :: r =>
      let same := match cur with Some (d, _) => (c =? d)%N | None => false end in
      if same then
        limit_repeats_from
          (match cur with Some (d, k) => Some (d, S k) | None => None end) r
      else if is_line_terminator c
      then flush_repeat cur ++ c :: limit_repeats_from None r
      else flush_repeat cur ++ limit_repeats_from (Some (c, 1%nat)) r
  end.

Definition limit_repeats (s : jsstring) : jsstring := limit_repeats_from None s.

Definition _cleanTextContent (text : jsstring) : jsstring :=
  if is_empty text then []
  else
    let text := filter (fun c => negb (is_control c)) text in
    let text :=
      replace_runs (fun c => negb (is_space c)) 100
        (str "[BINARY DATA REMOVED]") text in
    let text := limit_repeats text in
    replace_runs is_space 3 [LF; LF] text.

End Content.

(** ** The model client, the chunk analyzer, the synthesizer and the
    orchestrator *)

Module DocAnalyzer.
Import JS Json Repair Content.

(** What is thrown: an [Error] object, of which the code reads
    [message]. *)
Record Error := mkError { message : jsstring }.

Inductive Outcome :=
| Returned (content : jsstring)
| Thrown (e : Error).

(** The third argument of [query]: the caller's options passed through,
    [{}], or the literal of the synthesis call. *)
Inductive QueryOptions (Options : Type) :=
| CallerOptions (o : Options)
| NoOptions
| SynthesisOptions.
Arguments CallerOptions {Options} o.
Arguments NoOptions {Options}.
Arguments SynthesisOptions {Options}.

Record Call (Options : Type) := mkCall {
  call_system : jsstring;
  call_user : jsstring;
  call_options : QueryOptions Options
}.
Arguments mkCall {Options}.
Arguments call_system {Options}.
Arguments call_user {Options}.
Arguments call_options {Options}.

(** The envelope of [analyzeDocument].  [env_error = None] is an absent
    [error] property; [env_data = JNull] is [data: null].  The time stamp
    of [meta] is left out. *)
Record Meta := mkMeta {
  meta_analysisType : jsstring;
  meta_chunkCount : nat;
  meta_documentLength : Z;
  meta_documentName : option jsstring
}.

Record Envelope := mkEnvelope {
  env_success : bool;
  env_data : JSON;
  env_error : option jsstring;
  env_meta : option Meta
}.

(** A number of the source printed in a template. *)
Definition decimal (n : nat) : jsstring :=
  str (DecimalString.NilEmpty.string_of_uint (Nat.to_uint n)).

Definition chunk_systemPrompt : jsstring :=
  str "You are a document analyzer. Extract key information from the text and return ONLY a JSON object with this exact structure:

{
  " ++ quoted "title" ++ str ": " ++ quoted "Document title" ++ str ",
  " ++ quoted "summary" ++ str ": " ++ quoted "Brief summary" ++ str ",
  " ++ quoted "keyPoints" ++ str ": [" ++ quoted "point 1" ++ str ", "
  ++ quoted "point 2" ++ str "]
}

IMPORTANT: Your entire response must be ONLY the JSON. No explanations, no markdown, no additional text.".

Definition _createPrompts (chunk analysisType : jsstring) : jsstring * jsstring :=
  (chunk_systemPrompt, str "Analyze this text: " ++ chunk).

Definition testPrompt : jsstring :=
  str "You are a test assistant. 
Return this exact JSON: {" ++ quoted "test" ++ str ":" ++ quoted "success"
  ++ str "," ++ quoted "timestamp" ++ str ":" ++ quoted "now" ++ str "}".

Definition synthesis_systemPrompt : jsstring :=
  str "You are an expert at synthesizing multiple document analyses into a coherent and comprehensive assessment. Combine the separate analyses into a unified view that captures the essence of the entire document.".

(** The object literals of the chunk analyzer. *)
Definition failed (error rawContent : jsstring) : JSON :=
  JObject [(str "success", JBool false);
           (str "error", JString error);
           (str "rawContent", JString rawContent)].

Definition succeeded (data : JSON) (rawContent : jsstring) : JSON :=
  JObject [(str "success", JBool true);
           (str "data", data);
           (str "rawContent", JString rawContent)].

Definition succeeded_fixed (data : JSON) (rawContent : jsstring) : JSON :=
  JObject [(str "success", JBool true);
           (str "data", data);
           (str "wasFixed", JBool true);
           (str "rawContent", JString rawContent)].

(** The object literals of the synthesizer. *)
Definition no_valid_results : JSON :=
  JObject [(str "error", JString (str "No valid analysis results to synthesize"));
           (str "message", JString (str "All chunks failed analysis"))].

Definition synthesis_unparsed (synthesisResponse : jsstring) : JSON :=
  JObject [(str "synthesisError", JString (str "Could not parse synthesis result"));
           (str "rawSynthesis", JString synthesisResponse)].

(** [result => !result.error]. *)
Definition is_valid (result : JSON) : bool :=
  negb (truthy_opt (get (str "error") result)).

(** [!response || response.trim() === ''] *)
Definition blank (response : jsstring) : bool :=
  is_empty response || is_empty (trim response).

(** What [_analyzeChunkWithLLM] makes of the response of the model, from
    the test for an empty response to the last [return] of its [try]. *)
Definition chunk_result_of_response (response : jsstring) : JSON :=
  if blank response
  then failed (str "Empty response from LLM") []
  else
    let parsing_failed := failed (str "JSON parsing failed") response in
    match _extractJsonFromText response with
    | Some jsonContent =>
        if is_empty jsonContent then parsing_failed
        else
          match parse jsonContent with
          | Some parsedContent => succeeded parsedContent response
          | None =>
              let fixedJson := _attemptJsonFix jsonContent in
              if truthy fixedJson
              then succeeded_fixed fixedJson response
              else parsing_failed
          end
    | None => parsing_failed
    end.

Section Pipeline.

(** The caller's [analysisOptions], opaque to the pipeline. *)
Variable Options : Type.

(** The model client: [llm_query] is [this.llmService.query], a function
    of the state of the service and of the three arguments, which
    returns the text of the model or throws.  The chunk calls are issued
    in the order of the chunks, and a chunk analysis touches nothing but
    its own response, so the calls that [Promise.all] keeps in flight
    together are threaded in that order. *)
Variable World : Type.
Variable llm_query :
  World -> jsstring -> jsstring -> QueryOptions Options -> Outcome * World.

(** [JSON.stringify(validResults, null, 2)], which only feeds the prompt
    of the synthesis call. *)
Variable JSON_stringify : list JSON -> jsstring.

(** The state threaded through a run: the service, and the calls made
    so far. *)
Record St := mkSt { world : World; calls : list (Call Options) }.

Inductive Res (A : Type) :=
| Ret (a : A)
| Throw (e : Error).
Arguments Ret {A} a.
Arguments Throw {A} e.

Definition M (A : Type) : Type := St -> Res A * St.

Definition ret {A} (a : A) : M A := fun st => (Ret a, st).

Definition throw {A} (e : Error) : M A := fun st => (Throw e, st).

Definition bind {A B} (m : M A) (k : A -> M B) : M B :=
  fun st =>
    match m st with
    | (Ret a, st') => k a st'
    | (Throw e, st') => (Throw e, st')
    end.

(** [try { m } catch (error) { handler error }]. *)
Definition try_catch {A} (m : M A) (handler : Error -> M A) : M A :=
  fun st =>
    match m st with
    | (Ret a, st') => (Ret a, st')
    | (Throw e, st') => handler e st'
    end.

Notation "x <- m ;; k" := (bind m (fun x => k))
  (at level 61, m at next level, right associativity).

Definition query (systemPrompt userPrompt : jsstring)
    (options : QueryOptions Options) : M jsstring :=
  fun st =>
    let '(outcome, w) := llm_query (world st) systemPrompt userPrompt options in
    let st' := mkSt w (calls st ++ [mkCall systemPrompt userPrompt options]) in
    match outcome with
    | Returned content => (Ret content, st')
    | Thrown e => (Throw e, st')
    end.

(** The one call of the chunk analyzer; what is thrown by [query] is
    caught by the [catch] of the analyzer itself. *)
Definition _analyzeChunkWithLLM (chunk analysisType : jsstring)
    (options : Options) : M JSON :=
  try_catch
    (let '(systemPrompt, userPrompt) := _createPrompts chunk analysisType in
     response <- query systemPrompt userPrompt (CallerOptions options) ;;
     ret (chunk_result_of_response response))
    (fun error => ret (failed (message error) [])).

Definition testLLMResponse : M bool :=
  try_catch
    (response <- query testPrompt (str "Test request") NoOptions ;;
     if blank response then ret false
     else
       match parse response with
       | Some _ => ret true
       | None => ret false
       end)
    (fun _ => ret false).

(** The methods [_combineOutlineResults], [_combineImportanceResults] and
    [_combineComprehensiveResults] are called here and defined nowhere:
    the call of an undefined property throws a [TypeError]. *)
Definition not_a_function (name : string) : Error :=
  mkError (str "this." ++ str name ++ str " is not a function").

Definition _basicCombineResults (results : list JSON)
    (analysisType : jsstring) : M JSON :=
  if jsstring_eqb analysisType (str "outline")
  then throw (not_a_function "_combineOutlineResults")
  else if jsstring_eqb analysisType (str "importance")
  then throw (not_a_function "_combineImportanceResults")
  else throw (not_a_function "_combineComprehensiveResults").

Definition synthesis_userPrompt (validResults : list JSON)
    (contentSummary analysisType : jsstring) : jsstring :=
  str "I've analyzed a document in " ++ decimal (List.length validResults)
  ++ str " parts and need you to synthesize these analyses into a single coherent assessment.

Document preview:
" ++ contentSummary ++ str "

Analysis type: " ++ analysisType ++ str "

Individual analysis results:
" ++ JSON_stringify validResults ++ str "

Please synthesize these results into a unified analysis that:
1. Maintains the same JSON structure as the individual analyses
2. Eliminates duplication
3. Resolves any contradictions
4. Preserves the most important insights
5. Creates a coherent outline of the entire document
6. Provides an overall evaluation of the document's structure, content, and importance

Your response should be a single JSON object that follows the same structure as the individual analyses but represents the entire document.".

(** The response of [query] is a string, so the branch for a response
    that is already an object is not taken. *)
Definition _synthesizeResults (chunkResults : list JSON)
    (analysisType originalContent : jsstring) : M JSON :=
  let validResults := filter is_valid chunkResults in
  if (List.length validResults =? 0)%nat then ret no_valid_results
  else
    let contentSummary :=
      substring originalContent 0 500
      ++ (if len originalContent >? 500 then str "..." else []) in
    let userPrompt :=
      synthesis_userPrompt validResults contentSummary analysisType in
    try_catch
      (synthesisResponse <-
         query synthesis_systemPrompt userPrompt SynthesisOptions ;;
       match parse synthesisResponse with
       | Some v => ret v
       | None => ret (synthesis_unparsed synthesisResponse)
       end)
      (fun error => _basicCombineResults validResults analysisType).

(** [Promise.all(chunks.map(chunk => f chunk))]. *)
Fixpoint all {A B} (f : A -> M B) (xs : list A) : M (list B) :=
  match xs with
  | [] => ret []
  | x :: xs' => y <- f x ;; ys <- all f xs' ;; ret (y :: ys)
  end.

Definition invalid_content : Envelope :=
  mkEnvelope false JNull (Some (str "Invalid or binary content detected")) None.

(** [Promise.all] over the analyses of the chunks. *)
Definition analyze_chunks (chunks : list jsstring) (analysisType : jsstring)
    (analysisOptions : Options) : M (list JSON) :=
  all (fun chunk => _analyzeChunkWithLLM chunk analysisType analysisOptions)
    chunks.

(** The body of the [try] of [analyzeDocument]. *)
Definition analyzeDocument_try (document : Document)
    (analysisType : jsstring) (analysisOptions : Options) : M Envelope :=
  let content := _extractContent document in
  if is_empty content || _isBinaryContent content then ret invalid_content
  else
    _ <- testLLMResponse ;;
    let content := _cleanTextContent content in
    let chunks := Chunker._splitIntoChunks content in
    chunkResults <- analyze_chunks chunks analysisType analysisOptions ;;
    if (List.length chunks =? 1)%nat then
      ret (mkEnvelope true (nth 0 chunkResults JNull) None
             (Some (mkMeta analysisType 1 (len content) None)))
    else
      combinedResults <- _synthesizeResults chunkResults analysisType content ;;
      ret (mkEnvelope true combinedResults None
             (Some (mkMeta analysisType (List.length chunks) (len content)
                      (Some (documentName_of document))))).

(** [analyzeDocument]: what the [try] returns, or the envelope of the
    [catch]. *)
Definition analyzeDocument (document : Document) (analysisType : jsstring)
    (analysisOptions : Options) (st : St) : Envelope * St :=
  match analyzeDocument_try document analysisType analysisOptions st with
  | (Ret envelope, st') => (envelope, st')
  | (Throw error, st') =>
      (mkEnvelope false JNull (Some (message error)) None, st')
  end.

(** The document passes the content check of the orchestrator. *)
Definition acceptable (document : Document) : bool :=
  negb (is_empty (_extractContent document)
        || _isBinaryContent (_extractContent document)).

(** The cleaned text of the document, and its chunks. *)
Definition content_of (document : Document) : jsstring :=
  _cleanTextContent (_extractContent document).

Definition chunks_of (document : Document) : list jsstring :=
  Chunker._splitIntoChunks (content_of document).

(** The preview of the document in the prompt of the synthesizer. *)
Definition summary_of (originalContent : jsstring) : jsstring :=
  substring originalContent 0 500
  ++ (if len originalContent >? 500 then str "..." else []).

(** The calls of the test, of a chunk analysis and of the synthesis. *)
Definition test_call : Call Options :=
  mkCall testPrompt (str "Test request") NoOptions.

Definition chunk_call (chunk : jsstring) (options : Options) : Call Options :=
  mkCall chunk_systemPrompt (str "Analyze this text: " ++ chunk)
    (CallerOptions options).

Definition synthesis_call (validResults : list JSON)
    (analysisType originalContent : jsstring) : Call Options :=
  mkCall synthesis_systemPrompt
    (synthesis_userPrompt validResults (summary_of originalContent)
       analysisType)
    SynthesisOptions.

(** A call of the synthesizer is recognised by its system prompt. *)
Definition is_synthesis_call (c : Call Options) : bool :=
  jsstring_eqb (call_system c) synthesis_systemPrompt.

End Pipeline.

Arguments mkSt {Options World} world calls.
Arguments world {Options World} s.
Arguments calls {Options World} s.
Arguments Ret {A} a.
Arguments Throw {A} e.
Arguments query {Options World} llm_query systemPrompt userPrompt options _.
Arguments _analyzeChunkWithLLM {Options World} llm_query
  chunk analysisType options _.
Arguments testLLMResponse {Options World} llm_query _.
Arguments _basicCombineResults {Options World} results analysisType _.
Arguments _synthesizeResults {Options World} llm_query JSON_stringify
  chunkResults analysisType originalContent _.
Arguments analyze_chunks {Options World} llm_query
  chunks analysisType analysisOptions _.
Arguments analyzeDocument_try {Options World} llm_query JSON_stringify
  document analysisType analysisOptions _.
Arguments analyzeDocument {Options World} llm_query JSON_stringify
  document analysisType analysisOptions st.
Arguments test_call {Options}.
Arguments chunk_call {Options} chunk options.
Arguments synthesis_call {Options} JSON_stringify
  validResults analysisType originalContent.
Arguments is_synthesis_call {Options} c.

(** The state after a call of the model client, and the outcome of the
    call. *)
Definition called {Options World : Type}
    (llm_query : World -> jsstring -> jsstring -> QueryOptions Options
                 -> Outcome * World)
    (st : St Options World) (c : Call Options) : St Options World :=
  mkSt (snd (llm_query (world st) (call_system c) (call_user c)
               (call_options c)))
       (calls st ++ [c]).

Definition outcome_of {Options World : Type}
    (llm_query : World -> jsstring -> jsstring -> QueryOptions Options
                 -> Outcome * World)
    (st : St Options World) (c : Call Options) : Outcome :=
  fst (llm_query (world st) (call_system c) (call_user c) (call_options c)).

(** The result of a chunk analysis, from the outcome of its call. *)
Definition chunk_result_of (outcome : Outcome) : JSON :=
  match outcome with
  | Returned response => chunk_result_of_response response
  | Thrown e => failed (message e) []
  end.

End DocAnalyzer.

(** ** The statements of the specification, as predicates *)

Module Spec.
Import JS Json.

(** [pat] occurs in [s] at position [i]. *)
Definition occurs_at (pat s : jsstring) (i : nat) : Prop :=
  starts_with pat (skipn i s) = true.

(** The first and the last position of a character. *)
Definition first_at (c : N) (s : jsstring) (i : nat) : Prop :=
  nth_error s i = Some c /\ forall k, (k < i)%nat -> nth_error s k <> Some c.

Definition last_at (c : N) (s : jsstring) (j : nat) : Prop :=
  nth_error s j = Some c /\ forall k, (j < k)%nat -> nth_error s k <> Some c.

(** The characters of [s] at the positions [i .. j], both included. *)
Definition inclusive (s : jsstring) (i j : nat) : jsstring :=
  firstn (j - i + 1) (skipn i s).

(** [c] is the nearest occurrence of [pat] at or before [hard], or [-1]
    when there is none. *)
Definition nearest_preceding (pat s : jsstring) (hard c : Z) : Prop :=
  (c = -1 /\ forall i, (Z.of_nat i <= hard) -> ~ occurs_at pat s i)
  \/ (0 <= c <= hard /\ occurs_at pat s (Z.to_nat c)
      /\ forall i, (c < Z.of_nat i <= hard) -> ~ occurs_at pat s i).

(** A candidate is accepted when it lies strictly after the start of the
    chunk and not more than [maxChunkSize/2] before the hard cut. *)
Definition accepted (options : AnalyzerOptions) (start c : Z) : Prop :=
  start < c /\ 2 * ((start + maxChunkSize options) - c) <= maxChunkSize options.

(** The cut of the chunk that starts at [start]: the paragraph break if
    accepted, else the sentence end if accepted, else the hard cut. *)
Definition preferred_cut (options : AnalyzerOptions) (text : jsstring)
    (start cut : Z) : Prop :=
  let hard := start + maxChunkSize options in
  exists paragraph sentence,
    nearest_preceding [LF; LF] text hard paragraph
    /\ nearest_preceding [DOT; SPACE] text hard sentence
    /\ ((accepted options start paragraph /\ cut = paragraph)
        \/ (~ accepted options start paragraph
            /\ accepted options start sentence /\ cut = sentence)
        \/ (~ accepted options start paragraph
            /\ ~ accepted options start sentence /\ cut = hard)).

(** The chunks the rule of the specification gives from [start] on: the
    rest of the text once the hard cut reaches its end, else the chunk up
    to the preferred cut, followed by the chunks from the next start. *)
Inductive chunks_from (options : AnalyzerOptions) (text : jsstring)
  : Z -> list jsstring -> Prop :=
| chunks_done start :
    len text <= start ->
    chunks_from options text start []
| chunks_last start :
    start < len text ->
    len text <= start + maxChunkSize options ->
    chunks_from options text start [substring_from text start]
| chunks_cut start cut rest :
    start < len text ->
    start + maxChunkSize options < len text ->
    preferred_cut options text start cut ->
    chunks_from options text (Z.max start (cut - overlapSize options)) rest ->
    chunks_from options text start (substring text start cut :: rest).

(** The spans [[start, end)] of the chunks of the fixed-size chunker. *)
Definition span_of (text : jsstring) (k : nat) : Z * Z :=
  (Chunker.chunkSize * Z.of_nat k,
   Z.min (Chunker.chunkSize * Z.of_nat k + Chunker.chunkSize) (len text)).

(** Position [p] lies in one of the spans. *)
Definition covered (spans : list (Z * Z)) (p : Z) : Prop :=
  exists s e, In (s, e) spans /\ s <= p < e.

(** The spans start at [0], their starts increase, and each starts where
    the previous one ends or before. *)
Fixpoint chained (prev_start prev_end : Z) (spans : list (Z * Z)) : Prop :=
  match spans with
  | [] => True
  | (s, e) :: rest => prev_start < s <= prev_end /\ s < e /\ chained s e rest
  end.

Definition contiguous (spans : list (Z * Z)) : Prop :=
  match spans with
  | [] => True
  | (s, e) :: rest => s = 0 /\ s < e /\ chained s e rest
  end.

(** Every double quote of [s] follows a backslash; [after_backslash]
    tells whether a backslash precedes [s]. *)
Fixpoint quotes_guarded (after_backslash : bool) (s : jsstring) : Prop :=
  match s with
  | [] => True
  | c :: r =>
      ((c =? DQUOTE)%N = true -> after_backslash = true)
      /\ quotes_guarded (c =? BACKSLASH)%N r
  end.

(** The first character of [s] that is a double quote or a backslash is
    a backslash. *)
Fixpoint backslash_first (s : jsstring) : bool :=
  match s with
  | [] => false
  | c :: r =>
      if (c =? BACKSLASH)%N then true
      else if (c =? DQUOTE)%N then false
      else backslash_first r
  end.
(** A text that begins with an opening brace and ends with a closing one,
    as every candidate of the extractor does. *)
Definition braced (s : jsstring) : Prop :=
  exists body, s = LBRACE :: body ++ [RBRACE].

End Spec.

(** ** The inputs of the examples *)

Module Inputs.
Import JS.

(** The text of the first test of the text splitting utility. *)
Definition paragraphs : jsstring :=
  str "Paragraph 1." ++ [LF; LF] ++ str "Paragraph 2." ++ [LF; LF]
  ++ str "Paragraph 3." ++ [LF; LF] ++ str "Paragraph 4.".

(** ['A'.repeat(10000)], the large document of the analyzer's test. *)
Definition largeDocument : jsstring := repeat 65%N (Z.to_nat 10000).

Definition two_paragraphs : jsstring := str "ab" ++ [LF; LF] ++ str "cdef".

(** Three thousand characters, a paragraph break, two thousand more. *)
Definition late_break : jsstring :=
  repeat 97%N (Z.to_nat 3000) ++ [LF; LF] ++ repeat 98%N (Z.to_nat 2000).

Definition small_options : AnalyzerOptions := mkOptions 12 2.

Definition small_text : jsstring :=
  str "One two." ++ [LF; LF] ++ str "Three four. Five six seven eight nine.".

(** The scenario of the specification. *)
Definition scenario3 : jsstring :=
  str "Sure! Here is the JSON: {" ++ quoted "title" ++ str ":" ++ quoted "X"
  ++ str "} Hope that helps!".

Definition scenario3_json : jsstring :=
  str "{" ++ quoted "title" ++ str ":" ++ quoted "X" ++ str "}".

(** A single-quoted candidate with a double quote inside a key. *)
Definition single_quoted_candidate : jsstring :=
  str "{'a" ++ [DQUOTE] ++ str "b':1}".

(** A double quote before an empty object. *)
Definition quote_then_object : jsstring := DQUOTE :: str "{}".

(** Standard JSON but for a trailing comma. *)
Definition trailing_comma : jsstring :=
  str "{" ++ quoted "a" ++ str ":1,}".

End Inputs.

(** ** A scripted model client *)

Module Script.
Import JS Json Content DocAnalyzer.

(** A scripted model client: the outcomes of its calls, in order; once
    the script is over it returns the empty string. *)
Definition script := list Outcome.

Definition play (w : script) (systemPrompt userPrompt : jsstring)
    (options : QueryOptions unit) : Outcome * script :=
  match w with
  | outcome :: w' => (outcome, w')
  | [] => (Returned [], [])
  end.

(** The scripted client does not read its prompts, so the text of the
    results in the synthesis prompt is left empty. *)
Definition no_stringify (results : list JSON) : jsstring := [].

Definition start (w : script) : St unit script := mkSt w [].

Definition run (document : Document) (w : script) : Envelope * St unit script :=
  analyzeDocument play no_stringify document (str "comprehensive") tt (start w).

Definition short_doc : Document := DocString (str "short doc").

(** 4200 characters, hence two chunks. *)
Definition long_doc : Document :=
  DocString (List.concat (repeat (str "ab ") 1400)).

Definition titleX : jsstring :=
  str "{" ++ quoted "title" ++ str ":" ++ quoted "X" ++ str "}".

Definition network_down : Error := mkError (str "network down").

Definition object_titleX : JSON := JObject [(str "title", JString (str "X"))].

Definition meta_short : option Meta :=
  Some (mkMeta (str "comprehensive") 1 9 None).

Definition meta_long : option Meta :=
  Some (mkMeta (str "comprehensive") 2 4200 (Some (str "unknown"))).

End Script.

(** ** The shape of a cleaned text *)

Module TextShape.
Import JS Content.

(** A text is read from left to right by a scanner: a state, and a step
    that refuses a character by answering [None]. *)
Section Scan.
Variable State : Type.
Variable step : State -> N -> option State.

Fixpoint scan (st : State) (s : jsstring) : option State :=
  match s with
  | [] => Some st
  | c :: r =>
      match step st c with
      | Some st' => scan st' r
      | None => None
      end
  end.

Definition accepts (st : State) (s : jsstring) : bool :=
  match scan st s with Some _ => true | None => false end.
End Scan.
Arguments scan {State} step st s.
Arguments accepts {State} step st s.

(** Runs of characters of a class: the state is the length of the run
    that ends at the current position, and a character that would make
    it [n] is refused. *)
Definition run_step (in_class : N -> bool) (n : nat) (k : nat) (c : N)
  : option nat :=
  if in_class c then (if (S k <? n)%nat then Some (S k) else None)
  else Some 0%nat.

(** Every run of characters of the class has fewer than [n] characters. *)
Definition runs_below (in_class : N -> bool) (n : nat) (s : jsstring) : bool :=
  accepts (run_step in_class n) 0%nat s.

(** Repetitions of a character of a class: the state is the last
    character and the number of its copies that end at the current
    position, or [None] after a character outside the class. *)
Definition repeat_step (in_class : N -> bool) (n : nat)
    (cur : option (N * nat)) (c : N) : option (option (N * nat)) :=
  if in_class c then
    let k := match cur with
             | Some (d, k) => if (c =? d)%N then S k else 1%nat
             | None => 1%nat
             end in
    if (k <? n)%nat then Some (Some (c, k)) else None
  else Some None.

(** No character of the class comes [n] times or more in a row. *)
Definition repeats_below (in_class : N -> bool) (n : nat) (s : jsstring)
  : bool :=
  accepts (repeat_step in_class n) None s.

(** The run that [limit_repeats_from] holds back, as it stood in the
    text. *)
Definition pending (cur : option (N * nat)) : jsstring :=
  match cur with
  | Some (d, k) => repeat d k
  | None => []
  end.

Definition marker : jsstring := str " [REPEATED CHARS REMOVED] ".

Definition not_space (c : N) : bool := negb (is_space c).
Definition not_control (c : N) : bool := negb (is_control c).
Definition not_line_terminator (c : N) : bool := negb (is_line_terminator c).

(** The state of a scanner of repetitions before the run that
    [limit_repeats_from] holds back: it does not end with the character of
    that run. *)
Definition apart (st cur : option (N * nat)) : Prop :=
  match cur with
  | None => st = None
  | Some (d, k) =>
      (0 < k)%nat
      /\ match st with Some (d', _) => d' <> d | None => True end
  end.

(** Three scanners side by side: [k] counts white space, [cur] the copies
    of a character that is not white space, [cur2] the copies of a
    character that is not a line terminator. *)
Definition in_step (k : nat) (cur cur2 : option (N * nat)) : Prop :=
  (cur2 = cur
   /\ match cur with Some (d, _) => is_space d = false | None => True end)
  \/ (cur = None
      /\ exists d j, cur2 = Some (d, j) /\ is_space d = true /\ (j <= k)%nat).

(** What the four replacements of [_cleanTextContent] look for is absent:
    no control character, no hundred characters without white space, no
    character other than a line terminator twenty-one times in a row, no
    three white space characters in a row. *)
Definition tidy (s : jsstring) : Prop :=
  forallb not_control s = true
  /\ runs_below not_space 100 s = true
  /\ repeats_below not_line_terminator 21 s = true
  /\ runs_below is_space 3 s = true.

End TextShape.

(** ** The model service: its options, its two [query] and
    [processLongText] *)

Module Service.
Import JS Json DocAnalyzer.

(** A message of a chat request. *)
Record Message := mkMessage { msg_role : jsstring; msg_content : jsstring }.

(** The options object handed to [query] and to [processLongText]; a
    property that is absent is [None].  [responseFormat] holds the [type]
    of the object given. *)
Record ServiceOptions := mkServiceOptions {
  temperature : option NumLit;
  maxTokens : option Z;
  responseFormat : option jsstring;
  extraMessages : list Message;
  opt_chunkSize : option Z;
  opt_overlapSize : option Z;
  chunkPrompt : option jsstring;
  mergePrompt : option jsstring
}.

(** [{}] *)
Definition no_options : ServiceOptions :=
  mkServiceOptions None None None [] None None None None.

(** [{ responseFormat: { type: 'json_object' } }] *)
Definition json_object_options : ServiceOptions :=
  mkServiceOptions None None (Some (str "json_object")) [] None None None None.

(** [a || b], for a string, a count and a number. *)
Definition or_string (a : option jsstring) (b : jsstring) : jsstring :=
  match a with
  | Some s => if is_empty s then b else s
  | None => b
  end.

Definition or_count (a : option Z) (b : Z) : Z :=
  match a with
  | Some n => if n =? 0 then b else n
  | None => b
  end.

Definition or_number (a : option NumLit) (b : NumLit) : NumLit :=
  match a with
  | Some n => if num_is_zero n then b else n
  | None => b
  end.

(** The options of the constructor that the methods read later, and the
    fields it sets from them. *)
Record Config := mkConfig {
  cfg_model : option jsstring;
  cfg_maxTokens : option Z;
  cfg_temperature : option NumLit
}.

Record Instance := mkInstance {
  model : jsstring;
  this_maxTokens : Z;
  defaultTemperature : NumLit
}.

Definition constructor (options : Config) : Instance :=
  mkInstance (or_string (cfg_model options) (str "gpt-oss:20b"))
             (or_count (cfg_maxTokens options) 4000)
             (or_number (cfg_temperature options) (mkNum false 3 (-1))).

(** The request handed to [client.chat.completions.create]. *)
Record Request := mkRequest {
  req_model : jsstring;
  req_messages : list Message;
  req_max_tokens : Z;
  req_temperature : NumLit;
  req_response_format : option jsstring
}.

(** What the client throws: of its [message] and [error] properties the
    second is [None] when [null] or [undefined]. *)
Record ApiError := mkApiError {
  api_message : jsstring;
  api_error : option JSON
}.

(** The end of a request: a response whose first choice holds a message,
    with its content ([None] when [null] or absent); a response that has
    no first choice or no message in it; or an exception. *)
Inductive Completion :=
| Answered (content : option jsstring)
| Malformed
| Refused (e : ApiError).

(** What [query] resolves to: a bare string for the service of the later
    file, an object for the earlier one. *)
Inductive Reply :=
| Text (content : jsstring)
| Object (fields : list (jsstring * JSON)).

(** [result.k]: a string has none of the properties read. *)
Definition prop (k : string) (result : Reply) : option JSON :=
  match result with
  | Text _ => None
  | Object fields => lookup (str k) fields
  end.

Inductive Answer :=
| Resolved (result : Reply)
| Rejected (e : Error).

Definition system_message (systemPrompt : jsstring) : Message :=
  mkMessage (str "system") systemPrompt.

Definition user_message (userPrompt : jsstring) : Message :=
  mkMessage (str "user") userPrompt.

Section Client.
Variable World : Type.

(** [this.client.chat.completions.create] *)
Variable create : World -> Request -> Completion * World.

(** The [TypeError] thrown on reading the message of a response that
    has no first choice: its text is the engine's. *)
Variable malformed_message : jsstring.

Variable this : Instance.

(** *** [query] of the later file: the content, or the exception of the
    client thrown again *)
Definition query (w : World) (systemPrompt userPrompt : jsstring)
    (options : ServiceOptions) : Answer * World :=
  let messages := [system_message systemPrompt; user_message userPrompt] in
  let request :=
    mkRequest (model this) messages
      (or_count (maxTokens options) (this_maxTokens this))
      (or_number (temperature options) (defaultTemperature this))
      None in
  match create w request with
  | (Answered content, w') => (Resolved (Text (or_string content [])), w')
  | (Malformed, w') => (Resolved (Text []), w')
  | (Refused e, w') => (Rejected (mkError (api_message e)), w')
  end.

(** *** [query] of the earlier file: an object, whatever happens *)

Definition succeeded_with (data : JSON) : Reply :=
  Object [(str "success", JBool true); (str "data", data)].

Definition parsing_failed (content : jsstring) : Reply :=
  Object [(str "success", JBool false);
          (str "error", JString (str "JSON parsing failed"));
          (str "rawContent", JString content)].

(** [error.error?.message || error.error] *)
Definition details_of (e : ApiError) : option JSON :=
  match api_error e with
  | None => None
  | Some v => if truthy_opt (get (str "message") v)
              then get (str "message") v
              else Some v
  end.

(** The object of the [catch]; a [details] that is [undefined] is left
    out of the fields. *)
Definition request_failed (message : jsstring) (details : option JSON)
  : Reply :=
  Object ([(str "success", JBool false);
           (str "error", JString (or_string (Some message)
                                    (str "unknown error")))]
          ++ match details with
             | Some d => [(str "details", d)]
             | None => []
             end).

Definition content_value (content : option jsstring) : JSON :=
  match content with
  | Some s => JString s
  | None => JNull
  end.

Definition query_legacy (w : World) (systemPrompt userContent : jsstring)
    (options : ServiceOptions) : Answer * World :=
  let temperature :=
    match temperature options with
    | Some t => t
    | None => defaultTemperature this
    end in
  let maxTokens :=
    match maxTokens options with
    | Some m => m
    | None => this_maxTokens this
    end in
  let messages :=
    [system_message systemPrompt; user_message userContent]
    ++ extraMessages options in
  let request :=
    mkRequest (model this) messages maxTokens temperature
      (responseFormat options) in
  match create w request with
  | (Answered content, w') =>
      match responseFormat options with
      | Some type =>
          if jsstring_eqb type (str "json_object") then
            match content with
            | Some s =>
                match parse s with
                | Some data => (Resolved (succeeded_with data), w')
                | None => (Resolved (parsing_failed s), w')
                end
            | None => (Resolved (succeeded_with JNull), w')
            end
          else (Resolved (succeeded_with (content_value content)), w')
      | None => (Resolved (succeeded_with (content_value content)), w')
      end
  | (Malformed, w') => (Resolved (request_failed malformed_message None), w')
  | (Refused e, w') =>
      (Resolved (request_failed (api_message e) (details_of e)), w')
  end.

End Client.

End Service.

(** ** The callers of [query]: [processLongText], the two endpoints of the
    analyzer and the earlier [analyzeDocument] *)

Module Callers.
Import JS Json DocAnalyzer Service.

(** [array.join(separator)] on strings. *)
Fixpoint join (separator : jsstring) (items : list jsstring) : jsstring :=
  match items with
  | [] => []
  | [x] => x
  | x :: rest => x ++ separator ++ join separator rest
  end.

(** What [processLongText] returns: what [query] resolved to, the object
    [{ success: true, data }] of a single part ([None] is [undefined]), or
    the object of its [catch]. *)
Inductive Processed :=
| Passed (result : Reply)
| SinglePart (data : option JSON)
| ProcessFailed (error : jsstring).

(** What [extractEntities] returns. *)
Inductive Extraction :=
| Extracted (entities : option JSON) (entityTypes : list jsstring)
    (documentLength : Z)
| NotExtracted (error : jsstring).

(** [result.data.length / document.length], not computed. *)
Inductive Ratio :=
| Zero
| Quotient (numerator : option JSON) (denominator : Z).

(** What [summarizeDocument] returns. *)
Inductive Summary :=
| Summarized (summary : JSON) (originalLength : Z)
    (summaryLength : option JSON) (compressionRatio : Ratio)
| NotSummarized (error : jsstring).

(** The options of [summarizeDocument]. *)
Record SummaryOptions := mkSummaryOptions {
  maxLength : option nat;
  format : option jsstring
}.

(** What the earlier [_analyzeChunk] returns, and the envelope of the
    earlier [analyzeDocument]. *)
Record ChunkAnalysis := mkChunkAnalysis {
  ca_content : option JSON;
  ca_chunkSize : Z
}.

Inductive Analysis :=
| Analysed (data : option JSON) (chunkCount : nat) (documentLength : Z)
| NotAnalysed (error : jsstring).

Definition number (n : Z) : JSON := JNumber (mkNum false (Z.to_N n) 0).

(** [value.length]: [None] is [undefined]. *)
Definition length_of (value : JSON) : option JSON :=
  match value with
  | JString s => Some (number (len s))
  | JArray items => Some (number (Z.of_nat (List.length items)))
  | JObject fields => lookup (str "length") fields
  | _ => None
  end.

Section Calls.
Variable World : Type.

(** [this.llmService.query], or [this.query]: a function of the state of
    the service and of its three arguments. *)
Variable service_query :
  World -> jsstring -> jsstring -> ServiceOptions -> Answer * World.

(** The conversion of a value that is neither a string, [null] nor
    [undefined] to a string, as string concatenation, templates and
    [join] do it. *)
Variable to_string : JSON -> jsstring.

(** The rejection that settles first among those of a [Promise.all]:
    it depends on the timing of the responses. *)
Variable first_rejected : list Error -> Error.

(** The [TypeError] of reading [length] of [null] or of [undefined]
    ([None]): its text is the engine's. *)
Variable cannot_read_length : option JSON -> Error.

Local Abbreviation St := (St ServiceOptions World).
Local Abbreviation M := (M ServiceOptions World).
Local Abbreviation ret := (ret ServiceOptions World).
Local Abbreviation throw := (throw ServiceOptions World).
Local Abbreviation bind := (bind ServiceOptions World).
Local Abbreviation try_catch := (try_catch ServiceOptions World).
Notation "x <- m ;; k" := (bind m (fun x => k))
  (at level 61, m at next level, right associativity).

Definition query (systemPrompt userPrompt : jsstring)
    (options : ServiceOptions) : M Reply :=
  fun st =>
    let '(answer, w) :=
      service_query (world st) systemPrompt userPrompt options in
    let st' :=
      mkSt w (calls st ++ [mkCall systemPrompt userPrompt
                             (CallerOptions options)]) in
    match answer with
    | Resolved result => (Ret result, st')
    | Rejected e => (Throw e, st')
    end.

(** [`${value}`] *)
Definition template (value : option JSON) : jsstring :=
  match value with
  | None => str "undefined"
  | Some JNull => str "null"
  | Some (JString s) => s
  | Some v => to_string v
  end.

(** An element of an array under [join]. *)
Definition join_item (value : option JSON) : jsstring :=
  match value with
  | None | Some JNull => []
  | Some (JString s) => s
  | Some v => to_string v
  end.

(** ['...' + (value || fallback)] *)
Definition or_text (value : option JSON) (fallback : jsstring) : jsstring :=
  match value with
  | Some v =>
      if truthy v
      then match v with JString s => s | _ => to_string v end
      else fallback
  | None => fallback
  end.

(** *** [processLongText] *)

Definition part_prompt (systemPrompt : jsstring) (i total : nat) : jsstring :=
  systemPrompt ++ [LF; LF] ++ str "Note: This is part " ++ decimal (i + 1)
  ++ str " of the full text, out of a total of " ++ decimal total
  ++ str " parts.".

Definition part_failed (i : nat) (error : option JSON) : jsstring :=
  str "[Part " ++ decimal (i + 1) ++ str " processing failed: "
  ++ template error ++ str "]".

Definition merge_prompt (systemPrompt : jsstring) (total : nat) : jsstring :=
  systemPrompt ++ [LF; LF] ++ str "Below are the analysis results for "
  ++ decimal total
  ++ str " parts of the text; please merge them into a single complete response.".

Definition part_separator : jsstring :=
  [LF; LF] ++ str "==== next part ====" ++ [LF; LF].

(** [{ ...options, maxTokens: Math.min(2000, options.maxTokens || this.maxTokens) }] *)
Definition part_options (this : Instance) (options : ServiceOptions)
  : ServiceOptions :=
  mkServiceOptions (temperature options)
    (Some (Z.min 2000 (or_count (maxTokens options) (this_maxTokens this))))
    (responseFormat options) (extraMessages options)
    (opt_chunkSize options) (opt_overlapSize options)
    (chunkPrompt options) (mergePrompt options).

(** The body of the [for] loop, from part [i] on. *)
Fixpoint process_parts (this : Instance) (systemPrompt : jsstring)
    (options : ServiceOptions) (total i : nat) (chunks : list jsstring)
  : M (list (option JSON)) :=
  match chunks with
  | [] => ret []
  | chunk :: rest =>
      let currentChunkPrompt :=
        or_string (chunkPrompt options) (part_prompt systemPrompt i total) in
      result <- query currentChunkPrompt chunk (part_options this options) ;;
      let chunkResult :=
        if truthy_opt (prop "success" result)
        then prop "data" result
        else Some (JString (part_failed i (prop "error" result))) in
      chunkResults <- process_parts this systemPrompt options total (S i) rest ;;
      ret (chunkResult :: chunkResults)
  end.

(** [None] when the loop of [_splitTextIntoChunks] is still running after
    [fuel] iterations. *)
Definition processLongText (fuel : nat) (this : Instance)
    (systemPrompt longText : jsstring) (options : ServiceOptions) (st : St)
  : option (Res Processed * St) :=
  let chunkSize :=
    match opt_chunkSize options with Some n => n | None => 10000 end in
  let overlapSize :=
    match opt_overlapSize options with Some n => n | None => 500 end in
  let failed error :=
    ret (ProcessFailed (str "Process failed: " ++ message error)) in
  if len longText <=? chunkSize then
    Some (try_catch
            (result <- query systemPrompt longText options ;;
             ret (Passed result))
            failed st)
  else
    match LLMService._splitTextIntoChunks fuel longText chunkSize overlapSize
    with
    | None => None
    | Some chunks =>
        Some (try_catch
                (chunkResults <-
                   process_parts this systemPrompt options
                     (List.length chunks) 0 chunks ;;
                 if (List.length chunks =? 1)%nat
                 then ret (SinglePart (nth 0 chunkResults None))
                 else
                   let finalMergePrompt :=
                     or_string (mergePrompt options)
                       (merge_prompt systemPrompt (List.length chunks)) in
                   result <-
                     query finalMergePrompt
                       (join part_separator (map join_item chunkResults))
                       options ;;
                   ret (Passed result))
                failed st)
    end.

(** *** [extractEntities] *)

Definition entity_systemPrompt (entityTypes : list jsstring) : jsstring :=
  str "You are an expert entity extraction system. Extract all "
  ++ join (str ", ") entityTypes ++ str " entities from the text.".

Definition entity_userPrompt (document : jsstring)
    (entityTypes : list jsstring) : jsstring :=
  str "Extract all entities of these types: " ++ join (str ", ") entityTypes
  ++ str ". Format your response as a JSON object with entity types as keys and arrays of unique entities as values. Text: "
  ++ substring document 0 8000.

Definition default_entityTypes : list jsstring :=
  [str "person"; str "organization"; str "location"].

Definition extractEntities (document : jsstring)
    (entityTypes : list jsstring) : M Extraction :=
  try_catch
    (result <-
       query (entity_systemPrompt entityTypes)
         (entity_userPrompt document entityTypes) json_object_options ;;
     if negb (truthy_opt (prop "success" result))
     then throw (mkError (str "Entity extraction failed: "
                          ++ or_text (prop "error" result)
                               (str "Unknown error")))
     else ret (Extracted (prop "data" result) entityTypes (len document)))
    (fun error => ret (NotExtracted (message error))).

(** *** [summarizeDocument] *)

Definition summary_systemPrompt : jsstring :=
  str "You are an expert document summarizer.".

Definition summary_userPrompt (document : jsstring)
    (options : SummaryOptions) : jsstring :=
  str "Summarize the following document in "
  ++ match format options with Some f => f | None => str "paragraph" end
  ++ str " format. The summary should be no longer than "
  ++ decimal (match maxLength options with Some n => n | None => 500%nat end)
  ++ str " characters:" ++ [LF; LF] ++ substring document 0 8000.

Definition summarizeDocument (document : jsstring)
    (options : SummaryOptions) : M Summary :=
  try_catch
    (result <-
       query summary_systemPrompt (summary_userPrompt document options)
         no_options ;;
     if negb (truthy_opt (prop "success" result))
     then throw (mkError (str "Summarization failed: "
                          ++ or_text (prop "error" result)
                               (str "Unknown error")))
     else
       match prop "data" result with
       | None => throw (cannot_read_length None)
       | Some JNull => throw (cannot_read_length (Some JNull))
       | Some data =>
           ret (Summarized data (len document) (length_of data)
                  (if len document >? 0
                   then Quotient (length_of data) (len document)
                   else Zero))
       end)
    (fun error => ret (NotSummarized (message error))).

(** *** The earlier analyzer: [_analyzeChunk], [_combineResults] and
    [analyzeDocument] *)

Definition analyst_systemPrompt : jsstring :=
  str "You are an expert document analyst.".

Definition analyst_userPrompt (chunk : jsstring) : jsstring :=
  str "Analyze this document excerpt and extract key information including: main topics, key facts, and important entities."
  ++ [LF; LF] ++ chunk.

Definition _analyzeChunk (chunk : jsstring) : M ChunkAnalysis :=
  result <-
    query analyst_systemPrompt (analyst_userPrompt chunk) no_options ;;
  if negb (truthy_opt (prop "success" result))
  then throw (mkError (str "Chunk analysis failed: "
                       ++ or_text (prop "error" result)
                            (str "Unknown error")))
  else ret (mkChunkAnalysis (prop "data" result) (len chunk)).

Definition _combineResults (chunkResults : list ChunkAnalysis)
  : option JSON :=
  match chunkResults with
  | [r] => ca_content r
  | _ =>
      Some (JString (join [LF; LF]
                       (map (fun r => join_item (ca_content r))
                          chunkResults)))
  end.

(** [Promise.all(xs.map(f))]: every [f x] is started, in order; the
    results if none is rejected, else the rejection that settles first. *)
Fixpoint start_all {A B} (f : A -> M B) (xs : list A) (st : St)
  : list (Res B) * St :=
  match xs with
  | [] => ([], st)
  | x :: xs' =>
      let '(r, st1) := f x st in
      let '(rs, st2) := start_all f xs' st1 in
      (r :: rs, st2)
  end.

Fixpoint fulfilled {B} (rs : list (Res B)) : list B :=
  match rs with
  | [] => []
  | Ret b :: rs' => b :: fulfilled rs'
  | Throw _ :: rs' => fulfilled rs'
  end.

Fixpoint rejected {B} (rs : list (Res B)) : list Error :=
  match rs with
  | [] => []
  | Ret _ :: rs' => rejected rs'
  | Throw e :: rs' => e :: rejected rs'
  end.

Definition promise_all {A B} (f : A -> M B) (xs : list A) : M (list B) :=
  fun st =>
    let '(rs, st') := start_all f xs st in
    match rejected rs with
    | [] => (Ret (fulfilled rs), st')
    | [e] => (Throw e, st')
    | es => (Throw (first_rejected es), st')
    end.

(** [None] when the loop of [_splitIntoChunks] is still running after
    [fuel] iterations. *)
Definition analyzeDocument (fuel : nat) (options : AnalyzerOptions)
    (document : jsstring) (st : St) : option (Analysis * St) :=
  match LegacyDocAnalyzer._splitIntoChunks fuel options document with
  | None => None
  | Some chunks =>
      Some (match (chunkResults <- promise_all _analyzeChunk chunks ;;
                   ret (_combineResults chunkResults)) st with
            | (Ret combinedResults, st') =>
                (Analysed combinedResults (List.length chunks) (len document),
                 st')
            | (Throw error, st') => (NotAnalysed (message error), st')
            end)
  end.

End Calls.

Arguments query {World} service_query systemPrompt userPrompt options _.
Arguments process_parts {World} service_query to_string this systemPrompt
  options total i chunks _.
Arguments processLongText {World} service_query to_string fuel this
  systemPrompt longText options st.
Arguments extractEntities {World} service_query to_string
  document entityTypes _.
Arguments summarizeDocument {World} service_query to_string
  cannot_read_length document options _.
Arguments _analyzeChunk {World} service_query to_string chunk _.
Arguments start_all {World A B} f xs st.
Arguments promise_all {World} first_rejected {A B} f xs _.
Arguments analyzeDocument {World} service_query to_string first_rejected
  fuel options document st.

(** A scripted client: the completions of its requests, in order; once
    the script is over its responses are malformed. *)
Definition replay (w : list Completion) (request : Request)
  : Completion * list Completion :=
  match w with
  | completion :: w' => (completion, w')
  | [] => (Malformed, [])
  end.

(** A client that answers every request with the same text. *)
Definition echo (text : jsstring) (w : unit) (request : Request)
  : Completion * unit :=
  (Answered (Some text), tt).

Definition text_of_values (v : JSON) : jsstring := str "[object Object]".

Definition first_of (es : list Error) : Error :=
  match es with
  | e :: _ => e
  | [] => mkError []
  end.

End Callers.

(** ** The combiner of chunk results

    [_combineResults] and [_combineGeneralResults], the last two methods
    of the analyzer. *)

Module Combiner.
Import JS Json DocAnalyzer.

(** The iteration of a string yields its code points: a high surrogate
    followed by a low one is one of them, any other code unit is one
    alone. *)
Definition is_high_surrogate (c : N) : bool :=
  ((55296 <=? c) && (c <=? 56319))%N.

Definition is_low_surrogate (c : N) : bool :=
  ((56320 <=? c) && (c <=? 57343))%N.

Fixpoint code_points (s : jsstring) : list jsstring :=
  match s with
  | [] => []
  | c :: rest =>
      match rest with
      | d :: rest' =>
          if is_high_surrogate c && is_low_surrogate d
          then [c; d] :: code_points rest'
          else [c] :: code_points rest
      | [] => [[c]]
      end
  end.

(** The object [combined] of [_combineGeneralResults]. *)
Record Combined := mkCombined {
  insights : list JSON;
  topics : list JSON;
  analysis : jsstring
}.

Definition and_then {A B} (r : Res A) (k : A -> Res B) : Res B :=
  match r with
  | Ret a => k a
  | Throw e => Throw e
  end.

Definition no_insights : JSON :=
  JObject [(str "message",
            JString (str "Analysis completed but no specific insights were identified."))].

Definition object_of (combined : Combined) : JSON :=
  JObject [(str "insights", JArray (insights combined));
           (str "topics", JArray (topics combined));
           (str "analysis", JString (analysis combined))].

Section Combine.

(** The conversion of a value that is not a string to a string, as
    [+] does it. *)
Variable to_string : JSON -> jsstring.

(** The [TypeError] of reading the named property of [null], and that of
    spreading a value that is not iterable: their texts are the
    engine's. *)
Variable cannot_read : string -> Error.
Variable not_iterable : JSON -> Error.

(** [result.key]: [None] is [undefined]. *)
Definition read (key : string) (result : JSON) : Res (option JSON) :=
  match result with
  | JNull => Throw (cannot_read key)
  | _ => Ret (get (str key) result)
  end.

(** [...value] in an array literal. *)
Definition spread (value : JSON) : Res (list JSON) :=
  match value with
  | JArray items => Ret items
  | JString s => Ret (map JString (code_points s))
  | _ => Throw (not_iterable value)
  end.

(** The callback of [results.forEach]. *)
Definition add_result (combined : Combined) (result : JSON) : Res Combined :=
  and_then (read "insights" result) (fun result_insights =>
  and_then
    (match result_insights with
     | Some value =>
         if truthy value
         then and_then (spread value) (fun items =>
                Ret (mkCombined (insights combined ++ items)
                       (topics combined) (analysis combined)))
         else Ret combined
     | None => Ret combined
     end) (fun combined =>
  and_then (read "topics" result) (fun result_topics =>
  and_then
    (match result_topics with
     | Some value =>
         if truthy value
         then and_then (spread value) (fun items =>
                Ret (mkCombined (insights combined)
                       (topics combined ++ items) (analysis combined)))
         else Ret combined
     | None => Ret combined
     end) (fun combined =>
  and_then (read "analysis" result) (fun result_analysis =>
  match result_analysis with
  | Some value =>
      if truthy value
      then Ret (mkCombined (insights combined) (topics combined)
                  (analysis combined
                   ++ (match value with
                       | JString s => s
                       | _ => to_string value
                       end ++ str " ")))
      else Ret combined
  | None => Ret combined
  end))))).

Fixpoint forEach (combined : Combined) (results : list JSON) : Res Combined :=
  match results with
  | [] => Ret combined
  | result :: rest =>
      and_then (add_result combined result) (fun combined =>
        forEach combined rest)
  end.

Definition _combineGeneralResults (results : list JSON) : Res JSON :=
  and_then (forEach (mkCombined [] [] []) results) (fun combined =>
    if ((List.length (insights combined) =? 0)%nat
        && (List.length (topics combined) =? 0)%nat
        && is_empty (analysis combined))%bool
    then Ret no_insights
    else Ret (object_of combined)).

(** [chunkResults.filter(result => !result.error)] *)
Fixpoint validResults_of (chunkResults : list JSON) : Res (list JSON) :=
  match chunkResults with
  | [] => Ret []
  | result :: rest =>
      and_then (read "error" result) (fun error =>
      and_then (validResults_of rest) (fun valid =>
        Ret (if truthy_opt error then valid else result :: valid)))
  end.

(** [_combineEntityResults] and [_combineSummaryResults] are called here
    and defined nowhere.  An [analysisType] that is not a string is as
    one that is none of the three. *)
Definition _combineResults (chunkResults : list JSON)
    (analysisType : jsstring) : Res JSON :=
  and_then (validResults_of chunkResults) (fun validResults =>
    if (List.length validResults =? 0)%nat then Ret JNull
    else if jsstring_eqb analysisType (str "general")
    then _combineGeneralResults validResults
    else if jsstring_eqb analysisType (str "entity")
    then Throw (not_a_function "_combineEntityResults")
    else if jsstring_eqb analysisType (str "summary")
    then Throw (not_a_function "_combineSummaryResults")
    else _combineGeneralResults validResults).

End Combine.

(** *** What the chunk results hold *)

(** A result with a truthy [error]. *)
Definition failed (result : JSON) : bool :=
  truthy_opt (get (str "error") result).

Definition is_null (result : JSON) : bool :=
  match result with JNull => true | _ => false end.

(** A property that is absent or falsy, an array or a string. *)
Definition spreadable (value : option JSON) : bool :=
  match value with
  | None => true
  | Some (JArray _) | Some (JString _) => true
  | Some v => negb (truthy v)
  end.

Definition combinable (result : JSON) : bool :=
  spreadable (get (str "insights") result)
  && spreadable (get (str "topics") result).

(** The types whose combining method is defined nowhere. *)
Definition without_methods (analysisType : jsstring) : bool :=
  jsstring_eqb analysisType (str "entity")
  || jsstring_eqb analysisType (str "summary").

(** The elements that a property brings. *)
Definition items_of (key : string) (result : JSON) : list JSON :=
  match get (str key) result with
  | Some (JArray items) => items
  | Some (JString s) => map JString (code_points s)
  | _ => []
  end.

(** The text that the [analysis] of a result brings. *)
Definition text_of (to_string : JSON -> jsstring) (result : JSON) : jsstring :=
  match get (str "analysis") result with
  | Some (JString s) => if is_empty s then [] else s ++ str " "
  | Some v => if truthy v then to_string v ++ str " " else []
  | None => []
  end.

End Combiner.

(** ** Answers of the model *)

Module Answers.
Import JS DocAnalyzer.

(** An outcome of a call from which no chunk result can be made: blank
    text, or an exception with a message. *)
Definition unusable (outcome : Outcome) : Prop :=
  match outcome with
  | Returned response => forallb is_space response = true
  | Thrown e => message e <> []
  end.

End Answers.

(** ** Further inputs of the examples *)

Module Samples.
Import JS Json Content DocAnalyzer Service Callers.

(** A sentence end inside the first chunk of two characters. *)
Definition sentence : jsstring := str "ab. cd".

(** A quote-free candidate written with single quotes, and its value. *)
Definition single_quoted : jsstring := str " {'a':1} ".

Definition object_a1 : JSON :=
  JObject [(str "a", JNumber (mkNum false 1 0))].

(** Two texts that agree on their first thousand characters. *)
Definition thousand_then_text : jsstring :=
  repeat 97%N 1000 ++ str "xyz".

Definition thousand_then_controls : jsstring :=
  repeat 97%N 1000 ++ repeat 0%N 500.

(** A plain text with a signature among its first twenty characters. *)
Definition ibm_report : Document := DocString (str "IBM annual report").

(** A model client that answers every call with the empty string. *)
Definition silent (w : unit) (systemPrompt userPrompt : jsstring)
    (options : QueryOptions unit) : Outcome * unit :=
  (Returned [], tt).

(** The service of the later file over a client that always answers
    [ok]. *)
Definition ok_service : unit -> jsstring -> jsstring -> ServiceOptions
                        -> Answer * unit :=
  Service.query unit (echo (str "ok")) (constructor (mkConfig None None None)).

(** Chunks of two characters and no overlap. *)
Definition two_by_two : ServiceOptions :=
  mkServiceOptions None None None [] (Some 2) (Some 0) None None.

(** A text of 10001 characters. *)
Definition long_text : jsstring := repeat 65%N (Z.to_nat 10001).

(** Three chunk results, the second of them failed. *)
Definition three_results : list JSON :=
  [JObject [(str "insights", JArray [JString (str "a")]);
            (str "analysis", JString (str "x"))];
   JObject [(str "error", JString (str "boom"));
            (str "insights", JArray [JString (str "lost")])];
   JObject [(str "insights", JArray [JString (str "b")]);
            (str "topics", JArray [JString (str "t")])]].

(** Texts for the two [TypeError]s of the combiner. *)
Definition reading_of_null (key : string) : Error :=
  mkError (str "Cannot read properties of null (reading '" ++ str key
           ++ str "')").

Definition spreading (value : JSON) : Error :=
  mkError (str "value is not iterable").

End Samples.

(** ** The calls of the parts of a long text *)

Module Traces.
Import JS Json DocAnalyzer Service Callers.

(** The call that [processLongText] makes for part [i] of [total]. *)
Definition part_call (this : Instance) (systemPrompt : jsstring)
    (options : ServiceOptions) (total i : nat) (chunk : jsstring)
  : Call ServiceOptions :=
  mkCall (or_string (chunkPrompt options) (part_prompt systemPrompt i total))
    chunk (CallerOptions (part_options this options)).

(** The calls for the parts, numbered from [i], in their order. *)
Definition part_calls (this : Instance) (systemPrompt : jsstring)
    (options : ServiceOptions) (total i : nat) (chunks : list jsstring)
  : list (Call ServiceOptions) :=
  map (fun part => part_call this systemPrompt options total (fst part)
                     (snd part))
    (combine (seq i (List.length chunks)) chunks).

End Traces.

(** ** Spans cut at a given size *)

Module Spans.
Import JS.

(** The span [[start, end)] of chunk [k] when the chunks are cut every
    [size] characters. *)
Definition span_at (size : Z) (text : jsstring) (k : nat) : Z * Z :=
  (size * Z.of_nat k, Z.min (size * Z.of_nat k + size) (len text)).

End Spans.

(** * Properties *)

(** ** Searching in strings *)

Module JSFacts.
Import JS Spec.

Lemma starts_with_single c s :
  starts_with [c] s = true <-> nth_error s 0 = Some c.
Proof.
  destruct s as [|d s]; simpl.
  - split; discriminate.
  - rewrite andb_true_r, N.eqb_eq. split; congruence.
Qed.

Lemma occurs_at_single c s i :
  occurs_at [c] s i <-> nth_error s i = Some c.
Proof.
  unfold occurs_at. rewrite starts_with_single.
  rewrite nth_error_skipn, Nat.add_0_r. reflexivity.
Qed.

Lemma find_first_single_some c s i :
  find_first [c] s = Some i -> first_at c s i.
Proof.
  revert i. induction s as [|d s IH]; intros i H.
  - simpl in H. discriminate.
  - simpl in H. rewrite andb_true_r in H.
    destruct (N.eqb_spec c d) as [->|Hne].
    + injection H as <-. split; [reflexivity | intros k Hk; lia].
    + destruct (find_first [c] s) as [j|] eqn:E; [|discriminate].
      injection H as <-. destruct (IH j eq_refl) as [Hj Hlt].
      split; [exact Hj|].
      intros [|k] Hk; simpl; [congruence | apply Hlt; lia].
Qed.

Lemma find_first_single_none c s :
  find_first [c] s = None -> ~ In c s.
Proof.
  induction s as [|d s IH]; intros H; [intros []|].
  simpl in H. rewrite andb_true_r in H.
  destruct (N.eqb_spec c d) as [->|Hne]; [discriminate|].
  destruct (find_first [c] s) eqn:E; [discriminate|].
  intros [Hd|Hin]; [congruence | exact (IH eq_refl Hin)].
Qed.

Lemma first_at_unique c s i j : first_at c s i -> first_at c s j -> i = j.
Proof.
  intros [Hi Hli] [Hj Hlj].
  destruct (Nat.lt_trichotomy i j) as [H|[H|H]]; [|exact H|].
  - exfalso. exact (Hlj i H Hi).
  - exfalso. exact (Hli j H Hj).
Qed.

Lemma last_at_unique c s i j : last_at c s i -> last_at c s j -> i = j.
Proof.
  intros [Hi Hli] [Hj Hlj].
  destruct (Nat.lt_trichotomy i j) as [H|[H|H]]; [|exact H|].
  - exfalso. exact (Hli j H Hj).
  - exfalso. exact (Hlj i H Hi).
Qed.

(** [find_last_upto] answers the greatest occurrence up to [n]. *)
Lemma find_last_upto_spec pat s n :
  (find_last_upto pat s n = -1
   /\ forall i, (i <= n)%nat -> ~ occurs_at pat s i)
  \/ (0 <= find_last_upto pat s n <= Z.of_nat n
      /\ occurs_at pat s (Z.to_nat (find_last_upto pat s n))
      /\ forall i, (Z.to_nat (find_last_upto pat s n) < i <= n)%nat ->
                   ~ occurs_at pat s i).
Proof.
  induction n as [|n IH]; cbn [find_last_upto].
  - destruct (starts_with pat (skipn 0 s)) eqn:E.
    + right. split; [lia|]. split; [exact E|]. intros i Hi. lia.
    + left. split; [reflexivity|]. intros i Hi Ho.
      assert (i = 0)%nat by lia. subst i. unfold occurs_at in Ho. congruence.
  - destruct (starts_with pat (skipn (S n) s)) eqn:E.
    + right. split; [lia|]. rewrite Nat2Z.id. split; [exact E|].
      intros i Hi. lia.
    + destruct IH as [[Hr Hno]|[Hr [Ho Hno]]].
      * left. split; [exact Hr|]. intros i Hi Hoc.
        destruct (Nat.eq_dec i (S n)) as [->|Hne].
        -- unfold occurs_at in Hoc. congruence.
        -- apply (Hno i); [lia | exact Hoc].
      * right. split; [lia|]. split; [exact Ho|].
        intros i Hi Hoc.
        destruct (Nat.eq_dec i (S n)) as [->|Hne].
        -- unfold occurs_at in Hoc. congruence.
        -- apply (Hno i); [lia | exact Hoc].
Qed.

Lemma find_last_upto_le pat s n : find_last_upto pat s n <= Z.of_nat n.
Proof.
  pose proof (find_last_upto_spec pat s n) as H.
  destruct H as [[Hr _]|[Hr _]]; lia.
Qed.

Lemma find_last_upto_ge pat s n : -1 <= find_last_upto pat s n.
Proof.
  pose proof (find_last_upto_spec pat s n) as H.
  destruct H as [[Hr _]|[Hr _]]; lia.
Qed.

Lemma starts_with_length pat s :
  starts_with pat s = true -> (List.length pat <= List.length s)%nat.
Proof.
  revert s. induction pat as [|p pat IH]; intros s H; simpl; [lia|].
  destruct s as [|c s]; simpl in *; [discriminate|].
  apply andb_true_iff in H. destruct H as [_ H]. apply IH in H. lia.
Qed.

Lemma occurs_at_bound pat s i :
  occurs_at pat s i -> pat <> [] -> (i + List.length pat <= List.length s)%nat.
Proof.
  unfold occurs_at. intros H Hne. apply starts_with_length in H.
  rewrite length_skipn in H.
  destruct pat; [congruence|]. simpl in *. lia.
Qed.

(** [lastIndexOf_from] never answers beyond the text. *)
Lemma lastIndexOf_from_bounds s pat position :
  -1 <= lastIndexOf_from s pat position
  /\ lastIndexOf_from s pat position <= Z.max (-1) (len s - len pat).
Proof.
  unfold lastIndexOf_from.
  destruct (Z.ltb_spec (len s) (len pat)); [lia|].
  pose proof (find_last_upto_le pat s
    (Z.to_nat (Z.min (Z.max position 0) (len s - len pat)))).
  pose proof (find_last_upto_ge pat s
    (Z.to_nat (Z.min (Z.max position 0) (len s - len pat)))).
  lia.
Qed.

(** For a position inside the text, [lastIndexOf_from] is the nearest
    preceding occurrence. *)
Lemma lastIndexOf_from_nearest s pat position :
  pat <> [] -> 0 <= position ->
  nearest_preceding pat s position (lastIndexOf_from s pat position).
Proof.
  intros Hne Hpos. unfold lastIndexOf_from, nearest_preceding.
  destruct (Z.ltb_spec (len s) (len pat)) as [Hshort|Hlong].
  - left. split; [reflexivity|]. intros i _ Ho.
    apply occurs_at_bound in Ho; [|exact Hne]. unfold len in Hshort. lia.
  - set (n := Z.to_nat (Z.min (Z.max position 0) (len s - len pat))).
    pose proof (find_last_upto_spec pat s n) as H.
    assert (Hn : Z.of_nat n = Z.min position (len s - len pat)) by (unfold n; lia).
    destruct H as [[Hr Hno]|[Hr [Ho Hno]]].
    + left. split; [exact Hr|]. intros i Hi Hoc.
      pose proof (occurs_at_bound _ _ _ Hoc Hne) as Hb.
      apply (Hno i); [unfold len in *; lia | exact Hoc].
    + right. split; [lia|]. split; [exact Ho|].
      intros i Hi Hoc.
      pose proof (occurs_at_bound _ _ _ Hoc Hne) as Hb.
      apply (Hno i); [unfold len in *; lia | exact Hoc].
Qed.

Lemma lastIndexOf_single_some c s j :
  lastIndexOf s [c] = Z.of_nat j -> last_at c s j.
Proof.
  unfold lastIndexOf, lastIndexOf_from. intros H.
  destruct (Z.ltb_spec (len s) (len [c])) as [Hs|Hs]; [lia|].
  set (n := Z.to_nat (Z.min (Z.max (len s) 0) (len s - len [c]))) in H.
  pose proof (find_last_upto_spec [c] s n) as Hsp.
  rewrite H in Hsp. destruct Hsp as [[Hr _]|[Hr [Ho Hno]]]; [lia|].
  rewrite Nat2Z.id in *. split; [apply occurs_at_single; exact Ho|].
  intros k Hk Hnth.
  assert (Hkl : (k < List.length s)%nat) by (apply nth_error_Some; congruence).
  apply (Hno k); [|apply occurs_at_single; exact Hnth].
  unfold n, len in *. simpl in *. lia.
Qed.

Lemma lastIndexOf_single_none c s :
  lastIndexOf s [c] = -1 -> ~ In c s.
Proof.
  unfold lastIndexOf, lastIndexOf_from. intros H Hin.
  apply In_nth_error in Hin. destruct Hin as [k Hk].
  assert (Hkl : (k < List.length s)%nat) by (apply nth_error_Some; congruence).
  destruct (Z.ltb_spec (len s) (len [c])) as [Hs|Hs];
    [unfold len in Hs; simpl in Hs; lia|].
  set (n := Z.to_nat (Z.min (Z.max (len s) 0) (len s - len [c]))) in H.
  pose proof (find_last_upto_spec [c] s n) as Hsp.
  rewrite H in Hsp. destruct Hsp as [[_ Hno]|[Hr _]]; [|lia].
  apply (Hno k); [|apply occurs_at_single; exact Hk].
  unfold n, len in *. simpl in *. lia.
Qed.

Lemma lastIndexOf_ge s pat : -1 <= lastIndexOf s pat.
Proof. apply lastIndexOf_from_bounds. Qed.

(** [substring] between two positions of the text, in order. *)
Lemma substring_cut s (a b : nat) :
  (a <= b <= List.length s)%nat ->
  substring s (Z.of_nat a) (Z.of_nat b) = firstn (b - a) (skipn a s).
Proof.
  intros H. unfold substring, clamp, cut, len.
  replace (Z.to_nat (Z.min (Z.max (Z.of_nat a) 0) (Z.of_nat (List.length s)))) with a by lia.
  replace (Z.to_nat (Z.min (Z.max (Z.of_nat b) 0) (Z.of_nat (List.length s)))) with b by lia.
  rewrite Nat.min_l, Nat.max_r by lia. reflexivity.
Qed.

End JSFacts.

(** ** The extractor *)

Module ExtractFacts.
Import JS Json Spec Repair Inputs JSFacts.

Lemma indexOf_first_at c s i : first_at c s i -> indexOf s [c] = Z.of_nat i.
Proof.
  intros Hf. unfold indexOf.
  destruct (find_first [c] s) as [k|] eqn:E.
  - apply find_first_single_some in E.
    rewrite (first_at_unique _ _ _ _ E Hf). reflexivity.
  - apply find_first_single_none in E. destruct Hf as [Hn _].
    apply nth_error_In in Hn. contradiction.
Qed.

Lemma indexOf_absent c s : ~ In c s -> indexOf s [c] = -1.
Proof.
  intros Hn. unfold indexOf.
  destruct (find_first [c] s) as [k|] eqn:E; [|reflexivity].
  apply find_first_single_some in E. destruct E as [E _].
  apply nth_error_In in E. contradiction.
Qed.

Lemma lastIndexOf_cases c s :
  (lastIndexOf s [c] = -1 /\ ~ In c s)
  \/ exists j, lastIndexOf s [c] = Z.of_nat j /\ last_at c s j.
Proof.
  pose proof (lastIndexOf_ge s [c]) as Hge.
  destruct (Z.eq_dec (lastIndexOf s [c]) (-1)) as [E|E].
  - left. split; [exact E | apply lastIndexOf_single_none; exact E].
  - right. exists (Z.to_nat (lastIndexOf s [c])).
    assert (H : lastIndexOf s [c] = Z.of_nat (Z.to_nat (lastIndexOf s [c]))) by lia.
    split; [exact H | apply lastIndexOf_single_some; exact H].
Qed.

Lemma lastIndexOf_last_at c s j : last_at c s j -> lastIndexOf s [c] = Z.of_nat j.
Proof.
  intros Hl. destruct (lastIndexOf_cases c s) as [[_ Hn]|[k [Hk Hlk]]].
  - destruct Hl as [Hl _]. apply nth_error_In in Hl. contradiction.
  - rewrite Hk, (last_at_unique _ _ _ _ Hlk Hl). reflexivity.
Qed.

Lemma lastIndexOf_absent c s : ~ In c s -> lastIndexOf s [c] = -1.
Proof.
  intros Hn. destruct (lastIndexOf_cases c s) as [[E _]|[k [_ [Hk _]]]];
    [exact E|]. apply nth_error_In in Hk. contradiction.
Qed.

(** C8. [extract] returns the text from the first opening brace to the
    last closing brace, both included, when both occur and the first
    precedes the last, and [null] otherwise; on the scenario of the
    specification it returns the JSON text of the object with the single
    field [title], which [JSON.parse] turns into that object. *)
Theorem C8_extract_outer_braces :
  (forall text i j,
      first_at LBRACE text i -> last_at RBRACE text j -> (i < j)%nat ->
      _extractJsonFromText text = Some (inclusive text i j))
  /\ (forall text,
        ~ In LBRACE text \/ ~ In RBRACE text
        \/ (exists i j, first_at LBRACE text i /\ last_at RBRACE text j
                        /\ (j <= i)%nat) ->
        _extractJsonFromText text = None)
  /\ _extractJsonFromText scenario3 = Some scenario3_json
  /\ parse scenario3_json = Some (JObject [(str "title", JString (str "X"))]).
Proof.
  split; [|split; [|split]].
  - intros text i j Hi Hj Hij. unfold _extractJsonFromText.
    assert (Hjl : (j < List.length text)%nat).
    { destruct Hj as [Hj _]. apply nth_error_Some. congruence. }
    destruct text as [|c text]; [simpl in Hjl; lia|]. cbn [is_empty].
    rewrite (indexOf_first_at _ _ _ Hi), (lastIndexOf_last_at _ _ _ Hj).
    replace (Z.of_nat i >=? 0) with true by (symmetry; apply Z.geb_le; lia).
    replace (Z.of_nat j >? Z.of_nat i) with true
      by (symmetry; apply Z.gtb_lt; lia).
    cbn [andb]. replace (Z.of_nat j + 1) with (Z.of_nat (j + 1)) by lia.
    rewrite substring_cut by lia. unfold inclusive.
    replace (j + 1 - i)%nat with (j - i + 1)%nat by lia. reflexivity.
  - intros text H. unfold _extractJsonFromText.
    destruct (is_empty text); [reflexivity|].
    destruct H as [H|[H|[i [j [Hi [Hj Hij]]]]]].
    + rewrite (indexOf_absent _ _ H). reflexivity.
    + rewrite (lastIndexOf_absent _ _ H).
      destruct (indexOf text [LBRACE] >=? 0) eqn:E; [|reflexivity].
      apply Z.geb_le in E.
      replace (-1 >? indexOf text [LBRACE]) with false; [reflexivity|].
      symmetry. rewrite Z.gtb_ltb. apply Z.ltb_ge. lia.
    + rewrite (indexOf_first_at _ _ _ Hi), (lastIndexOf_last_at _ _ _ Hj).
      replace (Z.of_nat j >? Z.of_nat i) with false.
      * rewrite andb_false_r. reflexivity.
      * symmetry. rewrite Z.gtb_ltb. apply Z.ltb_ge. lia.
  - vm_compute. reflexivity.
  - vm_compute. reflexivity.
Qed.

Lemma C8_extract_outer_braces_witness :
  first_at LBRACE (str "a{b}c}") 1 /\ last_at RBRACE (str "a{b}c}") 5
  /\ _extractJsonFromText (str "a{b}c}") = Some (str "{b}c}")
  /\ _extractJsonFromText (str "}{") = None.
Proof.
  assert (Hf : first_at LBRACE (str "a{b}c}") 1).
  { split; [reflexivity|]. intros [|k] Hk; [intros E; vm_compute in E; discriminate E | lia]. }
  assert (Hl : last_at RBRACE (str "a{b}c}") 5).
  { split; [reflexivity|].
    intros k Hk. do 6 (destruct k as [|k]; [lia|]). intros E; destruct k; discriminate E. }
  split; [exact Hf|]. split; [exact Hl|]. split.
  - exact (proj1 C8_extract_outer_braces _ 1%nat 5%nat Hf Hl ltac:(lia)).
  - apply (proj1 (proj2 C8_extract_outer_braces)).
    right. right. exists 1%nat, 0%nat. split; [|split; [|lia]].
    + split; [reflexivity|]. intros [|k] Hk; [intros E; vm_compute in E; discriminate E | lia].
    + split; [reflexivity|]. intros [|[|k]] Hk; [lia | intros E; vm_compute in E; discriminate E | intros E; destruct k; discriminate E].
Defined.

End ExtractFacts.

(** ** The fixed-size chunker *)

Module ChunkerFacts.
Import JS Spec Chunker JSFacts.

Lemma slice_inside s a b :
  0 <= a -> 0 <= b ->
  slice s a b = cut s (Z.to_nat (Z.min a (len s))) (Z.to_nat (Z.min b (len s))).
Proof.
  intros Ha Hb. unfold slice, slice_pos.
  destruct (Z.ltb_spec a 0); [lia|]. destruct (Z.ltb_spec b 0); [lia|].
  reflexivity.
Qed.

Lemma substring_inside s a b :
  0 <= a <= b ->
  substring s a b = cut s (Z.to_nat (Z.min a (len s))) (Z.to_nat (Z.min b (len s))).
Proof.
  intros H. unfold substring, clamp.
  rewrite !Z.max_l by lia.
  rewrite Nat.min_l, Nat.max_r by lia. reflexivity.
Qed.

Lemma slice_substring s a b : 0 <= a <= b -> slice s a b = substring s a b.
Proof.
  intros H. rewrite slice_inside, substring_inside by lia. reflexivity.
Qed.

(** The loop of the fixed-size chunker, given enough fuel: chunk [j] is
    the slice at [i + chunkSize * j], and the chunks stop exactly when the
    text is exhausted. *)
Lemma _splitIntoChunks_loop_spec fuel : forall text i,
  0 <= i -> len text - i <= Z.of_nat fuel ->
  let chunks := _splitIntoChunks_loop fuel text i in
  (forall j, (j < List.length chunks)%nat ->
     nth j chunks [] = slice text (i + chunkSize * Z.of_nat j)
                         (i + chunkSize * Z.of_nat j + chunkSize))
  /\ len text <= i + chunkSize * Z.of_nat (List.length chunks)
  /\ (forall j, (j < List.length chunks)%nat ->
        i + chunkSize * Z.of_nat j < len text).
Proof.
  induction fuel as [|fuel IH]; intros text i Hi Hf;
    cbn [_splitIntoChunks_loop]; cbv zeta.
  - cbn [List.length]. split; [intros j Hj; simpl in Hj; lia|].
    unfold chunkSize. split; [lia | intros j Hj; simpl in Hj; lia].
  - destruct (Z.ltb_spec i (len text)) as [Hlt|Hge].
    + specialize (IH text (i + chunkSize)).
      cbv zeta in IH. unfold chunkSize in *.
      destruct (IH ltac:(lia) ltac:(lia)) as [IHn [IHl IHb]].
      cbn [List.length]. split; [|split].
      * intros [|j] Hj.
        -- cbn [nth]. f_equal; lia.
        -- cbn [nth]. rewrite IHn by lia. f_equal; lia.
      * lia.
      * intros [|j] Hj; [lia|]. specialize (IHb j ltac:(lia)). lia.
    + cbn [List.length]. unfold chunkSize.
      split; [intros j Hj; lia|]. split; [lia | intros j Hj; lia].
Qed.

Lemma list_as_map_seq {A} (l : list A) (d : A) (f : nat -> A) :
  (forall j, (j < List.length l)%nat -> nth j l d = f j) ->
  l = map f (seq 0 (List.length l)).
Proof.
  intros H. apply nth_ext with (d := d) (d' := f 0%nat).
  - rewrite length_map, length_seq. reflexivity.
  - intros j Hj. rewrite (H j Hj).
    rewrite (map_nth f (seq 0 (List.length l)) 0%nat j).
    rewrite seq_nth by exact Hj. reflexivity.
Qed.

Lemma chained_spans text n : forall k,
  (forall j, (k <= j < k + n)%nat -> chunkSize * Z.of_nat j < len text) ->
  (0 < k)%nat ->
  chained (fst (span_of text (k - 1))) (snd (span_of text (k - 1)))
          (map (span_of text) (seq k n)).
Proof.
  induction n as [|n IH]; intros k Hb Hk; cbn [seq map chained]; [exact I|].
  unfold span_of at 3. unfold span_of at 1 2. cbn [fst snd].
  pose proof (Hb k ltac:(lia)) as Hbk. unfold chunkSize in *.
  split; [lia|]. split; [lia|].
  specialize (IH (S k)).
  replace (S k - 1)%nat with k in IH by lia.
  unfold span_of in IH at 1 2. cbn [fst snd] in IH. unfold chunkSize in IH.
  apply IH; [|lia]. intros j Hj. apply Hb. lia.
Qed.

(** The spans of the chunks returned by [_splitIntoChunks] (the
    definition in force) are [span_of text 0], [span_of text 1], ...: each
    chunk is the text of its span, a position lies in a span exactly when
    it is a position of the text, the spans start at [0] with increasing
    starts and no gap, and none reaches beyond the text.  The chunker takes
    no configuration, so this holds for whatever [maxChunkSize] and
    [overlapSize] the analyzer was given. *)
Lemma fixed_chunker_spans_cover (text : jsstring) :
  let chunks := _splitIntoChunks text in
  let spans := map (span_of text) (seq 0 (List.length chunks)) in
  chunks = map (fun se => substring text (fst se) (snd se)) spans
  /\ (forall p, covered spans p <-> 0 <= p < len text)
  /\ contiguous spans
  /\ (forall s e, In (s, e) spans -> 0 <= s < e /\ e <= len text).
Proof.
  cbv zeta.
  assert (Hspec :
    (forall j, (j < List.length (_splitIntoChunks text))%nat ->
       nth j (_splitIntoChunks text) [] =
       slice text (chunkSize * Z.of_nat j) (chunkSize * Z.of_nat j + chunkSize))
    /\ len text <= chunkSize * Z.of_nat (List.length (_splitIntoChunks text))
    /\ (forall j, (j < List.length (_splitIntoChunks text))%nat ->
          chunkSize * Z.of_nat j < len text)).
  { unfold _splitIntoChunks. destruct text as [|c text].
    - cbn. split; [intros j Hj; lia|]. split; [lia | intros j Hj; lia].
    - cbn [is_empty].
      pose proof (_splitIntoChunks_loop_spec (List.length (c :: text))
                    (c :: text) 0 ltac:(lia) ltac:(unfold len; lia)) as H.
      cbv zeta in H. exact H. }
  destruct Hspec as [Hnth [Hlen Hlt]].
  set (chunks := _splitIntoChunks text) in *.
  assert (Hin : forall s e,
    In (s, e) (map (span_of text) (seq 0 (List.length chunks))) ->
    exists k, (k < List.length chunks)%nat /\ (s, e) = span_of text k).
  { intros s e H. apply in_map_iff in H. destruct H as [k [Hk Hs]].
    apply in_seq in Hs. exists k. split; [lia | congruence]. }
  split; [|split; [|split]].
  - rewrite map_map.
    rewrite (list_as_map_seq chunks [] _ Hnth) at 1.
    apply map_ext_in. intros j Hj. apply in_seq in Hj.
    unfold span_of. cbn [fst snd].
    pose proof (Hlt j ltac:(lia)). unfold chunkSize in *.
    rewrite slice_inside, substring_inside by lia.
    f_equal. lia.
  - intros p. split.
    + intros [s [e [H Hp]]]. destruct (Hin s e H) as [k [Hk Hse]].
      pose proof (f_equal fst Hse) as Hs. pose proof (f_equal snd Hse) as He.
      unfold span_of in Hs, He. cbn [fst snd] in Hs, He.
      unfold chunkSize in *. lia.
    + intros Hp. unfold chunkSize in *.
      assert (Hk : (Z.to_nat (p / 4000) < List.length chunks)%nat).
      { pose proof (Z.div_mod p 4000 ltac:(lia)).
        pose proof (Z.mod_pos_bound p 4000 ltac:(lia)).
        assert (0 <= p / 4000) by (apply Z.div_pos; lia). nia. }
      exists (fst (span_of text (Z.to_nat (p / 4000)))),
             (snd (span_of text (Z.to_nat (p / 4000)))).
      split.
      * rewrite <- surjective_pairing. apply in_map. apply in_seq. lia.
      * unfold span_of, chunkSize. cbn [fst snd].
        pose proof (Z.div_mod p 4000 ltac:(lia)).
        pose proof (Z.mod_pos_bound p 4000 ltac:(lia)).
        assert (0 <= p / 4000) by (apply Z.div_pos; lia). lia.
  - destruct (List.length chunks) as [|n] eqn:En; [exact I|].
    cbn [seq map contiguous]. unfold span_of at 1 2.
    pose proof (Hlt 0%nat ltac:(lia)) as H0. unfold chunkSize in *.
    split; [lia|]. split; [lia|].
    pose proof (chained_spans text n 1) as Hc.
    replace (1 - 1)%nat with 0%nat in Hc by lia.
    unfold span_of in Hc at 1 2. cbn [fst snd] in Hc. unfold chunkSize in Hc.
    apply Hc; [|lia]. intros j Hj. apply (Hlt j). lia.
  - intros s e H. destruct (Hin s e H) as [k [Hk Hse]].
    pose proof (f_equal fst Hse) as Hs. pose proof (f_equal snd Hse) as He.
    unfold span_of in Hs, He. cbn [fst snd] in Hs, He.
    pose proof (Hlt k Hk). unfold chunkSize in *. lia.
Qed.

End ChunkerFacts.

(** ** The loops that do not end *)

Module DivergenceFacts.
Import JS Spec JSFacts Inputs.

(** With a positive overlap the loop of [_splitTextIntoChunks] never
    leaves the text: the start stays below its length. *)
Lemma LLMService_loop_diverges fuel :
  forall text chunkSize overlapSize startIndex chunks,
    0 < overlapSize -> startIndex < len text ->
    LLMService._splitTextIntoChunks_loop fuel text chunkSize overlapSize
      startIndex chunks = None.
Proof.
  induction fuel as [|fuel IH]; intros text chunkSize overlapSize startIndex
    chunks Hov Hst; cbn [LLMService._splitTextIntoChunks_loop]; [reflexivity|].
  destruct (Z.ltb_spec startIndex (len text)) as [_|H]; [|lia].
  apply IH; [exact Hov|].
  pose proof (lastIndexOf_from_bounds text [LF; LF]
                (Z.min (startIndex + chunkSize) (len text))) as Hp.
  pose proof (lastIndexOf_from_bounds text [DOT; SPACE]
                (Z.min (startIndex + chunkSize) (len text))) as Hs.
  unfold len in *. cbn [List.length] in Hp, Hs.
  destruct (Z.min (startIndex + chunkSize) (Z.of_nat (List.length text))
            <? Z.of_nat (List.length text)).
  - destruct (_ >? startIndex).
    + lia.
    + destruct (_ >? startIndex); lia.
  - lia.
Qed.

(** With [0 < overlapSize < maxChunkSize] the loop of the legacy
    [_splitIntoChunks] never ends on a document longer than a chunk. *)
Lemma Legacy_loop_diverges fuel :
  forall options document position chunks,
    0 < overlapSize options < maxChunkSize options ->
    maxChunkSize options < len document ->
    0 <= position < len document ->
    LegacyDocAnalyzer._splitIntoChunks_loop fuel options document position
      chunks = None.
Proof.
  induction fuel as [|fuel IH]; intros options document position chunks
    Hov Hmax Hpos; cbn [LegacyDocAnalyzer._splitIntoChunks_loop];
    [reflexivity|].
  destruct (Z.ltb_spec position (len document)) as [_|H]; [|lia].
  destruct (Z.leb_spec
              (Z.min (position + maxChunkSize options) (len document)
               - overlapSize options) 0) as [H|H]; [lia|].
  destruct (Z.leb_spec (maxChunkSize options) (overlapSize options)) as [H'|H'];
    [lia|].
  cbn [orb]. apply IH; [exact Hov | exact Hmax | lia].
Qed.

Lemma Legacy_diverges fuel options document :
  0 < overlapSize options < maxChunkSize options ->
  maxChunkSize options < len document ->
  LegacyDocAnalyzer._splitIntoChunks fuel options document = None.
Proof.
  intros Hov Hmax. unfold LegacyDocAnalyzer._splitIntoChunks.
  destruct (Z.leb_spec (len document) (maxChunkSize options)); [lia|].
  apply Legacy_loop_diverges; [exact Hov | exact Hmax | lia].
Qed.

(** On [two_paragraphs] with chunks of 4 and an overlap of 3 the first
    definition of the later analyzer cuts at the paragraph break, 2, and
    starts again at [max 0 (2 - 3) = 0]. *)
Lemma shadowed_loop_stuck fuel : forall chunks,
  Chunker._splitIntoChunks_shadowed_loop fuel (mkOptions 4 3) two_paragraphs 0
    chunks = None.
Proof.
  induction fuel as [|fuel IH]; intros chunks; [reflexivity|].
  change (Chunker._splitIntoChunks_shadowed_loop (S fuel) (mkOptions 4 3)
            two_paragraphs 0 chunks)
    with (Chunker._splitIntoChunks_shadowed_loop fuel (mkOptions 4 3)
            two_paragraphs 0 (chunks ++ [str "ab"])).
  apply IH.
Qed.

(** C3. The chunkers do not terminate on every valid configuration: no
    amount of fuel lets them return on these inputs, each with
    [0 < overlapSize < maxChunkSize] and a non-empty text.
    [_splitTextIntoChunks] loops on the text of its own test,
    the legacy [_splitIntoChunks] on the large document of its own test
    under the default options, and the first [_splitIntoChunks] of the
    later analyzer on a text with an early paragraph break. *)
Theorem C3_chunkers_do_not_terminate :
  (forall fuel, LLMService._splitTextIntoChunks fuel paragraphs 25 5 = None)
  /\ (forall fuel,
        LegacyDocAnalyzer._splitIntoChunks fuel defaultOptions largeDocument
        = None)
  /\ (forall fuel,
        Chunker._splitIntoChunks_shadowed fuel (mkOptions 4 3) two_paragraphs
        = None).
Proof.
  split; [|split].
  - intros fuel. apply LLMService_loop_diverges; [lia | vm_compute; reflexivity].
  - intros fuel. apply Legacy_diverges.
    + cbn. lia.
    + unfold largeDocument, len. rewrite repeat_length. cbn. lia.
  - intros fuel. apply shadowed_loop_stuck.
Qed.

End DivergenceFacts.

(** ** The boundary-seeking chunker *)

Module CutFacts.
Import JS Spec Chunker JSFacts Inputs.

Lemma refused_accepted options start c :
  refused options start (start + maxChunkSize options) c = false
  <-> accepted options start c.
Proof.
  unfold refused, accepted. rewrite orb_false_iff, Z.leb_gt, Z.ltb_ge. lia.
Qed.

Lemma refused_not_accepted options start c :
  refused options start (start + maxChunkSize options) c = true
  <-> ~ accepted options start c.
Proof.
  rewrite <- refused_accepted.
  destruct (refused options start (start + maxChunkSize options) c);
    split; congruence.
Qed.

Lemma nearest_preceding_unique pat s hard c c' :
  nearest_preceding pat s hard c -> nearest_preceding pat s hard c' -> c = c'.
Proof.
  intros [[-> Hn]|[Hc [Ho Hn]]] [[-> Hn']|[Hc' [Ho' Hn']]].
  - reflexivity.
  - exfalso. apply (Hn (Z.to_nat c')); [lia | exact Ho'].
  - exfalso. apply (Hn' (Z.to_nat c)); [lia | exact Ho].
  - destruct (Z.lt_trichotomy c c') as [H|[H|H]]; [|exact H|].
    + exfalso. apply (Hn (Z.to_nat c')); [lia | exact Ho'].
    + exfalso. apply (Hn' (Z.to_nat c)); [lia | exact Ho].
Qed.

(** The rule of the specification names one cut. *)
Lemma preferred_cut_unique options text start cut cut' :
  preferred_cut options text start cut ->
  preferred_cut options text start cut' -> cut = cut'.
Proof.
  intros [p [s [Hp [Hs H]]]] [p' [s' [Hp' [Hs' H']]]].
  rewrite (nearest_preceding_unique _ _ _ _ _ Hp' Hp) in H'.
  rewrite (nearest_preceding_unique _ _ _ _ _ Hs' Hs) in H'.
  destruct H as [[Ha ->]|[[Hna [Ha ->]]|[Hna [Hns ->]]]];
    destruct H' as [[Ha' ->]|[[Hna' [Ha' ->]]|[Hna' [Hns' ->]]]];
    try reflexivity; contradiction.
Qed.

(** The break computed by the first definition is the preferred cut. *)
Lemma splitPos_of_preferred options text startPos :
  0 < maxChunkSize options -> 0 <= startPos ->
  preferred_cut options text startPos (splitPos_of options text startPos).
Proof.
  intros Hmax Hstart. unfold preferred_cut, splitPos_of. cbv zeta.
  exists (lastIndexOf_from text [LF; LF] (startPos + maxChunkSize options)),
         (lastIndexOf_from text [DOT; SPACE] (startPos + maxChunkSize options)).
  split; [apply lastIndexOf_from_nearest; [discriminate | lia]|].
  split; [apply lastIndexOf_from_nearest; [discriminate | lia]|].
  destruct (refused options startPos (startPos + maxChunkSize options)
              (lastIndexOf_from text [LF; LF] (startPos + maxChunkSize options)))
    eqn:Ep.
  - apply refused_not_accepted in Ep.
    destruct (refused options startPos (startPos + maxChunkSize options)
                (lastIndexOf_from text [DOT; SPACE]
                   (startPos + maxChunkSize options))) eqn:Es.
    + apply refused_not_accepted in Es. right. right. auto.
    + apply refused_accepted in Es. right. left. auto.
  - rewrite Ep. apply refused_accepted in Ep. left. auto.
Qed.

(** What the loop of the first definition returns, when it returns, is
    built by the rule of the specification. *)
Lemma shadowed_loop_chunks fuel :
  forall options text startPos acc out,
    0 < maxChunkSize options -> 0 <= startPos ->
    _splitIntoChunks_shadowed_loop fuel options text startPos acc = Some out ->
    exists rest, out = acc ++ rest /\ chunks_from options text startPos rest.
Proof.
  induction fuel as [|fuel IH]; intros options text startPos acc out Hmax Hst H;
    cbn [_splitIntoChunks_shadowed_loop] in H; [discriminate|].
  destruct (Z.ltb_spec startPos (len text)) as [Hlt|Hge].
  - destruct (Z.geb_spec (startPos + maxChunkSize options) (len text))
      as [Hend|Hend].
    + injection H as <-. eexists. split; [reflexivity|].
      apply chunks_last; lia.
    + apply IH in H; [|exact Hmax | lia].
      destruct H as [rest [-> Hrest]].
      exists (substring text startPos (splitPos_of options text startPos) :: rest).
      split; [rewrite <- app_assoc; reflexivity|].
      apply chunks_cut; [lia | lia | | exact Hrest].
      apply splitPos_of_preferred; assumption.
  - injection H as <-. exists []. split; [rewrite app_nil_r; reflexivity|].
    apply chunks_done. lia.
Qed.

(** C6 (amended). In the first definition of [_splitIntoChunks], the one
    that the later definition replaces, on a text longer than
    [maxChunkSize] the break of every chunk but the last is the preferred
    cut: the nearest paragraph break at or before the hard cut if it is
    accepted, else the nearest sentence end if accepted, else the hard cut
    [start + maxChunkSize]; and whatever the definition returns is the
    sequence of chunks so cut, the last chunk running to the end of the
    text. *)
Theorem C6_first_definition_prefers_boundaries options text :
  0 < maxChunkSize options ->
  maxChunkSize options < len text ->
  (forall startPos,
      0 <= startPos ->
      preferred_cut options text startPos (splitPos_of options text startPos))
  /\ (forall fuel chunks,
        _splitIntoChunks_shadowed fuel options text = Some chunks ->
        chunks_from options text 0 chunks).
Proof.
  intros Hmax Hlen. split.
  - intros startPos Hst. apply splitPos_of_preferred; assumption.
  - intros fuel chunks H. unfold _splitIntoChunks_shadowed in H.
    destruct text as [|c text]; [unfold len in Hlen; simpl in Hlen; lia|].
    cbn [is_empty] in H.
    destruct (Z.leb_spec (len (c :: text)) (maxChunkSize options)); [lia|].
    apply shadowed_loop_chunks in H; [|exact Hmax | lia].
    destruct H as [rest [-> Hrest]]. exact Hrest.
Qed.

Lemma C6_first_definition_prefers_boundaries_witness :
  preferred_cut small_options small_text 0 8
  /\ chunks_from small_options small_text 0
       [str "One two."; str "o." ++ [LF; LF] ++ str "Three fo";
        str "four. Five s"; str " six seven e"; str " eight nine."].
Proof.
  assert (Hmax : 0 < maxChunkSize small_options) by (cbn; lia).
  assert (Hlen : maxChunkSize small_options < len small_text)
    by (vm_compute; reflexivity).
  destruct (C6_first_definition_prefers_boundaries small_options small_text
              Hmax Hlen) as [Hcut Hchunks].
  assert (Hrun : _splitIntoChunks_shadowed 10 small_options small_text
                 = Some [str "One two."; str "o." ++ [LF; LF] ++ str "Three fo";
                         str "four. Five s"; str " six seven e";
                         str " eight nine."])
    by (vm_compute; reflexivity).
  split.
  - exact (Hcut 0 ltac:(lia)).
  - exact (Hchunks 10%nat _ Hrun).
Defined.

(** C6 (as stated) fails on the chunker in force: on [late_break] the
    paragraph break at 3000 is the preferred cut of the first chunk, and
    4000 is not, yet the first chunk runs to 4000. *)
Lemma C6_counterexample :
  preferred_cut defaultOptions late_break 0 3000
  /\ ~ preferred_cut defaultOptions late_break 0 4000
  /\ nth 0 (_splitIntoChunks late_break) [] = substring late_break 0 4000
  /\ len (substring late_break 0 4000) = 4000.
Proof.
  assert (Hcut : preferred_cut defaultOptions late_break 0 3000).
  { assert (H : splitPos_of defaultOptions late_break 0 = 3000)
      by (vm_compute; reflexivity).
    rewrite <- H. apply splitPos_of_preferred; cbn; lia. }
  split; [exact Hcut|]. split; [|split].
  - intros H. pose proof (preferred_cut_unique _ _ _ _ _ Hcut H). lia.
  - vm_compute. reflexivity.
  - vm_compute. reflexivity.
Qed.

End CutFacts.

(** ** The fuel of the parser *)

Module FuelFacts.
Import JS Json JSFacts.

Lemma skip_ws_length s : (List.length (skip_ws s) <= List.length s)%nat.
Proof.
  induction s as [|c s IH]; [simpl; lia|].
  cbn [skip_ws]. destruct (is_json_ws c); simpl in *; lia.
Qed.

Lemma skip_ws_cons_length s c r :
  skip_ws s = c :: r -> (List.length r < List.length s)%nat.
Proof.
  intros H. pose proof (skip_ws_length s) as Hl. rewrite H in Hl.
  simpl in Hl. lia.
Qed.

Lemma parse_string_chars_length_bounded n : forall s acc x r,
  (List.length s <= n)%nat ->
  parse_string_chars s acc = Some (x, r) ->
  (List.length r < List.length s)%nat.
Proof.
  induction n as [|n IH]; intros s acc x r Hn H.
  - destruct s; [discriminate | simpl in Hn; lia].
  - destruct s as [|c s]; [discriminate|].
    cbn [parse_string_chars] in H.
    destruct (c =? DQUOTE)%N.
    + injection H as _ <-. simpl. lia.
    + destruct (c =? BACKSLASH)%N.
      * destruct s as [|e s']; [discriminate|].
        destruct (e =? 117)%N.
        -- destruct s' as [|h1 [|h2 [|h3 [|h4 s'']]]]; try discriminate.
           destruct (hex4 h1 h2 h3 h4); [|discriminate].
           apply IH in H; [|simpl in *; lia]. simpl in *. lia.
        -- destruct (simple_escape e); [|discriminate].
           apply IH in H; [|simpl in *; lia]. simpl in *. lia.
      * destruct (c <? 32)%N; [discriminate|].
        apply IH in H; [|simpl in *; lia]. simpl in *. lia.
Qed.

Lemma parse_string_chars_length s acc x r :
  parse_string_chars s acc = Some (x, r) ->
  (List.length r < List.length s)%nat.
Proof. apply (parse_string_chars_length_bounded (List.length s)). lia. Qed.

Lemma take_digits_length s :
  (List.length (snd (take_digits s)) <= List.length s)%nat.
Proof.
  induction s as [|c s IH]; [simpl; lia|].
  cbn [take_digits]. destruct (is_digit c); [|simpl; lia].
  destruct (take_digits s) as [ds r]. simpl in *. lia.
Qed.

Lemma number_sign_length s :
  (List.length (snd (number_sign s)) <= List.length s)%nat.
Proof.
  unfold number_sign. destruct s as [|c s]; [simpl; lia|].
  destruct (c =? 45)%N; simpl; lia.
Qed.

Lemma number_int_length s ids r :
  number_int s = Some (ids, r) -> (List.length r < List.length s)%nat.
Proof.
  unfold number_int. intros H. destruct s as [|c s]; [discriminate|].
  destruct (c =? 48)%N; [injection H as _ <-; simpl; lia|].
  destruct (is_digit c) eqn:Ec; [|discriminate].
  assert (E : take_digits (c :: s) = (ids, r)) by congruence.
  cbn [take_digits] in E. rewrite Ec in E.
  pose proof (take_digits_length s) as Hl.
  destruct (take_digits s) as [ds r']. injection E as _ <-.
  simpl in *. lia.
Qed.

Lemma number_frac_length s fds r :
  number_frac s = Some (fds, r) -> (List.length r <= List.length s)%nat.
Proof.
  unfold number_frac. intros H. destruct s as [|c s]; [injection H as _ <-; lia|].
  destruct (c =? 46)%N; [|injection H as _ <-; lia].
  pose proof (take_digits_length s) as Hl.
  destruct (take_digits s) as [[|d ds] r']; [discriminate|].
  injection H as _ <-. simpl in *. lia.
Qed.

Lemma exponent_sign_length s :
  (List.length (snd (exponent_sign s)) <= List.length s)%nat.
Proof.
  unfold exponent_sign. destruct s as [|c s]; [simpl; lia|].
  destruct (c =? 45)%N; [simpl; lia|]. destruct (c =? 43)%N; simpl; lia.
Qed.

Lemma number_exp_length s e r :
  number_exp s = Some (e, r) -> (List.length r <= List.length s)%nat.
Proof.
  unfold number_exp. intros H. destruct s as [|c s]; [injection H as _ <-; lia|].
  destruct ((c =? 101) || (c =? 69))%N; [|injection H as _ <-; lia].
  pose proof (exponent_sign_length s) as Hs.
  destruct (exponent_sign s) as [eneg r1]. cbn [snd] in Hs.
  pose proof (take_digits_length r1) as Hl.
  destruct (take_digits r1) as [[|d ds] r2]; [discriminate|].
  injection H as _ <-. simpl in *. lia.
Qed.

Lemma parse_number_length s n r :
  parse_number s = Some (n, r) -> (List.length r < List.length s)%nat.
Proof.
  unfold parse_number. intros H.
  pose proof (number_sign_length s) as H1.
  destruct (number_sign s) as [neg s1]. cbn [snd] in H1.
  destruct (number_int s1) as [[ids s2]|] eqn:E2; [|discriminate].
  apply number_int_length in E2.
  destruct (number_frac s2) as [[fds s3]|] eqn:E3; [|discriminate].
  apply number_frac_length in E3.
  destruct (number_exp s3) as [[e s4]|] eqn:E4; [|discriminate].
  apply number_exp_length in E4. injection H as _ <-. lia.
Qed.

Lemma literal_length pat s :
  starts_with pat s = true -> pat <> [] ->
  (List.length (skipn (List.length pat) s) < List.length s)%nat.
Proof.
  intros H Hne. apply starts_with_length in H. rewrite length_skipn.
  destruct pat; [congruence|]. simpl in *. lia.
Qed.

(** Whatever the parser returns, it has read at least one character. *)
Lemma parse_consumes fuel :
  (forall s v r, parse_value fuel s = Some (v, r) ->
                 (List.length r < List.length s)%nat)
  /\ (forall s acc v r, parse_elements fuel s acc = Some (v, r) ->
                        (List.length r < List.length s)%nat)
  /\ (forall s acc v r, parse_members fuel s acc = Some (v, r) ->
                        (List.length r < List.length s)%nat).
Proof.
  induction fuel as [|fuel [IHv [IHe IHm]]].
  - split; [|split]; intros; discriminate.
  - split; [|split].
    + intros s v r H. cbn [parse_value] in H.
      pose proof (skip_ws_length s) as Hs.
      destruct (skip_ws s) as [|c s'] eqn:Es; [discriminate|].
      cbn [List.length] in Hs.
      destruct (c =? LBRACE)%N.
      { pose proof (skip_ws_length s') as Hs'.
        destruct (skip_ws s') as [|c2 r2] eqn:E2; [discriminate|].
        cbn [List.length] in Hs'.
        destruct (c2 =? RBRACE)%N; [injection H as _ <-; lia|].
        apply IHm in H. lia. }
      destruct (c =? 91)%N.
      { pose proof (skip_ws_length s') as Hs'.
        destruct (skip_ws s') as [|c2 r2] eqn:E2; [discriminate|].
        cbn [List.length] in Hs'.
        destruct (c2 =? 93)%N; [injection H as _ <-; lia|].
        apply IHe in H. lia. }
      destruct (c =? DQUOTE)%N.
      { destruct (parse_string_chars s' []) as [[x r']|] eqn:Ep; [|discriminate].
        apply parse_string_chars_length in Ep. injection H as _ <-. lia. }
      destruct (starts_with (str "true") (c :: s')) eqn:Et.
      { pose proof (literal_length _ _ Et ltac:(discriminate)) as Hl.
        change (List.length (str "true")) with 4%nat in Hl.
        replace r with (skipn 4 (c :: s')) by congruence.
        cbn [List.length] in *. lia. }
      destruct (starts_with (str "false") (c :: s')) eqn:Ef.
      { pose proof (literal_length _ _ Ef ltac:(discriminate)) as Hl.
        change (List.length (str "false")) with 5%nat in Hl.
        replace r with (skipn 5 (c :: s')) by congruence.
        cbn [List.length] in *. lia. }
      destruct (starts_with (str "null") (c :: s')) eqn:En.
      { pose proof (literal_length _ _ En ltac:(discriminate)) as Hl.
        change (List.length (str "null")) with 4%nat in Hl.
        replace r with (skipn 4 (c :: s')) by congruence.
        cbn [List.length] in *. lia. }
      destruct (parse_number (c :: s')) as [[n r']|] eqn:Ep; [|discriminate].
      apply parse_number_length in Ep. injection H as _ <-.
      cbn [List.length] in *. lia.
    + intros s acc v r H. cbn [parse_elements] in H.
      destruct (parse_value fuel s) as [[v1 r1]|] eqn:Ev; [|discriminate].
      apply IHv in Ev. pose proof (skip_ws_length r1) as Hs.
      destruct (skip_ws r1) as [|c r'] eqn:Er; [discriminate|].
      cbn [List.length] in Hs.
      destruct (c =? 44)%N; [apply IHe in H; lia|].
      destruct (c =? 93)%N; [|discriminate].
      injection H as _ <-. lia.
    + intros s acc v r H. cbn [parse_members] in H.
      pose proof (skip_ws_length s) as Hs.
      destruct (skip_ws s) as [|c s'] eqn:Es; [discriminate|].
      cbn [List.length] in Hs.
      destruct (c =? DQUOTE)%N; [|discriminate].
      destruct (parse_string_chars s' []) as [[k r1]|] eqn:Ek; [|discriminate].
      apply parse_string_chars_length in Ek.
      pose proof (skip_ws_length r1) as Hs1.
      destruct (skip_ws r1) as [|c1 r2] eqn:E1; [discriminate|].
      cbn [List.length] in Hs1.
      destruct (c1 =? 58)%N; [|discriminate].
      destruct (parse_value fuel r2) as [[v1 r3]|] eqn:Ev; [|discriminate].
      apply IHv in Ev. pose proof (skip_ws_length r3) as Hs3.
      destruct (skip_ws r3) as [|c3 r4] eqn:E3; [discriminate|].
      cbn [List.length] in Hs3.
      destruct (c3 =? 44)%N; [apply IHm in H; lia|].
      destruct (c3 =? RBRACE)%N; [|discriminate].
      injection H as _ <-. lia.
Qed.

(** Above twice the length of the text the result of the parser does not
    depend on the fuel. *)
Lemma parse_fuel_irrelevant fuel :
  (forall fuel' s,
      (2 * List.length s + 1 <= fuel)%nat ->
      (2 * List.length s + 1 <= fuel')%nat ->
      parse_value fuel s = parse_value fuel' s)
  /\ (forall fuel' s acc,
        (2 * List.length s + 2 <= fuel)%nat ->
        (2 * List.length s + 2 <= fuel')%nat ->
        parse_elements fuel s acc = parse_elements fuel' s acc)
  /\ (forall fuel' s acc,
        (2 * List.length s + 2 <= fuel)%nat ->
        (2 * List.length s + 2 <= fuel')%nat ->
        parse_members fuel s acc = parse_members fuel' s acc).
Proof.
  induction fuel as [|fuel [IHv [IHe IHm]]].
  - split; [|split]; intros; lia.
  - split; [|split].
    + intros [|fuel'] s Hf Hf'; [lia|]. cbn [parse_value].
      pose proof (skip_ws_length s) as Hs.
      destruct (skip_ws s) as [|c s'] eqn:Es; [reflexivity|].
      cbn [List.length] in Hs.
      pose proof (skip_ws_length s') as Hs'.
      destruct (c =? LBRACE)%N.
      { destruct (skip_ws s') as [|c2 r2] eqn:E2; [reflexivity|].
        destruct (c2 =? RBRACE)%N; [reflexivity|]. apply IHm; lia. }
      destruct (c =? 91)%N.
      { destruct (skip_ws s') as [|c2 r2] eqn:E2; [reflexivity|].
        destruct (c2 =? 93)%N; [reflexivity|]. apply IHe; lia. }
      reflexivity.
    + intros [|fuel'] s acc Hf Hf'; [lia|]. cbn [parse_elements].
      rewrite (IHv fuel' s) by lia.
      destruct (parse_value fuel' s) as [[v1 r1]|] eqn:Ev; [|reflexivity].
      apply (proj1 (parse_consumes fuel')) in Ev.
      pose proof (skip_ws_length r1) as Hs.
      destruct (skip_ws r1) as [|c r'] eqn:Er; [reflexivity|].
      cbn [List.length] in Hs.
      destruct (c =? 44)%N; [|reflexivity]. apply IHe; lia.
    + intros [|fuel'] s acc Hf Hf'; [lia|]. cbn [parse_members].
      pose proof (skip_ws_length s) as Hs.
      destruct (skip_ws s) as [|c s'] eqn:Es; [reflexivity|].
      cbn [List.length] in Hs.
      destruct (c =? DQUOTE)%N; [|reflexivity].
      destruct (parse_string_chars s' []) as [[k r1]|] eqn:Ek; [|reflexivity].
      apply parse_string_chars_length in Ek.
      pose proof (skip_ws_length r1) as Hs1.
      destruct (skip_ws r1) as [|c1 r2] eqn:E1; [reflexivity|].
      cbn [List.length] in Hs1.
      destruct (c1 =? 58)%N; [|reflexivity].
      rewrite (IHv fuel' r2) by lia.
      destruct (parse_value fuel' r2) as [[v1 r3]|] eqn:Ev; [|reflexivity].
      apply (proj1 (parse_consumes fuel')) in Ev.
      pose proof (skip_ws_length r3) as Hs3.
      destruct (skip_ws r3) as [|c3 r4] eqn:E3; [reflexivity|].
      cbn [List.length] in Hs3.
      destruct (c3 =? 44)%N; [|reflexivity]. apply IHm; lia.
Qed.

(** The fuel that [parse] gives is enough: more fuel changes nothing. *)
Theorem parse_fuel_enough text fuel :
  (2 * List.length text + 2 <= fuel)%nat ->
  parse_value fuel text = parse_value (2 * List.length text + 2) text.
Proof.
  intros H. apply (proj1 (parse_fuel_irrelevant fuel)); lia.
Qed.

End FuelFacts.

(** ** [JSON.parse] and the backslash *)

Module ParseFacts.
Import JS Json Spec JSFacts.

Lemma backslash_first_cons c s :
  (c =? BACKSLASH)%N = false -> (c =? DQUOTE)%N = false ->
  backslash_first (c :: s) = backslash_first s.
Proof. intros H1 H2. cbn [backslash_first]. rewrite H1, H2. reflexivity. Qed.

Lemma backslash_first_skip_ws s :
  backslash_first s = true -> backslash_first (skip_ws s) = true.
Proof.
  induction s as [|c s IH]; intros H; [exact H|].
  cbn [skip_ws]. destruct (is_json_ws c) eqn:E; [|exact H].
  apply IH. rewrite backslash_first_cons in H; [exact H| |];
    unfold is_json_ws in E; unfold BACKSLASH, DQUOTE;
    apply N.eqb_neq; intros ->; discriminate.
Qed.

Lemma skip_ws_nil_no_backslash s :
  skip_ws s = [] -> backslash_first s = false.
Proof.
  induction s as [|c s IH]; intros H; [reflexivity|].
  cbn [skip_ws] in H. destruct (is_json_ws c) eqn:E; [|discriminate].
  rewrite backslash_first_cons; [apply IH; exact H| |];
    unfold is_json_ws in E; unfold BACKSLASH, DQUOTE;
    apply N.eqb_neq; intros ->; discriminate.
Qed.

Lemma backslash_first_take_digits s :
  backslash_first s = true -> backslash_first (snd (take_digits s)) = true.
Proof.
  induction s as [|c s IH]; intros H; [exact H|].
  cbn [take_digits]. destruct (is_digit c) eqn:E; [|exact H].
  destruct (take_digits s) as [ds r] eqn:Et. cbn [snd] in *.
  apply IH. rewrite backslash_first_cons in H; [exact H| |];
    unfold is_digit in E; unfold BACKSLASH, DQUOTE;
    apply N.eqb_neq; intros ->; discriminate.
Qed.

(** Dropping a character that is neither a quote nor a backslash. *)
Lemma backslash_first_tail c s :
  backslash_first (c :: s) = true -> (c =? BACKSLASH)%N = false ->
  backslash_first s = true.
Proof.
  intros H Hc. cbn [backslash_first] in H. rewrite Hc in H.
  destruct (c =? DQUOTE)%N; [discriminate | exact H].
Qed.

Lemma backslash_first_not_quote c s :
  backslash_first (c :: s) = true -> (c =? DQUOTE)%N = false.
Proof.
  intros H. cbn [backslash_first] in H.
  destruct (N.eqb_spec c BACKSLASH) as [->|_]; [reflexivity|].
  destruct (c =? DQUOTE)%N; [discriminate | reflexivity].
Qed.

Lemma backslash_first_literal pat s :
  starts_with pat s = true ->
  forallb (fun c => negb (c =? BACKSLASH)%N) pat = true ->
  backslash_first s = true ->
  backslash_first (skipn (List.length pat) s) = true.
Proof.
  revert s. induction pat as [|p pat IH]; intros s Hs Hp Hb; [exact Hb|].
  destruct s as [|c s]; [discriminate|].
  cbn [starts_with] in Hs. apply andb_true_iff in Hs. destruct Hs as [Hpc Hs].
  cbn [forallb] in Hp. apply andb_true_iff in Hp. destruct Hp as [Hp1 Hp].
  apply N.eqb_eq in Hpc. subst c.
  cbn [List.length skipn]. apply IH; [exact Hs | exact Hp|].
  apply (backslash_first_tail p); [exact Hb|].
  destruct (p =? BACKSLASH)%N; [discriminate | reflexivity].
Qed.

Lemma backslash_first_number_sign s :
  backslash_first s = true -> backslash_first (snd (number_sign s)) = true.
Proof.
  intros Hb. unfold number_sign. destruct s as [|c s']; [exact Hb|].
  destruct (N.eqb_spec c 45) as [->|_]; [|exact Hb].
  apply (backslash_first_tail 45%N); [exact Hb | reflexivity].
Qed.

Lemma backslash_first_number_int s ids r :
  backslash_first s = true -> number_int s = Some (ids, r) ->
  backslash_first r = true.
Proof.
  intros Hb E. unfold number_int in E. destruct s as [|c s']; [discriminate|].
  destruct (N.eqb_spec c 48) as [->|_].
  - injection E as _ <-.
    apply (backslash_first_tail 48%N); [exact Hb | reflexivity].
  - destruct (is_digit c); [|discriminate].
    assert (E' : take_digits (c :: s') = (ids, r)) by congruence.
    change r with (snd (ids, r)). rewrite <- E'.
    apply backslash_first_take_digits. exact Hb.
Qed.

Lemma backslash_first_number_frac s fds r :
  backslash_first s = true -> number_frac s = Some (fds, r) ->
  backslash_first r = true.
Proof.
  intros Hb E. unfold number_frac in E. destruct s as [|c s']; [discriminate|].
  destruct (N.eqb_spec c 46) as [->|_].
  - pose proof (backslash_first_take_digits s'
      (backslash_first_tail 46%N _ Hb eq_refl)) as Ht.
    destruct (take_digits s') as [[|d ds] r']; [discriminate|].
    injection E as _ <-. exact Ht.
  - injection E as _ <-. exact Hb.
Qed.

Lemma backslash_first_exponent_sign s :
  backslash_first s = true -> backslash_first (snd (exponent_sign s)) = true.
Proof.
  intros Hb. unfold exponent_sign. destruct s as [|c s']; [exact Hb|].
  destruct (N.eqb_spec c 45) as [->|_].
  - apply (backslash_first_tail 45%N); [exact Hb | reflexivity].
  - destruct (N.eqb_spec c 43) as [->|_]; [|exact Hb].
    apply (backslash_first_tail 43%N); [exact Hb | reflexivity].
Qed.

Lemma backslash_first_number_exp s e r :
  backslash_first s = true -> number_exp s = Some (e, r) ->
  backslash_first r = true.
Proof.
  intros Hb E. unfold number_exp in E. destruct s as [|c s']; [discriminate|].
  destruct ((c =? 101) || (c =? 69))%N eqn:Ec.
  - assert (Hc : (c =? BACKSLASH)%N = false).
    { apply N.eqb_neq. intros ->. discriminate. }
    pose proof (backslash_first_exponent_sign s'
                  (backslash_first_tail c _ Hb Hc)) as Hsg.
    destruct (exponent_sign s') as [eneg r1]. cbn [snd] in Hsg.
    pose proof (backslash_first_take_digits r1 Hsg) as Ht.
    destruct (take_digits r1) as [[|d ds] r2]; [discriminate|].
    injection E as _ <-. exact Ht.
  - injection E as _ <-. exact Hb.
Qed.

Lemma backslash_first_parse_number s n r :
  backslash_first s = true -> parse_number s = Some (n, r) ->
  backslash_first r = true.
Proof.
  intros Hb H. unfold parse_number in H.
  pose proof (backslash_first_number_sign s Hb) as H1.
  destruct (number_sign s) as [neg s1]. cbn [snd] in H1.
  destruct (number_int s1) as [[ids s2]|] eqn:E2; [|discriminate].
  pose proof (backslash_first_number_int _ _ _ H1 E2) as H2.
  destruct (number_frac s2) as [[fds s3]|] eqn:E3; [|discriminate].
  pose proof (backslash_first_number_frac _ _ _ H2 E3) as H3.
  destruct (number_exp s3) as [[e s4]|] eqn:E4; [|discriminate].
  injection H as _ <-. exact (backslash_first_number_exp _ _ _ H3 E4).
Qed.

(** A text whose first quote or backslash is a backslash: whatever the
    parser reads of it leaves such a text, since neither a value nor the
    punctuation around it starts with a backslash, and a string can only
    be entered through a quote. *)
Lemma backslash_first_parse fuel :
  (forall s v r,
      backslash_first s = true -> parse_value fuel s = Some (v, r) ->
      backslash_first r = true)
  /\ (forall s acc v r,
        backslash_first s = true -> parse_elements fuel s acc = Some (v, r) ->
        backslash_first r = true)
  /\ (forall s acc v r,
        backslash_first s = true -> parse_members fuel s acc = Some (v, r) ->
        backslash_first r = true).
Proof.
  induction fuel as [|fuel [IHv [IHe IHm]]].
  - split; [|split]; intros; discriminate.
  - split; [|split].
    + intros s v r Hb H. cbn [parse_value] in H.
      apply backslash_first_skip_ws in Hb.
      destruct (skip_ws s) as [|c s'] eqn:Es; [discriminate|].
      pose proof (backslash_first_not_quote _ _ Hb) as Hq.
      destruct (N.eqb_spec c LBRACE) as [->|_].
      { pose proof (backslash_first_tail LBRACE _ Hb eq_refl) as Hs'.
        pose proof (backslash_first_skip_ws _ Hs') as Hw.
        destruct (skip_ws s') as [|c2 r2] eqn:E2; [discriminate|].
        destruct (N.eqb_spec c2 RBRACE) as [->|_].
        - injection H as _ <-.
          apply (backslash_first_tail RBRACE); [exact Hw | reflexivity].
        - apply (IHm _ _ _ _ Hs' H). }
      destruct (N.eqb_spec c 91) as [->|_].
      { pose proof (backslash_first_tail 91%N _ Hb eq_refl) as Hs'.
        pose proof (backslash_first_skip_ws _ Hs') as Hw.
        destruct (skip_ws s') as [|c2 r2] eqn:E2; [discriminate|].
        destruct (N.eqb_spec c2 93) as [->|_].
        - injection H as _ <-.
          apply (backslash_first_tail 93%N); [exact Hw | reflexivity].
        - apply (IHe _ _ _ _ Hs' H). }
      rewrite Hq in H.
      destruct (starts_with (str "true") (c :: s')) eqn:Et.
      { replace r with (skipn 4 (c :: s')) by congruence.
        apply (backslash_first_literal (str "true")); [exact Et | reflexivity | exact Hb]. }
      destruct (starts_with (str "false") (c :: s')) eqn:Ef.
      { replace r with (skipn 5 (c :: s')) by congruence.
        apply (backslash_first_literal (str "false")); [exact Ef | reflexivity | exact Hb]. }
      destruct (starts_with (str "null") (c :: s')) eqn:En.
      { replace r with (skipn 4 (c :: s')) by congruence.
        apply (backslash_first_literal (str "null")); [exact En | reflexivity | exact Hb]. }
      destruct (parse_number (c :: s')) as [[n r']|] eqn:Ep; [|discriminate].
      injection H as _ <-. exact (backslash_first_parse_number _ _ _ Hb Ep).
    + intros s acc v r Hb H. cbn [parse_elements] in H.
      destruct (parse_value fuel s) as [[v1 r1]|] eqn:Ev; [|discriminate].
      pose proof (IHv _ _ _ Hb Ev) as Hr1.
      apply backslash_first_skip_ws in Hr1.
      destruct (skip_ws r1) as [|c r'] eqn:Er; [discriminate|].
      destruct (N.eqb_spec c 44) as [->|_].
      { apply (IHe _ _ _ _ (backslash_first_tail 44%N _ Hr1 eq_refl) H). }
      destruct (N.eqb_spec c 93) as [->|_]; [|discriminate].
      injection H as _ <-.
      apply (backslash_first_tail 93%N); [exact Hr1 | reflexivity].
    + intros s acc v r Hb H. cbn [parse_members] in H.
      apply backslash_first_skip_ws in Hb.
      destruct (skip_ws s) as [|c s'] eqn:Es; [discriminate|].
      rewrite (backslash_first_not_quote _ _ Hb) in H. discriminate.
Qed.

(** [JSON.parse] throws on a text whose first quote or backslash is a
    backslash. *)
Lemma parse_backslash_first text :
  backslash_first text = true -> parse text = None.
Proof.
  intros Hb. unfold parse.
  destruct (parse_value (2 * List.length text + 2) text) as [[v r]|] eqn:E;
    [|reflexivity].
  pose proof (proj1 (backslash_first_parse _) _ _ _ Hb E) as Hr.
  destruct (skip_ws r) eqn:Ew; [|reflexivity].
  apply skip_ws_nil_no_backslash in Ew. congruence.
Qed.

End ParseFacts.

(** ** The repairer *)

Module RepairFacts.
Import JS Json Spec Repair Inputs JSFacts ExtractFacts ParseFacts.

(** *** The quote passes *)

Lemma escape_quotes_guarded s : forall b,
  quotes_guarded b (escape_quotes_after b s).
Proof.
  induction s as [|c s IH]; intros b; cbn [escape_quotes_after]; [exact I|].
  destruct ((c =? DQUOTE)%N && negb b) eqn:E.
  - cbn [quotes_guarded]. split; [discriminate|].
    split; [reflexivity|]. apply IH.
  - cbn [quotes_guarded]. split; [|apply IH].
    intros Hc. rewrite Hc in E. destruct b; [reflexivity | discriminate].
Qed.

Lemma collapse_guarded_bounded n : forall s b,
  (List.length s <= n)%nat ->
  quotes_guarded b s -> quotes_guarded b (collapse_double_escapes s).
Proof.
  induction n as [|n IH]; intros s b Hn Hg.
  - destruct s; [exact I | simpl in Hn; lia].
  - destruct s as [|a t]; [exact I|].
    cbn [collapse_double_escapes].
    assert (Hdefault : quotes_guarded b (a :: collapse_double_escapes t)).
    { cbn [quotes_guarded] in *. destruct Hg as [Ha Ht]. split; [exact Ha|].
      apply IH; [simpl in Hn; lia | exact Ht]. }
    destruct t as [|b' [|c rest]]; [exact Hdefault | exact Hdefault |].
    destruct ((a =? BACKSLASH)%N && (b' =? BACKSLASH)%N && (c =? DQUOTE)%N)
      eqn:E; [|exact Hdefault].
    cbn [quotes_guarded] in Hg. destruct Hg as [_ [_ [_ Hrest]]].
    apply andb_true_iff in E. destruct E as [_ Ec].
    apply N.eqb_eq in Ec. subst c.
    cbn [quotes_guarded]. split; [discriminate|]. split; [reflexivity|].
    apply IH; [simpl in Hn; lia | exact Hrest].
Qed.

Lemma collapse_guarded s b :
  quotes_guarded b s -> quotes_guarded b (collapse_double_escapes s).
Proof. apply (collapse_guarded_bounded (List.length s)). lia. Qed.

(** After the two passes every double quote follows a backslash. *)
Lemma quote_passes_guarded s :
  quotes_guarded false (collapse_double_escapes (escape_quotes s)).
Proof. apply collapse_guarded, escape_quotes_guarded. Qed.

Lemma guarded_backslash_first s :
  quotes_guarded false s -> In DQUOTE s -> backslash_first s = true.
Proof.
  induction s as [|c s IH]; intros Hg Hin; [destruct Hin|].
  cbn [quotes_guarded] in Hg. destruct Hg as [Hc Hs].
  cbn [backslash_first].
  destruct (N.eqb_spec c BACKSLASH) as [->|Hb]; [reflexivity|].
  destruct (N.eqb_spec c DQUOTE) as [->|Hq]; [discriminate (Hc eq_refl)|].
  destruct Hin as [Hin|Hin]; [congruence|].
  apply IH; assumption.
Qed.

Lemma guarded_weaken s b : quotes_guarded false s -> quotes_guarded b s.
Proof.
  destruct s as [|c s]; [intros; exact I|]. cbn [quotes_guarded].
  intros [Hc Hs]. split; [|exact Hs]. intros E. discriminate (Hc E).
Qed.

Lemma guarded_firstn n : forall s b,
  quotes_guarded b s -> quotes_guarded b (firstn n s).
Proof.
  induction n as [|n IH]; intros s b Hg; [exact I|].
  destruct s as [|c s]; [exact I|]. cbn [firstn quotes_guarded] in *.
  destruct Hg as [Hc Hs]. split; [exact Hc | apply IH; exact Hs].
Qed.

(** A piece of a guarded text that starts at an opening brace is
    guarded. *)
Lemma guarded_skipn_brace i : forall s b rest,
  quotes_guarded b s -> skipn i s = LBRACE :: rest ->
  quotes_guarded false (LBRACE :: rest).
Proof.
  induction i as [|i IH]; intros s b rest Hg E.
  - cbn [skipn] in E. subst s. cbn [quotes_guarded] in *.
    destruct Hg as [_ Hs]. split; [discriminate | exact Hs].
  - destruct s as [|c s]; [discriminate|]. cbn [skipn] in E.
    cbn [quotes_guarded] in Hg. destruct Hg as [_ Hs].
    exact (IH _ _ _ Hs E).
Qed.

(** *** What the passes keep *)

Lemma escape_quotes_keeps_quote s : forall b,
  In DQUOTE s -> In DQUOTE (escape_quotes_after b s).
Proof.
  induction s as [|c s IH]; intros b Hin; [destruct Hin|].
  cbn [escape_quotes_after].
  destruct ((c =? DQUOTE)%N && negb b).
  - right. left. reflexivity.
  - destruct Hin as [->|Hin]; [left; reflexivity | right; apply IH; exact Hin].
Qed.

Lemma escape_quotes_chars s : forall b x,
  In x (escape_quotes_after b s) -> x = BACKSLASH \/ In x s.
Proof.
  induction s as [|c s IH]; intros b x Hin; [destruct Hin|].
  cbn [escape_quotes_after] in Hin.
  destruct ((c =? DQUOTE)%N && negb b) eqn:E.
  - destruct Hin as [<-|[<-|Hin]].
    + left. reflexivity.
    + right. left. apply andb_true_iff in E. destruct E as [E _].
      apply N.eqb_eq in E. exact E.
    + destruct (IH _ _ Hin) as [H|H]; [left; exact H | right; right; exact H].
  - destruct Hin as [<-|Hin]; [right; left; reflexivity|].
    destruct (IH _ _ Hin) as [H|H]; [left; exact H | right; right; exact H].
Qed.

Lemma collapse_keeps_quote_bounded n : forall s,
  (List.length s <= n)%nat ->
  In DQUOTE s -> In DQUOTE (collapse_double_escapes s).
Proof.
  induction n as [|n IH]; intros s Hn Hin.
  - destruct s; [destruct Hin | simpl in Hn; lia].
  - destruct s as [|a t]; [destruct Hin|].
    cbn [collapse_double_escapes].
    assert (Hdefault : In DQUOTE (a :: collapse_double_escapes t)).
    { destruct Hin as [->|Hin]; [left; reflexivity|].
      right. apply IH; [simpl in Hn; lia | exact Hin]. }
    destruct t as [|b' [|c rest]]; [exact Hdefault | exact Hdefault |].
    destruct ((a =? BACKSLASH)%N && (b' =? BACKSLASH)%N && (c =? DQUOTE)%N);
      [|exact Hdefault].
    right. left. reflexivity.
Qed.

Lemma collapse_keeps_quote s :
  In DQUOTE s -> In DQUOTE (collapse_double_escapes s).
Proof. apply (collapse_keeps_quote_bounded (List.length s)). lia. Qed.

Lemma collapse_chars_bounded n : forall s x,
  (List.length s <= n)%nat ->
  In x (collapse_double_escapes s) -> In x s.
Proof.
  induction n as [|n IH]; intros s x Hn Hin.
  - destruct s; [destruct Hin | simpl in Hn; lia].
  - destruct s as [|a t]; [destruct Hin|].
    cbn [collapse_double_escapes] in Hin.
    assert (Hdefault : In x (a :: collapse_double_escapes t) -> In x (a :: t)).
    { intros [<-|H]; [left; reflexivity|].
      right. apply (IH t); [simpl in Hn; lia | exact H]. }
    destruct t as [|b' [|c rest]]; [auto | auto |].
    destruct ((a =? BACKSLASH)%N && (b' =? BACKSLASH)%N && (c =? DQUOTE)%N)
      eqn:E; [|auto].
    apply andb_true_iff in E. destruct E as [E Ec].
    apply andb_true_iff in E. destruct E as [Ea Eb].
    apply N.eqb_eq in Ea, Eb, Ec. subst a b' c.
    destruct Hin as [<-|[<-|Hin]].
    + left. reflexivity.
    + right. right. left. reflexivity.
    + right. right. right. apply (IH rest); [simpl in Hn; lia | exact Hin].
Qed.

Lemma collapse_chars s x : In x (collapse_double_escapes s) -> In x s.
Proof. apply (collapse_chars_bounded (List.length s)). lia. Qed.

Lemma starts_with_firstn pat : forall s,
  starts_with pat s = true -> firstn (List.length pat) s = pat.
Proof.
  induction pat as [|p pat IH]; intros s H; [reflexivity|].
  destruct s as [|c s]; [discriminate|].
  cbn [starts_with] in H. apply andb_true_iff in H. destruct H as [Hp H].
  apply N.eqb_eq in Hp. subst c. cbn [List.length firstn].
  rewrite (IH _ H). reflexivity.
Qed.

Lemma remove_fences_chars s : forall k x,
  In x (remove_fences_skip k s) -> In x s.
Proof.
  induction s as [|c s IH]; intros k x Hin; [destruct k; destruct Hin|].
  cbn [remove_fences_skip] in Hin. destruct k as [|k].
  - destruct (starts_with (str "```json") (c :: s));
      [right; exact (IH _ _ Hin)|].
    destruct (starts_with (str "```") (c :: s));
      [right; exact (IH _ _ Hin)|].
    destruct Hin as [<-|Hin]; [left; reflexivity | right; exact (IH _ _ Hin)].
  - right. exact (IH _ _ Hin).
Qed.

Lemma starts_with_cons_firstn p pat c s :
  starts_with (p :: pat) (c :: s) = true ->
  c = p /\ firstn (List.length pat) s = pat.
Proof.
  intros H. cbn [starts_with] in H. apply andb_true_iff in H.
  destruct H as [Hp H]. apply N.eqb_eq in Hp.
  split; [congruence | apply starts_with_firstn; exact H].
Qed.

Lemma not_in_forallb x (l : jsstring) :
  forallb (fun c => negb (c =? x)%N) l = true -> ~ In x l.
Proof.
  intros H Hin. rewrite forallb_forall in H. specialize (H x Hin).
  rewrite N.eqb_refl in H. discriminate.
Qed.

(** The characters dropped with a fence are those of the fence, so a
    double quote is never among them. *)
Lemma remove_fences_keeps_quote s : forall k,
  ~ In DQUOTE (firstn k s) -> In DQUOTE s ->
  In DQUOTE (remove_fences_skip k s).
Proof.
  induction s as [|c s IH]; intros k Hk Hin; [destruct Hin|].
  cbn [remove_fences_skip]. destruct k as [|k].
  - destruct (starts_with (str "```json") (c :: s)) eqn:E7.
    + change (str "```json") with (BACKTICK :: str "``json") in E7.
      apply starts_with_cons_firstn in E7. destruct E7 as [-> E7].
      change (List.length (str "``json")) with 6%nat in E7.
      apply IH; [|destruct Hin as [Hin|Hin]; [discriminate | exact Hin]].
      rewrite E7. apply not_in_forallb. reflexivity.
    + destruct (starts_with (str "```") (c :: s)) eqn:E3.
      * change (str "```") with (BACKTICK :: str "``") in E3.
        apply starts_with_cons_firstn in E3. destruct E3 as [-> E3].
        change (List.length (str "``")) with 2%nat in E3.
        apply IH; [|destruct Hin as [Hin|Hin]; [discriminate | exact Hin]].
        rewrite E3. apply not_in_forallb. reflexivity.
      * destruct Hin as [->|Hin]; [left; reflexivity|].
        right. apply IH; [intros [] | exact Hin].
  - cbn [firstn] in Hk.
    destruct Hin as [->|Hin]; [exfalso; apply Hk; left; reflexivity|].
    apply IH; [|exact Hin]. intros H. apply Hk. right. exact H.
Qed.

Lemma trimStart_chars s x : In x (trimStart s) -> In x s.
Proof.
  induction s as [|c s IH]; intros H; [exact H|].
  cbn [trimStart] in H. destruct (is_space c); [right; auto | exact H].
Qed.

Lemma trimStart_keeps s x :
  In x s -> is_space x = false -> In x (trimStart s).
Proof.
  induction s as [|c s IH]; intros H Hx; [exact H|].
  cbn [trimStart]. destruct (is_space c) eqn:E; [|exact H].
  destruct H as [->|H]; [congruence | auto].
Qed.

Lemma trim_chars s x : In x (trim s) -> In x s.
Proof.
  unfold trim, trimEnd. intros H. apply in_rev in H.
  apply trimStart_chars in H. apply in_rev in H.
  apply trimStart_chars in H. exact H.
Qed.

Lemma trim_keeps s x : In x s -> is_space x = false -> In x (trim s).
Proof.
  intros H Hx. unfold trim, trimEnd. apply -> in_rev.
  apply trimStart_keeps; [|exact Hx]. apply -> in_rev.
  apply trimStart_keeps; assumption.
Qed.

Lemma single_to_double_id s : ~ In SQUOTE s -> single_to_double s = s.
Proof.
  intros H. unfold single_to_double.
  rewrite <- (map_id s) at 2. apply map_ext_in.
  intros c Hc. destruct (N.eqb_spec c SQUOTE) as [->|_]; [contradiction|].
  reflexivity.
Qed.

(** The text handed to [JSON.parse] when the candidate has a double quote
    and no single quote: its double quotes all follow a backslash. *)
Lemma cleaned_guarded jsonStr :
  In DQUOTE jsonStr -> ~ In SQUOTE jsonStr ->
  quotes_guarded false (cleaned_of jsonStr) /\ In DQUOTE (cleaned_of jsonStr).
Proof.
  intros Hq Hs. unfold cleaned_of.
  set (t := trim (remove_fences jsonStr)).
  assert (Ht : In DQUOTE t).
  { apply trim_keeps; [|reflexivity].
    apply remove_fences_keeps_quote; [intros [] | exact Hq]. }
  assert (Hns : ~ In SQUOTE (collapse_double_escapes (escape_quotes t))).
  { intros H. apply collapse_chars in H. apply escape_quotes_chars in H.
    destruct H as [H|H]; [discriminate|].
    apply trim_chars in H. apply remove_fences_chars in H. contradiction. }
  rewrite (single_to_double_id _ Hns). split.
  - apply quote_passes_guarded.
  - apply collapse_keeps_quote, escape_quotes_keeps_quote. exact Ht.
Qed.

Lemma starts_with_app_last pat : forall y z,
  ~ In z pat -> starts_with pat (y ++ [z]) = starts_with pat y.
Proof.
  induction pat as [|p pat IH]; intros y z Hz; [destruct y; reflexivity|].
  destruct y as [|c y]; cbn [app starts_with].
  - destruct (N.eqb_spec p z) as [->|_]; [|reflexivity].
    exfalso. apply Hz. left. reflexivity.
  - rewrite IH; [reflexivity|]. intros H. apply Hz. right. exact H.
Qed.

Lemma remove_fences_last x : forall k,
  (k <= List.length x)%nat ->
  remove_fences_skip k (x ++ [RBRACE]) = remove_fences_skip k x ++ [RBRACE].
Proof.
  induction x as [|c x IH]; intros k Hk.
  - destruct k; [reflexivity | simpl in Hk; lia].
  - cbn [app remove_fences_skip]. destruct k as [|k].
    + change (c :: x ++ [RBRACE]) with ((c :: x) ++ [RBRACE]).
      rewrite !starts_with_app_last by (apply not_in_forallb; reflexivity).
      destruct (starts_with (str "```json") (c :: x)) eqn:E7.
      * apply starts_with_length in E7.
        change (List.length (str "```json")) with 7%nat in E7.
        apply IH. simpl in E7. lia.
      * destruct (starts_with (str "```") (c :: x)) eqn:E3.
        -- apply starts_with_length in E3.
           change (List.length (str "```")) with 3%nat in E3.
           apply IH. simpl in E3. lia.
        -- cbn [app]. rewrite IH by lia. reflexivity.
    + apply IH. simpl in Hk. lia.
Qed.

Lemma escape_quotes_last x : forall b,
  escape_quotes_after b (x ++ [RBRACE]) = escape_quotes_after b x ++ [RBRACE].
Proof.
  induction x as [|c x IH]; intros b; [reflexivity|].
  cbn [app escape_quotes_after].
  destruct ((c =? DQUOTE)%N && negb b); rewrite IH; reflexivity.
Qed.

Lemma collapse_unfold a b c rest :
  collapse_double_escapes (a :: b :: c :: rest)
  = if (a =? BACKSLASH)%N && (b =? BACKSLASH)%N && (c =? DQUOTE)%N
    then BACKSLASH :: DQUOTE :: collapse_double_escapes rest
    else a :: collapse_double_escapes (b :: c :: rest).
Proof. reflexivity. Qed.

Lemma collapse_last_bounded n : forall x,
  (List.length x <= n)%nat ->
  collapse_double_escapes (x ++ [RBRACE])
  = collapse_double_escapes x ++ [RBRACE].
Proof.
  induction n as [|n IH]; intros x Hn.
  - destruct x; [reflexivity | simpl in Hn; lia].
  - destruct x as [|a [|b' [|c rest]]].
    + reflexivity.
    + reflexivity.
    + cbn [app]. rewrite collapse_unfold.
      replace ((a =? BACKSLASH)%N && (b' =? BACKSLASH)%N && (RBRACE =? DQUOTE)%N)
        with false by (rewrite andb_false_r; reflexivity).
      reflexivity.
    + cbn [app]. rewrite !collapse_unfold.
      destruct ((a =? BACKSLASH)%N && (b' =? BACKSLASH)%N && (c =? DQUOTE)%N).
      * rewrite IH by (simpl in Hn; lia). reflexivity.
      * change (b' :: c :: rest ++ [RBRACE])
          with ((b' :: c :: rest) ++ [RBRACE]).
        rewrite IH by (simpl in *; lia). reflexivity.
Qed.

Lemma collapse_last x :
  collapse_double_escapes (x ++ [RBRACE])
  = collapse_double_escapes x ++ [RBRACE].
Proof. apply (collapse_last_bounded (List.length x)). lia. Qed.

Lemma collapse_head_brace y :
  collapse_double_escapes (LBRACE :: y) = LBRACE :: collapse_double_escapes y.
Proof. destruct y as [|b' [|c rest]]; reflexivity. Qed.

Lemma trim_braced body :
  trim (LBRACE :: body ++ [RBRACE]) = LBRACE :: body ++ [RBRACE].
Proof.
  unfold trim, trimEnd. cbn [trimStart is_space].
  change (is_space LBRACE) with false. cbv iota.
  change (LBRACE :: body ++ [RBRACE]) with ((LBRACE :: body) ++ [RBRACE]).
  rewrite rev_unit. cbn [trimStart]. change (is_space RBRACE) with false.
  cbv iota. rewrite <- rev_unit. apply rev_involutive.
Qed.

(** The passes keep the outer braces of a candidate. *)
Lemma cleaned_braced s : braced s -> braced (cleaned_of s).
Proof.
  intros [body ->]. unfold cleaned_of, remove_fences.
  assert (E1 : remove_fences_skip 0 (LBRACE :: body ++ [RBRACE])
               = LBRACE :: remove_fences_skip 0 body ++ [RBRACE]).
  { cbn [remove_fences_skip].
    change (starts_with (str "```json") (LBRACE :: body ++ [RBRACE])) with false.
    change (starts_with (str "```") (LBRACE :: body ++ [RBRACE])) with false.
    cbv iota. rewrite remove_fences_last by lia. reflexivity. }
  rewrite E1, trim_braced. unfold escape_quotes.
  cbn [escape_quotes_after]. change ((LBRACE =? DQUOTE)%N && negb false) with false.
  cbv iota. change (LBRACE =? BACKSLASH)%N with false.
  rewrite escape_quotes_last, collapse_head_brace, collapse_last.
  unfold single_to_double. cbn [map]. rewrite map_app. cbn [map].
  change (LBRACE =? SQUOTE)%N with false. change (RBRACE =? SQUOTE)%N with false.
  cbv iota. eexists. reflexivity.
Qed.

Lemma nth_error_last_app (x : jsstring) c :
  nth_error (x ++ [c]) (List.length x) = Some c.
Proof. rewrite nth_error_app2, Nat.sub_diag by lia. reflexivity. Qed.

(** On a braced text the outermost braces are the whole text. *)
Lemma match_outer_braces_braced s :
  braced s -> match_outer_braces s = Some s.
Proof.
  intros [body ->]. unfold match_outer_braces.
  assert (Hf : first_at LBRACE (LBRACE :: body ++ [RBRACE]) 0).
  { split; [reflexivity | intros k Hk; lia]. }
  assert (Hl : last_at RBRACE (LBRACE :: body ++ [RBRACE])
                 (S (List.length body))).
  { split.
    - cbn [nth_error]. apply nth_error_last_app.
    - intros k Hk H.
      assert ((k < List.length (LBRACE :: body ++ [RBRACE]))%nat)
        by (apply nth_error_Some; congruence).
      cbn [List.length] in *. rewrite length_app in *. simpl in *. lia. }
  rewrite (indexOf_first_at _ _ _ Hf), (lastIndexOf_last_at _ _ _ Hl).
  replace (Z.of_nat 0 >=? 0) with true by reflexivity.
  replace (Z.of_nat (S (List.length body)) >? Z.of_nat 0) with true
    by (symmetry; apply Z.gtb_lt; lia).
  cbn [andb].
  replace (Z.of_nat (S (List.length body)) + 1)
    with (Z.of_nat (S (S (List.length body)))) by lia.
  rewrite substring_cut
    by (cbn [List.length]; rewrite length_app; simpl; lia).
  rewrite Nat.sub_0_r. cbn [skipn].
  replace (S (S (List.length body)))
    with (List.length (LBRACE :: body ++ [RBRACE]))
    by (cbn [List.length]; rewrite length_app; simpl; lia).
  rewrite firstn_all. reflexivity.
Qed.

Lemma firstn_snoc (l : jsstring) : forall m b,
  nth_error l m = Some b -> firstn (S m) l = firstn m l ++ [b].
Proof.
  induction l as [|c l IH]; intros m b H; [destruct m; discriminate|].
  destruct m as [|m].
  - cbn in H. injection H as ->. reflexivity.
  - cbn [nth_error] in H. rewrite firstn_cons, (IH _ _ H). reflexivity.
Qed.

Lemma piece_braced (s : jsstring) i j a b :
  nth_error s i = Some a -> nth_error s j = Some b -> (i < j)%nat ->
  exists body, firstn (j + 1 - i) (skipn i s) = a :: body ++ [b].
Proof.
  intros Hi Hj Hij.
  assert (H0 : nth_error (skipn i s) 0 = Some a)
    by (rewrite nth_error_skipn, Nat.add_0_r; exact Hi).
  assert (H1 : nth_error (skipn i s) (S (j - i - 1)) = Some b).
  { rewrite nth_error_skipn. replace (i + S (j - i - 1))%nat with j by lia.
    exact Hj. }
  destruct (skipn i s) as [|a' rest]; [discriminate|].
  cbn in H0. injection H0 as ->. cbn [nth_error] in H1.
  replace (j + 1 - i)%nat with (S (S (j - i - 1))) by lia.
  exists (firstn (j - i - 1) rest).
  rewrite firstn_cons, (firstn_snoc _ _ _ H1). reflexivity.
Qed.

(** Every candidate of the extractor is braced. *)
Lemma extract_braced text candidate :
  _extractJsonFromText text = Some candidate -> braced candidate.
Proof.
  unfold _extractJsonFromText. intros H.
  destruct (is_empty text); [discriminate|].
  destruct (indexOf text [LBRACE] >=? 0) eqn:Ei; [|discriminate].
  destruct (lastIndexOf text [RBRACE] >? indexOf text [LBRACE]) eqn:Ej;
    [|discriminate].
  cbn [andb] in H. injection H as <-.
  apply Z.geb_le in Ei. rewrite Z.gtb_ltb in Ej. apply Z.ltb_lt in Ej.
  unfold indexOf in *.
  destruct (find_first [LBRACE] text) as [i|] eqn:Ef; [|lia].
  apply find_first_single_some in Ef. destruct Ef as [Hi _].
  destruct (lastIndexOf_cases RBRACE text) as [[E _]|[j [E [Hj _]]]]; [lia|].
  rewrite E in *.
  assert (Hjl : (j < List.length text)%nat)
    by (apply nth_error_Some; congruence).
  replace (Z.of_nat j + 1) with (Z.of_nat (j + 1)) by lia.
  rewrite substring_cut by lia.
  apply (piece_braced text i j LBRACE RBRACE Hi Hj). lia.
Qed.

(** C10 (amended). The two quote passes of the repairer leave every
    double quote behind a backslash.  So, for a candidate that contains a
    double quote and no single quote, the direct re-parse fails, and the
    repairer returns [null] unless the region between the outermost braces
    of the cleaned text is free of double quotes and parses; and for every
    such candidate handed over by the extractor, which begins and ends
    with a brace, the repairer returns [null]: extractor output written
    with double quotes only is never recovered. *)
Theorem C10_repair_cannot_recover_double_quoted :
  (forall s, quotes_guarded false (collapse_double_escapes (escape_quotes s)))
  /\ (forall jsonStr,
        In DQUOTE jsonStr -> ~ In SQUOTE jsonStr ->
        parse (cleaned_of jsonStr) = None
        /\ (_attemptJsonFix jsonStr = JNull
            \/ exists m, match_outer_braces (cleaned_of jsonStr) = Some m
                         /\ ~ In DQUOTE m
                         /\ parse m = Some (_attemptJsonFix jsonStr)))
  /\ (forall response candidate,
        _extractJsonFromText response = Some candidate ->
        In DQUOTE candidate -> ~ In SQUOTE candidate ->
        _attemptJsonFix candidate = JNull).
Proof.
  assert (Hdirect : forall jsonStr,
             In DQUOTE jsonStr -> ~ In SQUOTE jsonStr ->
             parse (cleaned_of jsonStr) = None).
  { intros jsonStr Hq Hs. destruct (cleaned_guarded _ Hq Hs) as [Hg Hin].
    apply parse_backslash_first, guarded_backslash_first; assumption. }
  split; [exact quote_passes_guarded|]. split.
  - intros jsonStr Hq Hs. split; [exact (Hdirect _ Hq Hs)|].
    unfold _attemptJsonFix.
    destruct (is_empty jsonStr); [left; reflexivity|].
    rewrite (Hdirect _ Hq Hs).
    destruct (match_outer_braces (cleaned_of jsonStr)) as [m|] eqn:Em;
      [|left; reflexivity].
    destruct (parse m) as [v|] eqn:Ep; [|left; reflexivity].
    right. exists m. split; [reflexivity|]. split; [|exact Ep].
    intros Hm.
    (* a quote inside the region would make its parse fail *)
    unfold match_outer_braces in Em.
    destruct (indexOf (cleaned_of jsonStr) [LBRACE] >=? 0) eqn:Ei;
      [|discriminate].
    destruct (lastIndexOf (cleaned_of jsonStr) [RBRACE]
              >? indexOf (cleaned_of jsonStr) [LBRACE]) eqn:Ej;
      [|discriminate].
    cbn [andb] in Em. injection Em as Em.
    apply Z.geb_le in Ei. rewrite Z.gtb_ltb in Ej. apply Z.ltb_lt in Ej.
    unfold indexOf in *.
    destruct (find_first [LBRACE] (cleaned_of jsonStr)) as [i|] eqn:Ef; [|lia].
    apply find_first_single_some in Ef. destruct Ef as [Hi _].
    destruct (lastIndexOf_cases RBRACE (cleaned_of jsonStr))
      as [[E _]|[j [E [Hj _]]]]; [lia|].
    rewrite E in *.
    assert (Hjl : (j < List.length (cleaned_of jsonStr))%nat)
      by (apply nth_error_Some; congruence).
    replace (Z.of_nat j + 1) with (Z.of_nat (j + 1)) in Em by lia.
    rewrite substring_cut in Em by lia.
    destruct (cleaned_guarded _ Hq Hs) as [Hg _].
    assert (Hgm : quotes_guarded false m).
    { rewrite <- Em.
      destruct (skipn i (cleaned_of jsonStr)) as [|a rest] eqn:Esk.
      - rewrite firstn_nil. exact I.
      - assert (Ha : nth_error (skipn i (cleaned_of jsonStr)) 0 = Some LBRACE)
          by (rewrite nth_error_skipn, Nat.add_0_r; exact Hi).
        rewrite Esk in Ha. cbn in Ha. injection Ha as ->.
        apply guarded_firstn.
        exact (guarded_skipn_brace _ _ _ _ Hg Esk). }
    pose proof (parse_backslash_first m (guarded_backslash_first m Hgm Hm)).
    congruence.
  - intros response candidate He Hq Hs.
    pose proof (cleaned_braced _ (extract_braced _ _ He)) as Hb.
    unfold _attemptJsonFix.
    destruct (is_empty candidate); [reflexivity|].
    rewrite (Hdirect _ Hq Hs), (match_outer_braces_braced _ Hb).
    rewrite (Hdirect _ Hq Hs). reflexivity.
Qed.

Lemma C10_repair_cannot_recover_double_quoted_witness :
  In DQUOTE trailing_comma /\ ~ In SQUOTE trailing_comma
  /\ _extractJsonFromText trailing_comma = Some trailing_comma
  /\ parse (cleaned_of trailing_comma) = None
  /\ _attemptJsonFix trailing_comma = JNull.
Proof.
  assert (Hq : In DQUOTE trailing_comma) by (right; left; reflexivity).
  assert (Hs : ~ In SQUOTE trailing_comma)
    by (apply not_in_forallb; reflexivity).
  assert (He : _extractJsonFromText trailing_comma = Some trailing_comma)
    by reflexivity.
  split; [exact Hq|]. split; [exact Hs|]. split; [exact He|]. split.
  - exact (proj1 (proj1 (proj2 C10_repair_cannot_recover_double_quoted)
                    trailing_comma Hq Hs)).
  - exact (proj2 (proj2 C10_repair_cannot_recover_double_quoted)
             trailing_comma trailing_comma He Hq Hs).
Defined.

(** C10 (as stated) fails: these candidates contain a double quote and
    are repaired, the first through the single-quote pass, the second
    through the outermost braces. *)
Lemma C10_counterexample :
  In DQUOTE single_quoted_candidate
  /\ _attemptJsonFix single_quoted_candidate
     = JObject [(str "a" ++ [DQUOTE] ++ str "b", JNumber (mkNum false 1 0))]
  /\ In DQUOTE quote_then_object
  /\ _attemptJsonFix quote_then_object = JObject [].
Proof.
  split; [do 3 right; left; reflexivity|].
  split; [vm_compute; reflexivity|].
  split; [left; reflexivity|].
  vm_compute. reflexivity.
Qed.

End RepairFacts.

(** ** The pipeline *)

Module PipelineFacts.
Import JS Json Spec Repair Content DocAnalyzer.

Lemma trimStart_nil s : trimStart s = [] <-> forallb is_space s = true.
Proof.
  induction s as [|c s IH]; [split; reflexivity|].
  cbn [trimStart forallb]. destruct (is_space c); [exact IH|].
  split; discriminate.
Qed.

Lemma trimStart_all_space s :
  forallb is_space (trimStart s) = true -> trimStart s = [].
Proof.
  induction s as [|c s IH]; [reflexivity|].
  cbn [trimStart]. destruct (is_space c) eqn:E; [exact IH|].
  cbn [forallb]. rewrite E. discriminate.
Qed.

Lemma forallb_rev (f : N -> bool) s : forallb f (rev s) = forallb f s.
Proof.
  induction s as [|c s IH]; [reflexivity|].
  cbn [rev forallb]. rewrite forallb_app, IH. cbn [forallb].
  rewrite andb_true_r. apply andb_comm.
Qed.

(** A response is blank exactly when it is empty or made of white space
    only. *)
Lemma blank_all_space response :
  blank response = forallb is_space response.
Proof.
  unfold blank, trim, trimEnd.
  destruct response as [|c r]; [reflexivity|]. cbn [is_empty orb].
  destruct (forallb is_space (c :: r)) eqn:E.
  - apply trimStart_nil in E. rewrite E. reflexivity.
  - destruct (rev (trimStart (rev (trimStart (c :: r))))) as [|d t] eqn:Er;
      [|reflexivity].
    exfalso.
    assert (H : trimStart (rev (trimStart (c :: r))) = []).
    { rewrite <- (rev_involutive (trimStart _)), Er. reflexivity. }
    apply trimStart_nil in H. rewrite forallb_rev in H.
    apply trimStart_all_space, trimStart_nil in H. congruence.
Qed.

Section Facts.
Context {Options World : Type}.
Variable llm_query :
  World -> jsstring -> jsstring -> QueryOptions Options -> Outcome * World.
Variable JSON_stringify : list JSON -> jsstring.

(** The chunk analyzer makes one call and returns a result whatever the
    outcome of the call. *)
Lemma analyzeChunk_eq chunk analysisType options (st : St Options World) :
  _analyzeChunkWithLLM llm_query chunk analysisType options st
  = (Ret (chunk_result_of (outcome_of llm_query st (chunk_call chunk options))),
     called llm_query st (chunk_call chunk options)).
Proof.
  unfold _analyzeChunkWithLLM, try_catch, bind, query, ret, called,
    outcome_of, chunk_call, _createPrompts, chunk_result_of.
  cbn [call_system call_user call_options].
  destruct (llm_query _ _ _ _) as [[response|e] w]; reflexivity.
Qed.

Lemma testLLM_eq (st : St Options World) :
  exists b, testLLMResponse llm_query st
            = (Ret b, called llm_query st test_call).
Proof.
  unfold testLLMResponse, try_catch, bind, query, ret, called, test_call.
  cbn [call_system call_user call_options].
  destruct (llm_query _ _ _ _) as [[response|e] w].
  - destruct (blank response); [eexists; reflexivity|].
    destruct (parse response); eexists; reflexivity.
  - eexists. reflexivity.
Qed.

(** The analyses of the chunks never throw: each chunk has its result. *)
Lemma analyzeChunks_total analysisType options chunks :
  forall (st : St Options World),
  exists results st',
    analyze_chunks llm_query chunks analysisType options st
    = (Ret results, st')
    /\ List.length results = List.length chunks.
Proof.
  induction chunks as [|chunk chunks IH]; intros st.
  - exists [], st. split; reflexivity.
  - unfold analyze_chunks. cbn [all]. unfold bind at 1.
    rewrite analyzeChunk_eq.
    destruct (IH (called llm_query st (chunk_call chunk options)))
      as [results [st' [E Hl]]].
    unfold analyze_chunks in E. unfold bind at 1. rewrite E.
    eexists. eexists. split; [reflexivity|]. cbn [List.length]. lia.
Qed.

(** [analyzeDocument] on a document that passes the content check. *)
Lemma analyze_acceptable document analysisType options
    (st : St Options World) chunkResults st2 :
  acceptable document = true ->
  analyze_chunks llm_query (chunks_of document) analysisType options
    (called llm_query st test_call) = (Ret chunkResults, st2) ->
  analyzeDocument llm_query JSON_stringify document analysisType options st
  = if (List.length (chunks_of document) =? 1)%nat
    then (mkEnvelope true (nth 0 chunkResults JNull) None
            (Some (mkMeta analysisType 1 (len (content_of document)) None)),
          st2)
    else
      match _synthesizeResults llm_query JSON_stringify chunkResults
              analysisType (content_of document) st2 with
      | (Ret combinedResults, st3) =>
          (mkEnvelope true combinedResults None
             (Some (mkMeta analysisType (List.length (chunks_of document))
                      (len (content_of document))
                      (Some (documentName_of document)))), st3)
      | (Throw error, st3) =>
          (mkEnvelope false JNull (Some (message error)) None, st3)
      end.
Proof.
  intros Hacc Hchunks. unfold acceptable in Hacc.
  apply negb_true_iff in Hacc.
  unfold analyzeDocument, analyzeDocument_try. rewrite Hacc.
  unfold bind at 1. destruct (testLLM_eq st) as [b ->].
  unfold bind at 1. fold (content_of document). fold (chunks_of document).
  rewrite Hchunks.
  destruct (List.length (chunks_of document) =? 1)%nat; [reflexivity|].
  unfold bind, ret.
  destruct (_synthesizeResults llm_query JSON_stringify chunkResults
              analysisType (content_of document) st2)
    as [[v|e] st3]; reflexivity.
Qed.

Lemma analyze_rejected document analysisType options (st : St Options World) :
  acceptable document = false ->
  analyzeDocument llm_query JSON_stringify document analysisType options st
  = (invalid_content, st).
Proof.
  intros Hacc. unfold acceptable in Hacc. apply negb_false_iff in Hacc.
  unfold analyzeDocument, analyzeDocument_try. rewrite Hacc. reflexivity.
Qed.

(** The synthesizer with at least one valid result: one call, and the
    three ways it ends. *)
Lemma synthesize_eq chunkResults analysisType originalContent
    (st : St Options World) :
  filter is_valid chunkResults <> [] ->
  _synthesizeResults llm_query JSON_stringify chunkResults analysisType
    originalContent st
  = match outcome_of llm_query st
            (synthesis_call JSON_stringify (filter is_valid chunkResults)
               analysisType originalContent) with
    | Returned response =>
        (Ret (match parse response with
              | Some v => v
              | None => synthesis_unparsed response
              end),
         called llm_query st
           (synthesis_call JSON_stringify (filter is_valid chunkResults)
              analysisType originalContent))
    | Thrown e =>
        _basicCombineResults (filter is_valid chunkResults) analysisType
          (called llm_query st
             (synthesis_call JSON_stringify (filter is_valid chunkResults)
                analysisType originalContent))
    end.
Proof.
  intros Hne. unfold _synthesizeResults.
  destruct (filter is_valid chunkResults) as [|r valid] eqn:Ev; [congruence|].
  cbn [List.length Nat.eqb].
  unfold try_catch, bind, query, ret, called, outcome_of, synthesis_call,
    summary_of. cbn [call_system call_user call_options].
  destruct (llm_query _ _ _ _) as [[response|e] w]; cbn [fst snd];
    [|reflexivity].
  destruct (parse response); reflexivity.
Qed.

Lemma synthesize_no_valid chunkResults analysisType originalContent
    (st : St Options World) :
  filter is_valid chunkResults = [] ->
  _synthesizeResults llm_query JSON_stringify chunkResults analysisType
    originalContent st
  = (Ret no_valid_results, st).
Proof. intros E. unfold _synthesizeResults. rewrite E. reflexivity. Qed.

(** The fallback combiner throws, whatever it is given. *)
Lemma basicCombine_throws results analysisType (st : St Options World) :
  exists e, _basicCombineResults results analysisType st = (Throw e, st).
Proof.
  unfold _basicCombineResults.
  destruct (jsstring_eqb analysisType (str "outline"));
    [eexists; reflexivity|].
  destruct (jsstring_eqb analysisType (str "importance"));
    eexists; reflexivity.
Qed.

End Facts.

End PipelineFacts.

(** ** The chunk analyzer, the synthesizer and the orchestrator *)

Module PipelineClaims.
Import JS Json Spec Repair Content DocAnalyzer PipelineFacts Script.

Section Claims.
Context {Options World : Type}.
Variable llm_query :
  World -> jsstring -> jsstring -> QueryOptions Options -> Outcome * World.
Variable JSON_stringify : list JSON -> jsstring.

Lemma chunk_result_is_object outcome :
  exists fields, chunk_result_of outcome = JObject fields.
Proof.
  destruct outcome as [response|e]; [|eexists; reflexivity].
  unfold chunk_result_of, chunk_result_of_response.
  destruct (blank response); [eexists; reflexivity|].
  destruct (_extractJsonFromText response) as [j|]; [|eexists; reflexivity].
  destruct (is_empty j); [eexists; reflexivity|].
  destruct (parse j); [eexists; reflexivity|].
  destruct (truthy (_attemptJsonFix j)); eexists; reflexivity.
Qed.

(** A document with a single chunk: two calls, and the result of the
    chunk as data. *)
Lemma analyze_single_chunk document analysisType options
    (st : St Options World) chunk :
  acceptable document = true -> chunks_of document = [chunk] ->
  analyzeDocument llm_query JSON_stringify document analysisType options st
  = (mkEnvelope true
       (chunk_result_of
          (outcome_of llm_query (called llm_query st test_call)
             (chunk_call chunk options)))
       None
       (Some (mkMeta analysisType 1 (len (content_of document)) None)),
     called llm_query (called llm_query st test_call)
       (chunk_call chunk options)).
Proof.
  intros Hacc Hchunks.
  assert (E : analyze_chunks llm_query (chunks_of document) analysisType
                options (called llm_query st test_call)
              = (Ret [chunk_result_of
                        (outcome_of llm_query (called llm_query st test_call)
                           (chunk_call chunk options))],
                 called llm_query (called llm_query st test_call)
                   (chunk_call chunk options))).
  { rewrite Hchunks. unfold analyze_chunks. cbn [all].
    unfold bind at 1. rewrite analyzeChunk_eq. reflexivity. }
  rewrite (analyze_acceptable _ _ _ _ _ _ _ _ Hacc E), Hchunks.
  reflexivity.
Qed.

(** C5 (amended). Analyzing a chunk never throws.  An empty or blank
    response and a response from which no JSON can be parsed or repaired
    become failed chunk results; and so does an exception thrown by the
    query of the model client: it is caught inside the chunk analyzer,
    which returns the failed result with the message of the exception
    and an empty raw content, so it never reaches the [catch] of the
    orchestrator, and the envelope of a single-chunk document whose call
    threw has [success == true] with that failed result as data. *)
Theorem C5_chunk_analyzer_contains_faults :
  (forall chunk analysisType options (st : St Options World),
      let outcome := outcome_of llm_query st (chunk_call chunk options) in
      let st' := called llm_query st (chunk_call chunk options) in
      (exists result,
          _analyzeChunkWithLLM llm_query chunk analysisType options st
          = (Ret result, st'))
      /\ (forall response,
            outcome = Returned response ->
            forallb is_space response = true ->
            _analyzeChunkWithLLM llm_query chunk analysisType options st
            = (Ret (failed (str "Empty response from LLM") []), st'))
      /\ (forall response,
            outcome = Returned response ->
            forallb is_space response = false ->
            (_extractJsonFromText response = None
             \/ exists jsonContent,
                 _extractJsonFromText response = Some jsonContent
                 /\ parse jsonContent = None
                 /\ truthy (_attemptJsonFix jsonContent) = false) ->
            _analyzeChunkWithLLM llm_query chunk analysisType options st
            = (Ret (failed (str "JSON parsing failed") response), st'))
      /\ (forall e,
            outcome = Thrown e ->
            _analyzeChunkWithLLM llm_query chunk analysisType options st
            = (Ret (failed (message e) []), st')))
  /\ (forall document analysisType options (st : St Options World) chunk e,
        acceptable document = true -> chunks_of document = [chunk] ->
        outcome_of llm_query (called llm_query st test_call)
          (chunk_call chunk options) = Thrown e ->
        fst (analyzeDocument llm_query JSON_stringify document analysisType
               options st)
        = mkEnvelope true (failed (message e) []) None
            (Some (mkMeta analysisType 1 (len (content_of document)) None))).
Proof.
  split.
  - intros chunk analysisType options st. cbv zeta.
    rewrite analyzeChunk_eq. split; [eexists; reflexivity|].
    split; [|split].
    + intros response -> Hb. unfold chunk_result_of, chunk_result_of_response.
      rewrite blank_all_space, Hb. reflexivity.
    + intros response -> Hb H. unfold chunk_result_of, chunk_result_of_response.
      rewrite blank_all_space, Hb.
      destruct H as [->|[j [-> [Hp Hf]]]]; [reflexivity|].
      rewrite Hp, Hf. destruct (is_empty j); reflexivity.
    + intros e ->. reflexivity.
  - intros document analysisType options st chunk e Hacc Hchunks He.
    rewrite (analyze_single_chunk _ _ _ _ _ Hacc Hchunks), He. reflexivity.
Qed.

(** C2 (amended). For a document whose text yields exactly one chunk,
    [analyzeDocument] makes two model calls, the test call and the call
    of the chunk, none of them a synthesis call, and the data of the
    envelope is the chunk result of that chunk, the whole record: when
    the response parsed, the parsed analysis is its [data] property. *)
Theorem C2_single_chunk_returns_chunk_result
    document analysisType options (st : St Options World) chunk :
  acceptable document = true -> chunks_of document = [chunk] ->
  let outcome :=
    outcome_of llm_query (called llm_query st test_call)
      (chunk_call chunk options) in
  fst (analyzeDocument llm_query JSON_stringify document analysisType
         options st)
  = mkEnvelope true (chunk_result_of outcome) None
      (Some (mkMeta analysisType 1 (len (content_of document)) None))
  /\ calls (snd (analyzeDocument llm_query JSON_stringify document
                   analysisType options st))
     = calls st ++ [test_call; chunk_call chunk options]
  /\ forallb (fun c => negb (is_synthesis_call c))
       [test_call; chunk_call chunk options] = true
  /\ (forall response jsonContent parsed,
        outcome = Returned response -> forallb is_space response = false ->
        _extractJsonFromText response = Some jsonContent ->
        parse jsonContent = Some parsed ->
        chunk_result_of outcome = succeeded parsed response
        /\ get (str "data") (chunk_result_of outcome) = Some parsed).
Proof.
  intros Hacc Hchunks. cbv zeta.
  rewrite (analyze_single_chunk _ _ _ _ _ Hacc Hchunks).
  split; [reflexivity|]. split.
  - unfold called. cbn [snd calls]. rewrite <- app_assoc. reflexivity.
  - split; [reflexivity|].
    intros response j parsed -> Hb He Hp.
    unfold chunk_result_of, chunk_result_of_response.
    rewrite blank_all_space, Hb, He, Hp.
    destruct j as [|c j]; [discriminate Hp|].
    split; reflexivity.
Qed.

(** C4. A fault of the synthesis is not contained.  In a multi-chunk
    analysis with at least one valid chunk result, when the merge call
    throws, the synthesizer falls back on [_basicCombineResults], which
    calls a combining method that the class does not define: the
    [TypeError] reaches the [catch] of [analyzeDocument], and the envelope
    is the failure whose error says that the method is not a function,
    with [data == null].  When the merge call returns a text that
    [JSON.parse] rejects, no combiner is used either: the envelope has
    [success == true] and its data is the object that reports the error
    [Could not parse synthesis result] with the raw text. *)
Theorem C4_synthesis_fault_is_not_contained
    document analysisType options (st : St Options World) chunkResults st2 :
  acceptable document = true ->
  List.length (chunks_of document) <> 1%nat ->
  analyze_chunks llm_query (chunks_of document) analysisType options
    (called llm_query st test_call) = (Ret chunkResults, st2) ->
  filter is_valid chunkResults <> [] ->
  let merge :=
    synthesis_call JSON_stringify (filter is_valid chunkResults)
      analysisType (content_of document) in
  (forall e,
      outcome_of llm_query st2 merge = Thrown e ->
      analyzeDocument llm_query JSON_stringify document analysisType
        options st
      = (mkEnvelope false JNull
           (Some (str "this."
                  ++ (if jsstring_eqb analysisType (str "outline")
                      then str "_combineOutlineResults"
                      else if jsstring_eqb analysisType (str "importance")
                      then str "_combineImportanceResults"
                      else str "_combineComprehensiveResults")
                  ++ str " is not a function"))
           None,
         called llm_query st2 merge))
  /\ (forall response,
        outcome_of llm_query st2 merge = Returned response ->
        parse response = None ->
        analyzeDocument llm_query JSON_stringify document analysisType
          options st
        = (mkEnvelope true
             (JObject [(str "synthesisError",
                        JString (str "Could not parse synthesis result"));
                       (str "rawSynthesis", JString response)])
             None
             (Some (mkMeta analysisType (List.length (chunks_of document))
                      (len (content_of document))
                      (Some (documentName_of document)))),
           called llm_query st2 merge)).
Proof.
  intros Hacc Hlen Hchunks Hvalid. cbv zeta.
  apply Nat.eqb_neq in Hlen. split.
  - intros e Ho.
    rewrite (analyze_acceptable _ _ _ _ _ _ _ _ Hacc Hchunks), Hlen.
    rewrite synthesize_eq by exact Hvalid. rewrite Ho.
    unfold _basicCombineResults, not_a_function, throw.
    destruct (jsstring_eqb analysisType (str "outline")); [reflexivity|].
    destruct (jsstring_eqb analysisType (str "importance")); reflexivity.
  - intros response Ho Hp.
    rewrite (analyze_acceptable _ _ _ _ _ _ _ _ Hacc Hchunks), Hlen.
    rewrite synthesize_eq by exact Hvalid. rewrite Ho, Hp. reflexivity.
Qed.

End Claims.

Lemma C5_chunk_analyzer_contains_faults_witness :
  _analyzeChunkWithLLM play (str "short doc") (str "comprehensive") tt
    (start [Thrown network_down])
  = (Ret (failed (str "network down") []),
     called play (start [Thrown network_down]) (chunk_call (str "short doc") tt))
  /\ fst (run short_doc [Returned (str "x"); Thrown network_down])
     = mkEnvelope true (failed (str "network down") []) None meta_short.
Proof.
  destruct (C5_chunk_analyzer_contains_faults play no_stringify)
    as [Hchunk Hdoc].
  split.
  - destruct (Hchunk (str "short doc") (str "comprehensive") tt
                (start [Thrown network_down])) as [_ [_ [_ Hthrow]]].
    exact (Hthrow network_down eq_refl).
  - exact (Hdoc short_doc (str "comprehensive") tt
             (start [Returned (str "x"); Thrown network_down])
             (str "short doc") network_down eq_refl eq_refl eq_refl).
Defined.

(** C5 (as stated) fails: the exception of the model client does not
    leave the chunk analyzer, and the envelope is not a failure. *)
Lemma C5_counterexample :
  fst (_analyzeChunkWithLLM play (str "short doc") (str "comprehensive") tt
         (start [Thrown network_down]))
  = Ret (failed (str "network down") [])
  /\ env_success (fst (run short_doc [Returned (str "x"); Thrown network_down]))
     = true
  /\ env_error (fst (run short_doc [Returned (str "x"); Thrown network_down]))
     = None.
Proof. split; [|split]; vm_compute; reflexivity. Qed.

Lemma C2_single_chunk_returns_chunk_result_witness :
  fst (run short_doc [Returned (str "x"); Returned titleX])
  = mkEnvelope true (succeeded object_titleX titleX) None meta_short
  /\ calls (snd (run short_doc [Returned (str "x"); Returned titleX]))
     = [test_call; chunk_call (str "short doc") tt]
  /\ get (str "data") (succeeded object_titleX titleX) = Some object_titleX.
Proof.
  destruct (C2_single_chunk_returns_chunk_result play no_stringify short_doc
              (str "comprehensive") tt
              (start [Returned (str "x"); Returned titleX]) (str "short doc")
              eq_refl eq_refl) as [Henv [Hcalls [_ Hdata]]].
  split; [exact Henv|]. split; [exact Hcalls|].
  exact (proj2 (Hdata titleX titleX object_titleX eq_refl eq_refl eq_refl
                  eq_refl)).
Defined.

(** C2 (as stated) fails: the data of the envelope is the chunk result
    around the parsed analysis, not the parsed analysis. *)
Lemma C2_counterexample :
  parse titleX = Some object_titleX
  /\ env_data (fst (run short_doc [Returned (str "x"); Returned titleX]))
     = succeeded object_titleX titleX
  /\ succeeded object_titleX titleX <> object_titleX.
Proof.
  split; [vm_compute; reflexivity|].
  split; [vm_compute; reflexivity|].
  intros H. vm_compute in H. discriminate H.
Qed.

Lemma C4_synthesis_fault_is_not_contained_witness :
  fst (run long_doc
         [Returned (str "x"); Returned titleX; Returned titleX;
          Thrown network_down])
  = mkEnvelope false JNull
      (Some (str "this._combineComprehensiveResults is not a function"))
      None.
Proof.
  assert (Hacc : acceptable long_doc = true) by (vm_compute; reflexivity).
  assert (Hlen : List.length (chunks_of long_doc) <> 1%nat)
    by (vm_compute; discriminate).
  set (st := start [Returned (str "x"); Returned titleX; Returned titleX;
                    Thrown network_down]).
  assert (Hphase :
    analyze_chunks play (chunks_of long_doc) (str "comprehensive") tt
      (called play st test_call)
    = (Ret [succeeded object_titleX titleX; succeeded object_titleX titleX],
       snd (analyze_chunks play (chunks_of long_doc) (str "comprehensive") tt
              (called play st test_call))))
    by (vm_compute; reflexivity).
  assert (Hvalid : filter is_valid [succeeded object_titleX titleX;
                                    succeeded object_titleX titleX] <> [])
    by (vm_compute; discriminate).
  destruct (C4_synthesis_fault_is_not_contained play no_stringify long_doc
              (str "comprehensive") tt st _ _ Hacc Hlen Hphase Hvalid)
    as [Hthrown _].
  assert (Hout :
    outcome_of play
      (snd (analyze_chunks play (chunks_of long_doc) (str "comprehensive") tt
              (called play st test_call)))
      (synthesis_call no_stringify
         (filter is_valid [succeeded object_titleX titleX;
                           succeeded object_titleX titleX])
         (str "comprehensive") (content_of long_doc))
    = Thrown network_down)
    by (vm_compute; reflexivity).
  unfold run. fold st. rewrite (Hthrown network_down Hout).
  vm_compute. reflexivity.
Defined.

(** C1. The envelope contract fails when the merge response is the JSON
    literal [null]: [JSON.parse] gives [null], and the envelope of the
    multi-chunk analysis has [success == true] with [data == null]. *)
Theorem C1_null_synthesis_breaks_envelope :
  fst (run long_doc
         [Returned (str "x"); Returned titleX; Returned titleX;
          Returned (str "null")])
  = mkEnvelope true JNull None meta_long.
Proof. vm_compute. reflexivity. Qed.

End PipelineClaims.

(** ** The envelope *)

Module EnvelopeFacts.
Import JS Json Spec Repair Content DocAnalyzer PipelineFacts Script PipelineClaims.

Section Envelope.
Context {Options World : Type}.
Variable llm_query :
  World -> jsstring -> jsstring -> QueryOptions Options -> Outcome * World.
Variable JSON_stringify : list JSON -> jsstring.

Lemma analyzeChunks_objects analysisType options chunks :
  forall (st : St Options World) results st',
    analyze_chunks llm_query chunks analysisType options st
    = (Ret results, st') ->
    Forall (fun r => r <> JNull) results.
Proof.
  induction chunks as [|chunk chunks IH]; intros st results st' H.
  - injection H as <- _. constructor.
  - unfold analyze_chunks in H. cbn [all] in H. unfold bind at 1 in H.
    rewrite analyzeChunk_eq in H. unfold bind at 1 in H.
    destruct (analyzeChunks_total llm_query analysisType options chunks
                (called llm_query st (chunk_call chunk options)))
      as [rs [st'' [E _]]].
    unfold analyze_chunks in E. rewrite E in H. injection H as <- _.
    constructor.
    + destruct (chunk_result_is_object
                  (outcome_of llm_query st (chunk_call chunk options)))
        as [fields ->]. discriminate.
    + exact (IH _ _ _ E).
Qed.

(** Apart from a merge response that parses to [null], the envelope
    keeps its contract: success exactly when there is no error, no data
    on failure, and data on success. *)
Lemma envelope_contract_but_for_null_merge document analysisType options
    (st : St Options World) :
  let envelope :=
    fst (analyzeDocument llm_query JSON_stringify document analysisType
           options st) in
  (env_success envelope = true <-> env_error envelope = None)
  /\ (env_success envelope = false -> env_data envelope = JNull)
  /\ (env_success envelope = true -> env_data envelope = JNull ->
      exists st2 validResults response,
        outcome_of llm_query st2
          (synthesis_call JSON_stringify validResults analysisType
             (content_of document)) = Returned response
        /\ parse response = Some JNull).
Proof.
  cbv zeta. destruct (acceptable document) eqn:Hacc.
  - destruct (analyzeChunks_total llm_query analysisType options
                (chunks_of document) (called llm_query st test_call))
      as [results [st2 [E Hl]]].
    pose proof (analyzeChunks_objects _ _ _ _ _ _ E) as Hobj.
    rewrite (analyze_acceptable _ _ _ _ _ _ _ _ Hacc E).
    destruct (List.length (chunks_of document) =? 1)%nat eqn:E1.
    + cbn [fst env_success env_error env_data].
      split; [split; reflexivity|]. split; [discriminate|].
      intros _ Hd. apply Nat.eqb_eq in E1. rewrite E1 in Hl.
      destruct results as [|r results]; [discriminate|].
      inversion Hobj; subst. cbn [nth] in Hd. contradiction.
    + destruct (filter is_valid results) as [|v valid] eqn:Ev.
      * rewrite synthesize_no_valid by exact Ev.
        cbn [fst env_success env_error env_data].
        split; [split; reflexivity|]. split; discriminate.
      * rewrite synthesize_eq by (rewrite Ev; discriminate).
        rewrite Ev.
        destruct (outcome_of llm_query st2
                    (synthesis_call JSON_stringify (v :: valid) analysisType
                       (content_of document))) as [response|e] eqn:Eo.
        -- cbn [fst env_success env_error env_data].
           split; [split; reflexivity|]. split; [discriminate|].
           intros _ Hd. exists st2, (v :: valid), response.
           split; [exact Eo|].
           destruct (parse response) as [p|]; [congruence | discriminate].
        -- destruct (basicCombine_throws (World := World) (v :: valid)
                       analysisType
                       (called llm_query st2
                          (synthesis_call JSON_stringify (v :: valid)
                             analysisType (content_of document))))
             as [err ->].
           cbn [fst env_success env_error env_data].
           split; [split; discriminate|]. split; [reflexivity|discriminate].
  - rewrite analyze_rejected by exact Hacc.
    cbn [fst invalid_content env_success env_error env_data].
    split; [split; discriminate|]. split; [reflexivity | discriminate].
Qed.

End Envelope.

End EnvelopeFacts.

(** * Further properties of the code *)

(** ** Pieces of a text *)

Module PieceFacts.
Import JS Spec JSFacts ChunkerFacts.

Lemma cut_from s (a b : nat) :
  (a <= b)%nat -> cut s a b ++ skipn b s = skipn a s.
Proof.
  intros H. unfold cut.
  replace b with ((b - a) + a)%nat at 2 by lia.
  rewrite <- skipn_skipn. apply firstn_skipn.
Qed.

Lemma cut_length s (a b : nat) :
  (a <= b)%nat -> (b <= List.length s)%nat -> List.length (cut s a b) = (b - a)%nat.
Proof.
  intros H1 H2. unfold cut. rewrite length_firstn, length_skipn. lia.
Qed.

Lemma substring_len s a b :
  0 <= a <= b -> b <= len s -> len (substring s a b) = b - a.
Proof.
  intros H1 H2. rewrite substring_inside by lia. unfold len at 1.
  rewrite !Z.min_l by lia. rewrite cut_length by (unfold len in *; lia). lia.
Qed.

Lemma lastIndexOf_from_le s pat position :
  0 <= position -> lastIndexOf_from s pat position <= position.
Proof.
  intros Hp. unfold lastIndexOf_from.
  destruct (Z.ltb_spec (len s) (len pat)); [lia|].
  pose proof (find_last_upto_le pat s
    (Z.to_nat (Z.min (Z.max position 0) (len s - len pat)))).
  lia.
Qed.

Lemma firstn_min_length {A} (l : list A) n :
  firstn (Nat.min (List.length l) n) l = firstn n l.
Proof.
  destruct (Nat.le_ge_cases (List.length l) n) as [H|H].
  - rewrite Nat.min_l by lia. rewrite firstn_all, firstn_all2 by lia. reflexivity.
  - rewrite Nat.min_r by lia. reflexivity.
Qed.

Lemma substring_prefix s n : 0 <= n -> substring s 0 n = firstn (Z.to_nat n) s.
Proof.
  intros Hn. rewrite substring_inside by lia. unfold cut.
  rewrite (Z.min_l 0) by (unfold len; lia). cbn [Z.to_nat skipn]. rewrite Nat.sub_0_r.
  replace (Z.to_nat (Z.min n (len s)))
    with (Nat.min (List.length s) (Z.to_nat n)) by (unfold len; lia).
  apply firstn_min_length.
Qed.

End PieceFacts.

(** ** The fixed-size chunker, continued *)

Module SplitFacts.
Import JS Spec Chunker JSFacts ChunkerFacts PieceFacts.

Lemma skipn_len (s : jsstring) n : (List.length s <= n)%nat -> skipn n s = [].
Proof. apply skipn_all2. Qed.

(** The chunks of the loop, put end to end, are the text from [i] on. *)
Lemma _splitIntoChunks_loop_concat fuel : forall text i,
  0 <= i -> len text - i <= Z.of_nat fuel ->
  List.concat (_splitIntoChunks_loop fuel text i) = skipn (Z.to_nat i) text.
Proof.
  induction fuel as [|fuel IH]; intros text i Hi Hf;
    cbn [_splitIntoChunks_loop].
  - cbn [List.concat]. symmetry. apply skipn_len. unfold len in Hf. lia.
  - destruct (Z.ltb_spec i (len text)) as [Hlt|Hge].
    + cbn [List.concat]. rewrite IH by (unfold chunkSize; lia).
      rewrite slice_inside by (unfold chunkSize; lia).
      rewrite (Z.min_l i) by lia.
      destruct (Z.le_ge_cases (i + chunkSize) (len text)) as [H|H].
      * rewrite Z.min_l by lia. apply cut_from. unfold chunkSize. lia.
      * rewrite Z.min_r by lia.
        rewrite (skipn_len text (Z.to_nat (i + chunkSize)))
          by (unfold len in H; lia).
        rewrite app_nil_r. unfold cut, len.
        rewrite Nat2Z.id. apply firstn_all2. rewrite length_skipn. lia.
    + cbn [List.concat]. symmetry. apply skipn_len. unfold len in Hge. lia.
Qed.

(** X1. The chunks that [_splitIntoChunks] (the definition in force)
    returns, put end to end, are the text: no character is lost, repeated
    or moved. *)
Theorem X1_chunks_concatenate_to_text (text : jsstring) :
  List.concat (_splitIntoChunks text) = text.
Proof.
  unfold _splitIntoChunks. destruct text as [|c text]; [reflexivity|].
  cbn [is_empty].
  rewrite _splitIntoChunks_loop_concat by (unfold len; lia).
  reflexivity.
Qed.

Lemma slice_len text i :
  0 <= i < len text ->
  len (slice text i (i + chunkSize)) = Z.min chunkSize (len text - i).
Proof.
  intros H. rewrite slice_inside by (unfold chunkSize; lia).
  unfold len at 1. rewrite cut_length.
  - unfold chunkSize. lia.
  - unfold chunkSize. lia.
  - unfold len. lia.
Qed.

Lemma _splitIntoChunks_loop_sizes fuel : forall text i,
  0 <= i -> len text - i <= Z.of_nat fuel ->
  let chunks := _splitIntoChunks_loop fuel text i in
  Z.of_nat (List.length chunks) = (Z.max (len text - i) 0 + chunkSize - 1) / chunkSize
  /\ (forall j, (j < List.length chunks)%nat ->
        len (nth j chunks []) =
        Z.min chunkSize (len text - i - chunkSize * Z.of_nat j)
        /\ 0 < len text - i - chunkSize * Z.of_nat j).
Proof.
  induction fuel as [|fuel IH]; intros text i Hi Hf;
    cbn [_splitIntoChunks_loop]; cbv zeta.
  - cbn [List.length]. rewrite Z.max_r by lia. unfold chunkSize.
    split; [reflexivity | intros j Hj; simpl in Hj; lia].
  - destruct (Z.ltb_spec i (len text)) as [Hlt|Hge].
    + specialize (IH text (i + chunkSize) ltac:(unfold chunkSize; lia)
                     ltac:(unfold chunkSize; lia)).
      cbv zeta in IH. destruct IH as [IHn IHl].
      cbn [List.length]. split.
      * rewrite Nat2Z.inj_succ, IHn. unfold chunkSize.
        rewrite (Z.max_l (len text - i)) by lia.
        destruct (Z.le_ge_cases (len text - (i + 4000)) 0).
        -- rewrite Z.max_r by lia. transitivity 1; [reflexivity|].
           apply Z.div_unique with (r := len text - i - 1); lia.
        -- rewrite Z.max_l by lia.
           replace (len text - i + 4000 - 1)
             with ((len text - (i + 4000) + 4000 - 1) + 1 * 4000) by lia.
           rewrite Z.div_add by lia. lia.
      * intros [|j] Hj.
        -- cbn [nth]. rewrite slice_len by lia. split; [f_equal|]; lia.
        -- cbn [nth]. destruct (IHl j ltac:(lia)) as [H1 H2].
           rewrite H1. unfold chunkSize in *. split; [f_equal|]; lia.
    + cbn [List.length]. rewrite Z.max_r by lia. unfold chunkSize.
      split; [reflexivity | intros j Hj; lia].
Qed.

(** X2. [_splitIntoChunks] (the definition in force) returns
    [ceil(length / 4000)] chunks; every chunk but the last has exactly
    4000 characters, and every chunk has between 1 and 4000. *)
Theorem X2_chunk_sizes (text : jsstring) :
  let chunks := _splitIntoChunks text in
  Z.of_nat (List.length chunks) = (len text + 3999) / 4000
  /\ (forall j, (S j < List.length chunks)%nat -> len (nth j chunks []) = 4000)
  /\ (forall chunk, In chunk chunks -> 1 <= len chunk <= 4000).
Proof.
  cbv zeta.
  assert (H : Z.of_nat (List.length (_splitIntoChunks text))
              = (len text + 3999) / 4000
              /\ (forall j, (j < List.length (_splitIntoChunks text))%nat ->
                    len (nth j (_splitIntoChunks text) []) =
                    Z.min 4000 (len text - 4000 * Z.of_nat j)
                    /\ 0 < len text - 4000 * Z.of_nat j)).
  { unfold _splitIntoChunks. destruct text as [|c text].
    - cbn. split; [reflexivity | intros j Hj; lia].
    - cbn [is_empty].
      pose proof (_splitIntoChunks_loop_sizes (List.length (c :: text))
                    (c :: text) 0 ltac:(lia) ltac:(unfold len; lia)) as H.
      cbv zeta in H. unfold chunkSize in H. destruct H as [Hn Hl].
      split.
      + rewrite Hn. f_equal. unfold len. cbn [List.length]. lia.
      + intros j Hj. destruct (Hl j Hj) as [H1 H2]. split; [rewrite H1; f_equal|]; lia. }
  destruct H as [Hn Hl]. split; [exact Hn|]. split.
  - intros j Hj. destruct (Hl j ltac:(lia)) as [H1 _]. rewrite H1.
    pose proof (Z.mul_div_le (len text + 3999) 4000 ltac:(lia)) as Hq.
    set (q := (len text + 3999) / 4000) in *.
    set (n := List.length (_splitIntoChunks text)) in *.
    lia.
  - intros chunk Hin. apply (In_nth _ _ []) in Hin.
    destruct Hin as [j [Hj Hnth]]. destruct (Hl j Hj) as [H1 H2].
    assert (E : len chunk = Z.min 4000 (len text - 4000 * Z.of_nat j))
      by (rewrite <- Hnth; exact H1).
    lia.
Qed.

End SplitFacts.

(** ** The splitter of the model service *)

Module TextSplitFacts.
Import JS Spec JSFacts ChunkerFacts DivergenceFacts PieceFacts Samples.

(** The end of the chunk that starts at [startIndex]. *)
Lemma endIndex_bounds text chunkSize startIndex :
  0 < chunkSize -> 0 <= startIndex < len text ->
  let endIndex := Z.min (startIndex + chunkSize) (len text) in
  let endIndex' :=
    if endIndex <? len text then
      let paragraphEnd := lastIndexOf_from text [LF; LF] endIndex in
      if paragraphEnd >? startIndex then paragraphEnd
      else
        let sentenceEnd := lastIndexOf_from text [DOT; SPACE] endIndex in
        if sentenceEnd >? startIndex then sentenceEnd + 1
        else endIndex
    else endIndex in
  startIndex < endIndex' <= len text /\ endIndex' <= startIndex + chunkSize + 1.
Proof.
  intros Hcs Hst. cbv zeta.
  set (e := Z.min (startIndex + chunkSize) (len text)).
  assert (He : startIndex < e <= len text /\ e <= startIndex + chunkSize)
    by (unfold e; lia).
  pose proof (lastIndexOf_from_le text [LF; LF] e ltac:(lia)) as Hp.
  pose proof (lastIndexOf_from_le text [DOT; SPACE] e ltac:(lia)) as Hs.
  pose proof (lastIndexOf_from_bounds text [DOT; SPACE] e) as Hs'.
  change (len [DOT; SPACE]) with 2 in Hs'.
  destruct (Z.ltb_spec e (len text)); [|lia].
  destruct (Z.gtb_spec (lastIndexOf_from text [LF; LF] e) startIndex); [lia|].
  destruct (Z.gtb_spec (lastIndexOf_from text [DOT; SPACE] e) startIndex); lia.
Qed.

(** Without overlap, or with a negative one, every iteration moves the
    start forward, so the loop ends within [len text] iterations. *)
Lemma loop_terminates fuel :
  forall text chunkSize overlapSize startIndex chunks,
    0 < chunkSize -> overlapSize <= 0 -> 0 <= startIndex ->
    Z.max 0 (len text - startIndex) < Z.of_nat fuel ->
    exists out,
      LLMService._splitTextIntoChunks_loop fuel text chunkSize overlapSize
        startIndex chunks = Some out.
Proof.
  induction fuel as [|fuel IH]; intros text chunkSize overlapSize startIndex
    chunks Hcs Hov Hst Hf; [lia|].
  cbn [LLMService._splitTextIntoChunks_loop].
  destruct (Z.ltb_spec startIndex (len text)) as [Hlt|Hge];
    [|eexists; reflexivity].
  pose proof (endIndex_bounds text chunkSize startIndex Hcs ltac:(lia)) as Hb.
  cbv zeta in Hb. apply IH; [exact Hcs | exact Hov | lia | lia].
Qed.

(** With [overlapSize = 0] the next chunk starts where the last one ends. *)
Lemma loop_partition fuel :
  forall text chunkSize startIndex chunks,
    0 < chunkSize -> 0 <= startIndex ->
    Z.max 0 (len text - startIndex) < Z.of_nat fuel ->
    exists rest,
      LLMService._splitTextIntoChunks_loop fuel text chunkSize 0
        startIndex chunks = Some (chunks ++ rest)
      /\ List.concat rest = skipn (Z.to_nat startIndex) text
      /\ Forall (fun chunk => 1 <= len chunk <= chunkSize + 1) rest.
Proof.
  induction fuel as [|fuel IH]; intros text chunkSize startIndex
    chunks Hcs Hst Hf; [lia|].
  cbn [LLMService._splitTextIntoChunks_loop].
  destruct (Z.ltb_spec startIndex (len text)) as [Hlt|Hge].
  - pose proof (endIndex_bounds text chunkSize startIndex Hcs ltac:(lia)) as Hb.
    cbv zeta in Hb. cbv zeta.
    set (e := if Z.min (startIndex + chunkSize) (len text) <? len text
              then _ else _) in *.
    rewrite Z.sub_0_r, (Z.max_r startIndex e) by lia.
    destruct (IH text chunkSize e (chunks ++ [substring text startIndex e])
                Hcs ltac:(lia) ltac:(lia)) as [rest [E [Hc Hl]]].
    exists (substring text startIndex e :: rest).
    split; [rewrite E, <- app_assoc; reflexivity|].
    rewrite substring_inside by lia.
    rewrite !Z.min_l by lia.
    split.
    + cbn [List.concat]. rewrite Hc. apply cut_from. lia.
    + constructor; [|exact Hl]. unfold len at 1 2.
      rewrite cut_length by (unfold len in *; lia). lia.
  - exists []. rewrite app_nil_r. split; [reflexivity|].
    split; [|constructor].
    cbn [List.concat]. symmetry. apply skipn_all2. unfold len in Hge. lia.
Qed.

(** X3. With a positive [chunkSize], [_splitTextIntoChunks] returns
    exactly when the text is empty or [overlapSize] is zero or negative:
    with any positive overlap its loop never ends on a non-empty text. *)
Theorem X3_splitTextIntoChunks_returns_iff text chunkSize overlapSize :
  0 < chunkSize ->
  (exists fuel chunks,
      LLMService._splitTextIntoChunks fuel text chunkSize overlapSize
      = Some chunks)
  <-> (text = [] \/ overlapSize <= 0).
Proof.
  intros Hcs. split.
  - intros [fuel [chunks H]].
    destruct text as [|c text]; [left; reflexivity|]. right.
    destruct (Z.le_gt_cases overlapSize 0) as [Hle|Hgt]; [exact Hle|].
    unfold LLMService._splitTextIntoChunks in H.
    rewrite LLMService_loop_diverges in H; [discriminate | lia|].
    unfold len. cbn [List.length]. lia.
  - intros [->|Hov].
    + exists 1%nat, []. reflexivity.
    + exists (S (List.length text)).
      apply loop_terminates; [exact Hcs | exact Hov | lia | unfold len; lia].
Qed.

Lemma X3_splitTextIntoChunks_returns_iff_witness :
  (exists fuel chunks,
      LLMService._splitTextIntoChunks fuel Inputs.paragraphs 25 0 = Some chunks)
  <-> (Inputs.paragraphs = [] \/ 0 <= 0).
Proof.
  apply (X3_splitTextIntoChunks_returns_iff Inputs.paragraphs 25 0). lia.
Defined.

(** X4. With a positive [chunkSize] and [overlapSize = 0],
    [_splitTextIntoChunks] returns within [text.length + 1] iterations;
    its chunks, put end to end, are the text, none is empty, and none has
    more than [chunkSize + 1] characters (a chunk cut after a sentence end
    found at the hard limit has one more than [chunkSize]). *)
Theorem X4_splitTextIntoChunks_partitions text chunkSize :
  0 < chunkSize ->
  exists chunks,
    LLMService._splitTextIntoChunks (S (List.length text)) text chunkSize 0
    = Some chunks
    /\ List.concat chunks = text
    /\ (forall chunk, In chunk chunks -> 1 <= len chunk <= chunkSize + 1).
Proof.
  intros Hcs.
  destruct (loop_partition (S (List.length text)) text chunkSize 0 [] Hcs
              ltac:(lia) ltac:(unfold len; lia)) as [rest [E [Hc Hl]]].
  exists rest. split; [exact E|]. split; [exact Hc|].
  apply Forall_forall. exact Hl.
Qed.

Lemma X4_splitTextIntoChunks_partitions_witness :
  LLMService._splitTextIntoChunks 7 sentence 2 0
  = Some [str "ab."; str " c"; str "d"]
  /\ List.concat [str "ab."; str " c"; str "d"] = sentence
  /\ (forall chunk, In chunk [str "ab."; str " c"; str "d"] ->
        1 <= len chunk <= 2 + 1).
Proof.
  destruct (X4_splitTextIntoChunks_partitions sentence 2 ltac:(lia))
    as [chunks [E [Hc Hl]]].
  assert (E' : LLMService._splitTextIntoChunks (S (List.length sentence))
                 sentence 2 0 = Some [str "ab."; str " c"; str "d"])
    by (vm_compute; reflexivity).
  assert (Hchunks : chunks = [str "ab."; str " c"; str "d"]) by congruence.
  rewrite Hchunks in Hc, Hl.
  split; [exact E'|]. split; [exact Hc | exact Hl].
Defined.

End TextSplitFacts.

(** ** The boundary-seeking chunker, continued *)

Module BoundaryFacts.
Import JS Spec Chunker JSFacts ChunkerFacts CutFacts PieceFacts.

(** The break of a chunk lies after its start, at most [maxChunkSize]
    after it and at least half of that. *)
Lemma splitPos_of_bounds options text startPos :
  0 < maxChunkSize options -> 0 <= startPos ->
  let splitPos := splitPos_of options text startPos in
  startPos < splitPos <= startPos + maxChunkSize options
  /\ 2 * startPos + maxChunkSize options <= 2 * splitPos.
Proof.
  intros Hmax Hst. unfold splitPos_of. cbv zeta.
  pose proof (lastIndexOf_from_le text [LF; LF]
                (startPos + maxChunkSize options) ltac:(lia)) as Hp.
  pose proof (lastIndexOf_from_le text [DOT; SPACE]
                (startPos + maxChunkSize options) ltac:(lia)) as Hs.
  destruct (refused options startPos (startPos + maxChunkSize options)
              (lastIndexOf_from text [LF; LF] (startPos + maxChunkSize options)))
    eqn:Ep.
  - destruct (refused options startPos (startPos + maxChunkSize options)
                (lastIndexOf_from text [DOT; SPACE]
                   (startPos + maxChunkSize options))) eqn:Es; [lia|].
    apply refused_accepted in Es. unfold accepted in Es. lia.
  - rewrite Ep. apply refused_accepted in Ep. unfold accepted in Ep. lia.
Qed.

Lemma shadowed_loop_terminates fuel :
  forall options text startPos acc,
    0 < maxChunkSize options ->
    2 * overlapSize options < maxChunkSize options ->
    0 <= startPos ->
    Z.max 0 (len text - startPos) < Z.of_nat fuel ->
    exists rest,
      _splitIntoChunks_shadowed_loop fuel options text startPos acc
      = Some (acc ++ rest)
      /\ (startPos < len text -> rest <> [])
      /\ Forall (fun chunk => 1 <= len chunk <= maxChunkSize options) rest.
Proof.
  induction fuel as [|fuel IH]; intros options text startPos acc Hmax Hov Hst Hf;
    [lia|].
  cbn [_splitIntoChunks_shadowed_loop].
  destruct (Z.ltb_spec startPos (len text)) as [Hlt|Hge].
  - destruct (Z.geb_spec (startPos + maxChunkSize options) (len text))
      as [Hend|Hend].
    + exists [substring_from text startPos]. split; [reflexivity|].
      split; [discriminate|]. constructor; [|constructor].
      unfold substring_from. rewrite substring_len by lia. lia.
    + pose proof (splitPos_of_bounds options text startPos Hmax ltac:(lia)) as Hb.
      cbv zeta in Hb.
      set (splitPos := splitPos_of options text startPos) in *.
      destruct (IH options text (Z.max startPos (splitPos - overlapSize options))
                  (acc ++ [substring text startPos splitPos]) Hmax Hov
                  ltac:(lia) ltac:(lia))
        as [rest [E [_ Hl]]].
      exists (substring text startPos splitPos :: rest).
      split; [rewrite E, <- app_assoc; reflexivity|].
      split; [discriminate|]. constructor; [|exact Hl].
      rewrite substring_len by lia. lia.
  - exists []. rewrite app_nil_r. split; [reflexivity|].
    split; [lia | constructor].
Qed.

(** X5. The first definition of [_splitIntoChunks], the one that is
    replaced, returns within [text.length + 1] iterations whenever
    [maxChunkSize] is positive and [overlapSize] is less than half of it,
    as with the default 4000 and 200: a break is accepted only in the
    second half of the chunk, so the next start lies after the last one.
    It returns at least one chunk for a non-empty text, and every chunk
    has between 1 and [maxChunkSize] characters. *)
Theorem X5_first_definition_terminates options text :
  0 < maxChunkSize options ->
  2 * overlapSize options < maxChunkSize options ->
  exists chunks,
    _splitIntoChunks_shadowed (S (List.length text)) options text = Some chunks
    /\ (text <> [] -> chunks <> [])
    /\ (forall chunk, In chunk chunks -> 1 <= len chunk <= maxChunkSize options).
Proof.
  intros Hmax Hov. unfold _splitIntoChunks_shadowed.
  destruct text as [|c text].
  - exists []. split; [reflexivity|]. split; [congruence | intros chunk []].
  - cbn [is_empty].
    destruct (Z.leb_spec (len (c :: text)) (maxChunkSize options)) as [Hle|Hgt].
    + exists [c :: text]. split; [reflexivity|]. split; [discriminate|].
      intros chunk [<-|[]]. unfold len in *. cbn [List.length] in *. lia.
    + destruct (shadowed_loop_terminates (S (List.length (c :: text))) options
                  (c :: text) 0 [] Hmax Hov ltac:(lia) ltac:(unfold len; lia))
        as [rest [E [Hne Hl]]].
      exists rest. split; [exact E|]. split.
      * intros _. apply Hne. unfold len. cbn [List.length]. lia.
      * apply Forall_forall. exact Hl.
Qed.

Lemma X5_first_definition_terminates_witness :
  exists chunks,
    _splitIntoChunks_shadowed (S (List.length Inputs.late_break)) defaultOptions
      Inputs.late_break = Some chunks
    /\ (Inputs.late_break <> [] -> chunks <> [])
    /\ (forall chunk, In chunk chunks ->
          1 <= len chunk <= maxChunkSize defaultOptions).
Proof.
  apply (X5_first_definition_terminates defaultOptions Inputs.late_break);
    cbn; lia.
Defined.

End BoundaryFacts.

(** ** The chunker of the earlier analyzer *)

Module LegacySplitFacts.
Import JS Spec JSFacts ChunkerFacts DivergenceFacts PieceFacts.

(** Without overlap the next chunk starts where the last one ends. *)
Lemma legacy_loop_partition fuel :
  forall size document position chunks,
    0 < size -> 0 <= position ->
    Z.max 0 (len document - position) < Z.of_nat fuel ->
    exists rest,
      LegacyDocAnalyzer._splitIntoChunks_loop fuel (mkOptions size 0)
        document position chunks = Some (chunks ++ rest)
      /\ List.concat rest = skipn (Z.to_nat position) document
      /\ Forall (fun chunk => 1 <= len chunk <= size) rest.
Proof.
  induction fuel as [|fuel IH]; intros size document position chunks
    Hmax Hpos Hf; [lia|].
  cbn [LegacyDocAnalyzer._splitIntoChunks_loop maxChunkSize
       overlapSize].
  destruct (Z.ltb_spec position (len document)) as [Hlt|Hge].
  - cbv zeta. set (e := Z.min (position + size) (len document)).
    assert (He : position < e <= len document /\ e <= position + size)
      by (unfold e; lia).
    rewrite Z.sub_0_r.
    destruct (Z.leb_spec e 0) as [H|_]; [lia|].
    destruct (Z.leb_spec size 0) as [H|_]; [lia|]. cbn [orb].
    destruct (IH size document e
                (chunks ++ [substring document position e]) Hmax
                ltac:(lia) ltac:(lia)) as [rest [E [Hc Hl]]].
    exists (substring document position e :: rest).
    split; [rewrite E, <- app_assoc; reflexivity|]. split.
    + cbn [List.concat]. rewrite Hc.
      rewrite substring_inside by lia. rewrite !Z.min_l by lia.
      apply cut_from. lia.
    + constructor; [|exact Hl]. rewrite substring_len by lia. lia.
  - exists []. rewrite app_nil_r. split; [reflexivity|].
    split; [|constructor].
    cbn [List.concat]. symmetry. apply skipn_all2. unfold len in Hge. lia.
Qed.

(** With [maxChunkSize <= overlapSize] the loop runs once. *)
Lemma legacy_one_chunk fuel options document :
  maxChunkSize options <= overlapSize options ->
  maxChunkSize options < len document ->
  LegacyDocAnalyzer._splitIntoChunks (S fuel) options document
  = if 0 <? len document
    then Some [substring document 0 (maxChunkSize options)]
    else Some [].
Proof.
  intros Hov Hlen. unfold LegacyDocAnalyzer._splitIntoChunks.
  destruct (Z.leb_spec (len document) (maxChunkSize options)); [lia|].
  cbn [LegacyDocAnalyzer._splitIntoChunks_loop].
  destruct (0 <? len document); [|reflexivity].
  cbv zeta. rewrite Z.add_0_l, (Z.min_l (maxChunkSize options)) by lia.
  destruct (Z.leb_spec (maxChunkSize options) (overlapSize options)); [|lia].
  rewrite orb_true_r. reflexivity.
Qed.

(** X6. With [overlapSize >= 0], the [_splitIntoChunks] of the earlier
    analyzer returns exactly when the document has at most [maxChunkSize]
    characters, or [overlapSize] is zero, or [maxChunkSize <= overlapSize]:
    on a longer document with [0 < overlapSize < maxChunkSize] its loop
    never ends. *)
Theorem X6_legacy_splitIntoChunks_returns_iff options document :
  0 <= overlapSize options ->
  (exists fuel chunks,
      LegacyDocAnalyzer._splitIntoChunks fuel options document = Some chunks)
  <-> (len document <= maxChunkSize options
       \/ overlapSize options = 0
       \/ maxChunkSize options <= overlapSize options).
Proof.
  intros Hov. split.
  - intros [fuel [chunks H]].
    destruct (Z.le_gt_cases (len document) (maxChunkSize options)) as [Hl|Hl];
      [left; exact Hl|].
    destruct (Z.eq_dec (overlapSize options) 0) as [H0|H0];
      [right; left; exact H0|].
    destruct (Z.le_gt_cases (maxChunkSize options) (overlapSize options))
      as [Hm|Hm]; [right; right; exact Hm|].
    rewrite Legacy_diverges in H; [discriminate | lia | lia].
  - intros H.
    destruct (Z.le_gt_cases (len document) (maxChunkSize options)) as [Hl|Hl].
    { exists 0%nat, [document]. unfold LegacyDocAnalyzer._splitIntoChunks.
      destruct (Z.leb_spec (len document) (maxChunkSize options)); [|lia].
      reflexivity. }
    destruct (Z.le_gt_cases (maxChunkSize options) (overlapSize options))
      as [Hm|Hm].
    { exists 1%nat. rewrite legacy_one_chunk by lia.
      destruct (0 <? len document); eexists; reflexivity. }
    destruct H as [H|[H|H]]; [lia| |lia].
    exists (S (List.length document)).
    unfold LegacyDocAnalyzer._splitIntoChunks.
    destruct (Z.leb_spec (len document) (maxChunkSize options)); [lia|].
    destruct options as [m o]. cbn [maxChunkSize overlapSize] in *. subst o.
    destruct (legacy_loop_partition (S (List.length document)) m document 0 []
                ltac:(lia) ltac:(lia) ltac:(unfold len; lia)) as [rest [E _]].
    exists rest. exact E.
Qed.

Lemma X6_legacy_splitIntoChunks_returns_iff_witness :
  (exists fuel chunks,
      LegacyDocAnalyzer._splitIntoChunks fuel defaultOptions
        Inputs.largeDocument = Some chunks)
  <-> (len Inputs.largeDocument <= maxChunkSize defaultOptions
       \/ overlapSize defaultOptions = 0
       \/ maxChunkSize defaultOptions <= overlapSize defaultOptions).
Proof.
  apply (X6_legacy_splitIntoChunks_returns_iff defaultOptions
           Inputs.largeDocument).
  cbn. lia.
Defined.

(** X7. With a positive [maxChunkSize] and [overlapSize = 0], the
    [_splitIntoChunks] of the earlier analyzer returns within
    [document.length + 1] iterations; its chunks, put end to end, are the
    document, none has more than [maxChunkSize] characters, and none is
    empty unless the document is. *)
Theorem X7_legacy_splitIntoChunks_partitions size document :
  0 < size ->
  exists chunks,
    LegacyDocAnalyzer._splitIntoChunks (S (List.length document))
      (mkOptions size 0) document = Some chunks
    /\ List.concat chunks = document
    /\ (forall chunk, In chunk chunks -> len chunk <= size)
    /\ (document <> [] -> ~ In [] chunks).
Proof.
  intros Hmax. unfold LegacyDocAnalyzer._splitIntoChunks.
  cbn [maxChunkSize].
  destruct (Z.leb_spec (len document) size) as [Hl|Hl].
  - exists [document]. split; [reflexivity|].
    split; [cbn [List.concat]; apply app_nil_r|]. split.
    + intros chunk [<-|[]]. exact Hl.
    + intros Hne [H|[]]. congruence.
  - destruct (legacy_loop_partition (S (List.length document)) size
                document 0 [] Hmax ltac:(lia) ltac:(unfold len; lia))
      as [rest [E [Hc Hf]]].
    exists rest. split; [exact E|]. split; [exact Hc|].
    rewrite Forall_forall in Hf. split.
    + intros chunk Hin. apply Hf in Hin. lia.
    + intros _ Hin. apply Hf in Hin. unfold len in Hin. cbn in Hin. lia.
Qed.

Lemma X7_legacy_splitIntoChunks_partitions_witness :
  exists chunks,
    LegacyDocAnalyzer._splitIntoChunks (S (List.length Inputs.small_text))
      (mkOptions 12 0) Inputs.small_text = Some chunks
    /\ List.concat chunks = Inputs.small_text
    /\ (forall chunk, In chunk chunks -> len chunk <= 12)
    /\ (Inputs.small_text <> [] -> ~ In [] chunks).
Proof.
  apply (X7_legacy_splitIntoChunks_partitions 12 Inputs.small_text). lia.
Defined.

(** X8. With [0 <= maxChunkSize <= overlapSize], on a document longer
    than [maxChunkSize] the [_splitIntoChunks] of the earlier analyzer
    stops after its first iteration: it returns one chunk, the first
    [maxChunkSize] characters, and the rest of the document is in no
    chunk. *)
Theorem X8_legacy_splitIntoChunks_truncates fuel options document :
  0 <= maxChunkSize options ->
  maxChunkSize options <= overlapSize options ->
  maxChunkSize options < len document ->
  LegacyDocAnalyzer._splitIntoChunks (S fuel) options document
  = Some [substring document 0 (maxChunkSize options)]
  /\ len (substring document 0 (maxChunkSize options)) = maxChunkSize options.
Proof.
  intros Hmax Hov Hlen. rewrite legacy_one_chunk by lia.
  destruct (Z.ltb_spec 0 (len document)); [|lia].
  split; [reflexivity|]. rewrite substring_len by lia. lia.
Qed.

Lemma X8_legacy_splitIntoChunks_truncates_witness :
  LegacyDocAnalyzer._splitIntoChunks 1 (mkOptions 12 12) Inputs.small_text
  = Some [substring Inputs.small_text 0 12]
  /\ len (substring Inputs.small_text 0 12) = 12.
Proof.
  apply (X8_legacy_splitIntoChunks_truncates 0 (mkOptions 12 12)
           Inputs.small_text).
  - cbn. lia.
  - cbn. lia.
  - vm_compute. reflexivity.
Defined.

End LegacySplitFacts.

(** ** The extractor and the repairer, continued *)

Module ExtractRepairFacts.
Import JS Json Spec Repair Content JSFacts ExtractFacts ChunkerFacts
  RepairFacts Samples.

(** X9. What [_extractJsonFromText] returns is a fixed point of it:
    extracting from a candidate gives the candidate again.  A candidate
    has at least two characters and is no longer than the text. *)
Theorem X9_extract_idempotent text candidate :
  _extractJsonFromText text = Some candidate ->
  _extractJsonFromText candidate = Some candidate
  /\ 2 <= len candidate <= len text.
Proof.
  intros H. pose proof (extract_braced _ _ H) as Hb.
  pose proof (match_outer_braces_braced _ Hb) as Hm.
  destruct Hb as [body ->]. split.
  - unfold _extractJsonFromText. cbn [is_empty]. exact Hm.
  - split.
    + unfold len. cbn [List.length]. rewrite length_app. cbn [List.length]. lia.
    + unfold _extractJsonFromText in H.
      destruct (is_empty text); [discriminate|].
      destruct ((indexOf text [LBRACE] >=? 0)
                && (lastIndexOf text [RBRACE] >? indexOf text [LBRACE]));
        [|discriminate].
      injection H as H. rewrite <- H.
      unfold substring, cut, len. rewrite length_firstn, length_skipn.
      unfold clamp, len. lia.
Qed.

Lemma X9_extract_idempotent_witness :
  _extractJsonFromText Inputs.scenario3_json = Some Inputs.scenario3_json
  /\ 2 <= len Inputs.scenario3_json <= len Inputs.scenario3.
Proof.
  apply (X9_extract_idempotent Inputs.scenario3 Inputs.scenario3_json).
  vm_compute. reflexivity.
Defined.

(** *** Repair on texts without double quotes *)

Lemma starts_with_head p pat c s :
  starts_with (p :: pat) (c :: s) = true -> c = p.
Proof.
  cbn [starts_with]. intros H. apply andb_true_iff in H. destruct H as [H _].
  apply N.eqb_eq in H. congruence.
Qed.

Lemma remove_fences_id s : ~ In BACKTICK s -> remove_fences s = s.
Proof.
  unfold remove_fences. induction s as [|c s IH]; intros H; [reflexivity|].
  cbn [remove_fences_skip].
  destruct (starts_with (str "```json") (c :: s)) eqn:E7.
  { exfalso. apply H. left. exact (starts_with_head _ _ _ _ E7). }
  destruct (starts_with (str "```") (c :: s)) eqn:E3.
  { exfalso. apply H. left. exact (starts_with_head _ _ _ _ E3). }
  rewrite IH; [reflexivity|]. intros Hin. apply H. right. exact Hin.
Qed.

Lemma escape_quotes_id s : forall b,
  ~ In DQUOTE s -> escape_quotes_after b s = s.
Proof.
  induction s as [|c s IH]; intros b H; [reflexivity|].
  cbn [escape_quotes_after].
  destruct (N.eqb_spec c DQUOTE) as [->|_]; [exfalso; apply H; left; reflexivity|].
  cbn [andb]. rewrite IH; [reflexivity|]. intros Hin. apply H. right. exact Hin.
Qed.

Lemma collapse_id_bounded n : forall s,
  (List.length s <= n)%nat -> ~ In DQUOTE s -> collapse_double_escapes s = s.
Proof.
  induction n as [|n IH]; intros s Hn H.
  - destruct s; [reflexivity | simpl in Hn; lia].
  - destruct s as [|a [|b [|c rest]]]; [reflexivity | reflexivity | reflexivity |].
    rewrite collapse_unfold.
    destruct (N.eqb_spec c DQUOTE) as [->|_].
    { exfalso. apply H. right. right. left. reflexivity. }
    rewrite !andb_false_r. f_equal.
    apply IH; [simpl in Hn; simpl; lia|].
    intros Hin. apply H. right. exact Hin.
Qed.

Lemma collapse_id s : ~ In DQUOTE s -> collapse_double_escapes s = s.
Proof. apply (collapse_id_bounded (List.length s)). lia. Qed.

Lemma cleaned_of_unquoted jsonStr :
  ~ In DQUOTE jsonStr -> ~ In BACKTICK jsonStr ->
  cleaned_of jsonStr = single_to_double (trim jsonStr).
Proof.
  intros Hq Hb. unfold cleaned_of, escape_quotes.
  rewrite (remove_fences_id _ Hb).
  assert (Ht : ~ In DQUOTE (trim jsonStr))
    by (intros Hin; apply Hq; exact (trim_chars _ _ Hin)).
  rewrite (escape_quotes_id _ _ Ht), (collapse_id _ Ht). reflexivity.
Qed.

(** X10. On a non-empty text without double quote and without
    backtick, [_attemptJsonFix] returns what [JSON.parse] makes of the
    trimmed text with every single quote turned into a double quote,
    whenever that parses: JSON written with single quotes is
    recovered. *)
Theorem X10_repair_recovers_single_quoted jsonStr v :
  jsonStr <> [] ->
  ~ In DQUOTE jsonStr -> ~ In BACKTICK jsonStr ->
  parse (single_to_double (trim jsonStr)) = Some v ->
  _attemptJsonFix jsonStr = v.
Proof.
  intros Hne Hq Hb Hp. unfold _attemptJsonFix.
  destruct jsonStr as [|c s]; [congruence|]. cbn [is_empty].
  rewrite (cleaned_of_unquoted _ Hq Hb), Hp. reflexivity.
Qed.

Lemma X10_repair_recovers_single_quoted_witness :
  _attemptJsonFix single_quoted = object_a1.
Proof.
  apply (X10_repair_recovers_single_quoted single_quoted object_a1).
  - discriminate.
  - apply not_in_forallb. vm_compute. reflexivity.
  - apply not_in_forallb. vm_compute. reflexivity.
  - vm_compute. reflexivity.
Defined.

End ExtractRepairFacts.

(** ** The cleaning of the content *)

Module CleanFacts.
Import JS Content TextShape PipelineFacts.

(** *** Scanners *)

Section ScanFacts.
Context {State : Type}.
Variable step : State -> N -> option State.

Lemma scan_app a : forall st b,
  scan step st (a ++ b)
  = match scan step st a with
    | Some st' => scan step st' b
    | None => None
    end.
Proof.
  induction a as [|c a IH]; intros st b; [reflexivity|].
  cbn [app scan]. destruct (step st c); [apply IH | reflexivity].
Qed.

(** A class of characters that all lead to the same state. *)
Variable resetting : N -> bool.
Variable reset : State.
Hypothesis step_reset :
  forall st c, resetting c = true -> step st c = Some reset.

Lemma scan_resetting w : forall st,
  forallb resetting w = true -> w <> [] -> scan step st w = Some reset.
Proof.
  induction w as [|c w IH]; intros st Hw Hne; [congruence|].
  cbn [forallb] in Hw. apply andb_true_iff in Hw. destruct Hw as [Hc Hw].
  cbn [scan]. rewrite (step_reset st c Hc).
  destruct w as [|c' w]; [reflexivity|]. apply IH; [exact Hw | discriminate].
Qed.

(** Replacing runs of resetting characters by resetting characters does
    not change what the scanner makes of the text. *)
Lemma scan_replace_runs n replacement :
  (0 < n)%nat -> replacement <> [] -> forallb resetting replacement = true ->
  forall s run st,
    forallb resetting run = true ->
    scan step st (replace_runs_from resetting n replacement run s)
    = scan step st (rev run ++ s).
Proof.
  intros Hn Hne Hr.
  assert (Hflush : forall run st,
            forallb resetting run = true ->
            scan step st (flush_run n replacement run)
            = scan step st (rev run)).
  { intros run st Hrun. unfold flush_run.
    destruct (Nat.leb_spec n (List.length run)) as [Hl|_]; [|reflexivity].
    rewrite (scan_resetting replacement st Hr Hne).
    symmetry. apply scan_resetting.
    - rewrite forallb_rev. exact Hrun.
    - intros E. apply (f_equal (@List.length N)) in E.
      rewrite length_rev in E. simpl in E. lia. }
  induction s as [|c s IH]; intros run st Hrun; cbn [replace_runs_from].
  - rewrite app_nil_r. apply Hflush. exact Hrun.
  - destruct (resetting c) eqn:Ec.
    + rewrite IH by (cbn [forallb]; rewrite Ec, Hrun; reflexivity).
      cbn [rev]. rewrite <- app_assoc. reflexivity.
    + rewrite !scan_app, (Hflush run st Hrun).
      destruct (scan step st (rev run)) as [st1|]; [|reflexivity].
      cbn [scan]. destruct (step st1 c) as [st2|]; [|reflexivity].
      apply (IH [] st2). reflexivity.
Qed.

End ScanFacts.

(** *** Runs *)

Lemma run_scan_cons in_class n k c r :
  scan (run_step in_class n) k (c :: r)
  = if in_class c
    then (if (S k <? n)%nat then scan (run_step in_class n) (S k) r else None)
    else scan (run_step in_class n) 0%nat r.
Proof.
  cbn [scan]. unfold run_step at 1.
  destruct (in_class c); [destruct (S k <? n)%nat|]; reflexivity.
Qed.

Lemma run_scan_class in_class n w : forall k,
  forallb in_class w = true ->
  scan (run_step in_class n) k w
  = if (k + List.length w <? n)%nat || (List.length w =? 0)%nat
    then Some (k + List.length w)%nat else None.
Proof.
  induction w as [|c w IH]; intros k Hw.
  - cbn. rewrite orb_true_r, Nat.add_0_r. reflexivity.
  - cbn [forallb] in Hw. apply andb_true_iff in Hw. destruct Hw as [Hc Hw].
    rewrite run_scan_cons, Hc.
    cbn [List.length Nat.eqb]. rewrite orb_false_r.
    destruct (Nat.ltb_spec (S k) n) as [H1|H1].
    + rewrite IH by exact Hw.
      destruct (Nat.ltb_spec (S k + List.length w) n) as [H2|H2].
      * cbn [orb]. destruct (Nat.ltb_spec (k + S (List.length w)) n); [|lia].
        f_equal. lia.
      * destruct (Nat.ltb_spec (k + S (List.length w)) n); [lia|].
        cbn [orb]. destruct w; [simpl in *; lia|]. reflexivity.
    + destruct (Nat.ltb_spec (k + S (List.length w)) n); [lia|]. reflexivity.
Qed.

(** A smaller run before the text only helps. *)
Lemma run_scan_mono in_class n s : forall k k' k1,
  (k' <= k)%nat -> scan (run_step in_class n) k s = Some k1 ->
  exists k1', scan (run_step in_class n) k' s = Some k1' /\ (k1' <= k1)%nat.
Proof.
  induction s as [|c s IH]; intros k k' k1 Hk H.
  - injection H as <-. exists k'. split; [reflexivity | exact Hk].
  - rewrite run_scan_cons in *.
    destruct (in_class c).
    + destruct (Nat.ltb_spec (S k) n) as [H1|H1]; [|discriminate].
      destruct (Nat.ltb_spec (S k') n) as [_|H2]; [|lia].
      apply (IH (S k)); [lia | exact H].
    + exists k1. split; [exact H | lia].
Qed.

(** What [replace_runs] returns has no run of [n] characters of the class,
    provided the replacement has none. *)
Lemma replace_runs_runs_below in_class n replacement :
  (0 < n)%nat -> runs_below in_class n replacement = true ->
  forall s run,
    forallb in_class run = true ->
    exists k, scan (run_step in_class n) 0%nat
                (replace_runs_from in_class n replacement run s) = Some k.
Proof.
  intros Hn Hr.
  assert (Hflush : forall run, forallb in_class run = true ->
            exists k, scan (run_step in_class n) 0%nat
                        (flush_run n replacement run) = Some k).
  { intros run Hrun. unfold flush_run.
    destruct (Nat.leb_spec n (List.length run)) as [Hl|Hl].
    - unfold runs_below, accepts in Hr.
      destruct (scan (run_step in_class n) 0%nat replacement) as [k|];
        [exists k; reflexivity | discriminate].
    - rewrite run_scan_class by (rewrite forallb_rev; exact Hrun).
      rewrite length_rev. cbn [Nat.add].
      destruct (Nat.ltb_spec (List.length run) n); [|lia].
      eexists. reflexivity. }
  induction s as [|c s IH]; intros run Hrun; cbn [replace_runs_from].
  - apply Hflush. exact Hrun.
  - destruct (in_class c) eqn:Ec.
    + apply IH. cbn [forallb]. rewrite Ec, Hrun. reflexivity.
    + rewrite scan_app. destruct (Hflush run Hrun) as [k ->].
      rewrite run_scan_cons, Ec. apply (IH []). reflexivity.
Qed.

(** A text without a run of [n] characters of the class is left as it
    is. *)
Lemma replace_runs_id in_class n replacement s : forall run k,
  scan (run_step in_class n) (List.length run) s = Some k ->
  (List.length run < n)%nat ->
  replace_runs_from in_class n replacement run s = rev run ++ s.
Proof.
  induction s as [|c s IH]; intros run k H Hrun; cbn [replace_runs_from].
  - unfold flush_run. destruct (Nat.leb_spec n (List.length run)); [lia|].
    rewrite app_nil_r. reflexivity.
  - rewrite run_scan_cons in H.
    destruct (in_class c).
    + destruct (Nat.ltb_spec (S (List.length run)) n) as [H1|H1];
        [|discriminate].
      rewrite (IH (c :: run) k H) by (cbn [List.length]; lia).
      cbn [rev]. rewrite <- app_assoc. reflexivity.
    + unfold flush_run. destruct (Nat.leb_spec n (List.length run)); [lia|].
      rewrite (IH [] k H) by (cbn [List.length]; lia). reflexivity.
Qed.

Lemma replace_runs_forallb (P : N -> bool) in_class n replacement :
  forallb P replacement = true ->
  forall s run,
    forallb P run = true -> forallb P s = true ->
    forallb P (replace_runs_from in_class n replacement run s) = true.
Proof.
  intros Hr.
  assert (Hflush : forall run, forallb P run = true ->
            forallb P (flush_run n replacement run) = true).
  { intros run Hrun. unfold flush_run.
    destruct (n <=? List.length run)%nat; [exact Hr|].
    rewrite forallb_rev. exact Hrun. }
  induction s as [|c s IH]; intros run Hrun Hs; cbn [replace_runs_from].
  - apply Hflush. exact Hrun.
  - cbn [forallb] in Hs. apply andb_true_iff in Hs. destruct Hs as [Hc Hs].
    destruct (in_class c).
    + apply IH; [|exact Hs]. cbn [forallb]. rewrite Hc, Hrun. reflexivity.
    + rewrite forallb_app, (Hflush run Hrun). cbn [forallb andb].
      rewrite Hc. apply (IH []); [reflexivity | exact Hs].
Qed.

(** *** Repetitions *)

Lemma repeat_scan_cons in_class n cur c r :
  scan (repeat_step in_class n) cur (c :: r)
  = if in_class c then
      let k := match cur with
               | Some (d, k) => if (c =? d)%N then S k else 1%nat
               | None => 1%nat
               end in
      if (k <? n)%nat then scan (repeat_step in_class n) (Some (c, k)) r
      else None
    else scan (repeat_step in_class n) None r.
Proof.
  cbn [scan]. unfold repeat_step at 1. cbv zeta.
  destruct (in_class c); [|reflexivity].
  destruct (_ <? n)%nat; reflexivity.
Qed.

Lemma repeat_shift (d : N) k (r : jsstring) :
  repeat d k ++ d :: r = repeat d (S k) ++ r.
Proof.
  induction k as [|k IH]; [reflexivity|].
  cbn [repeat app]. rewrite IH. reflexivity.
Qed.

Lemma forallb_repeat (P : N -> bool) d k :
  P d = true -> forallb P (repeat d k) = true.
Proof.
  intros H. induction k as [|k IH]; [reflexivity|].
  cbn [repeat forallb]. rewrite H, IH. reflexivity.
Qed.

(** [limit_repeats] keeps a property of the characters that its marker
    has. *)
Lemma limit_repeats_forallb (P : N -> bool) :
  forallb P marker = true ->
  forall s cur,
    forallb P (pending cur ++ s) = true ->
    forallb P (limit_repeats_from cur s) = true.
Proof.
  intros Hm.
  assert (Hflush : forall cur, forallb P (pending cur) = true ->
            forallb P (flush_repeat cur) = true).
  { intros [[d k]|] H; [|reflexivity]. cbn [flush_repeat pending] in *.
    destruct (Nat.leb_spec 21 k) as [Hk|Hk]; [|exact H].
    destruct k as [|k]; [lia|]. cbn [repeat forallb] in H.
    apply andb_true_iff in H. destruct H as [Hd _].
    rewrite forallb_app. cbn [forallb]. rewrite Hd. exact Hm. }
  induction s as [|c s IH]; intros cur H; cbn [limit_repeats_from].
  - rewrite app_nil_r in H. apply Hflush. exact H.
  - cbv zeta.
    destruct (match cur with Some (d, _) => (c =? d)%N | None => false end)
      eqn:Esame.
    + destruct cur as [[d k]|]; [|discriminate].
      apply N.eqb_eq in Esame. subst d. apply IH.
      cbn [pending] in *. rewrite <- repeat_shift. exact H.
    + rewrite forallb_app in H. apply andb_true_iff in H.
      destruct H as [Hp Hs]. cbn [forallb] in Hs.
      apply andb_true_iff in Hs. destruct Hs as [Hc Hs].
      destruct (is_line_terminator c).
      * rewrite forallb_app, (Hflush cur Hp). cbn [forallb andb].
        rewrite Hc. apply (IH None). exact Hs.
      * rewrite forallb_app, (Hflush cur Hp). cbn [andb].
        apply (IH (Some (c, 1%nat))). cbn [pending repeat app forallb].
        rewrite Hc, Hs. reflexivity.
Qed.

Lemma not_space_reset n st c :
  is_space c = true -> run_step not_space n st c = Some 0%nat.
Proof. intros H. unfold run_step, not_space. rewrite H. reflexivity. Qed.

(** The run held back, cut down or not, leaves a run of characters
    without white space no longer than it found it. *)
Lemma flush_repeat_runs cur k ka :
  scan (run_step not_space 100) k (pending cur) = Some ka ->
  exists kb, scan (run_step not_space 100) k (flush_repeat cur) = Some kb
             /\ (kb <= ka)%nat.
Proof.
  destruct cur as [[d k0]|]; cbn [pending flush_repeat]; intros H;
    [|exists ka; split; [exact H | lia]].
  destruct (Nat.leb_spec 21 k0) as [Hk|Hk]; [|exists ka; split; [exact H | lia]].
  exists 0%nat. split; [|lia]. rewrite scan_app.
  destruct (not_space d) eqn:Ed.
  - rewrite run_scan_class in H by (apply forallb_repeat; exact Ed).
    rewrite repeat_length in H.
    destruct (Nat.ltb_spec (k + k0) 100) as [Hlt|Hge].
    + rewrite (run_scan_class not_space 100 [d; d; d])
        by (cbn [forallb]; rewrite Ed; reflexivity).
      cbn [List.length].
      destruct (Nat.ltb_spec (k + 3) 100); [|lia]. reflexivity.
    + destruct k0; [lia|]. discriminate H.
  - assert (Hs : is_space d = true)
      by (unfold not_space in Ed; destruct (is_space d); [reflexivity | discriminate]).
    rewrite (scan_resetting (run_step not_space 100) is_space 0%nat
               (not_space_reset 100) [d; d; d] k)
      by (first [discriminate | cbn [forallb]; rewrite Hs; reflexivity]).
    reflexivity.
Qed.

(** [limit_repeats] makes no run of characters without white space
    longer. *)
Lemma limit_repeats_runs s : forall cur k k1,
  scan (run_step not_space 100) k (pending cur ++ s) = Some k1 ->
  exists k2, scan (run_step not_space 100) k (limit_repeats_from cur s)
             = Some k2 /\ (k2 <= k1)%nat.
Proof.
  induction s as [|c s IH]; intros cur k k1 H; cbn [limit_repeats_from].
  - rewrite app_nil_r in H. apply flush_repeat_runs. exact H.
  - cbv zeta.
    destruct (match cur with Some (d, _) => (c =? d)%N | None => false end)
      eqn:Esame.
    + destruct cur as [[d k0]|]; [|discriminate].
      apply N.eqb_eq in Esame. subst d. apply IH.
      cbn [pending] in *. rewrite <- repeat_shift. exact H.
    + rewrite scan_app in H.
      destruct (scan (run_step not_space 100) k (pending cur)) as [ka|] eqn:Ea;
        [|discriminate].
      destruct (flush_repeat_runs cur k ka Ea) as [kb [Eb Hb]].
      destruct (is_line_terminator c) eqn:Elt.
      * rewrite scan_app, Eb.
        assert (Hs : is_space c = true).
        { unfold is_line_terminator in Elt. unfold is_space.
          repeat (apply orb_true_iff in Elt; destruct Elt as [Elt|Elt]);
            apply N.eqb_eq in Elt; subst c; reflexivity. }
        rewrite run_scan_cons in *. unfold not_space in *. rewrite Hs in *.
        cbn [negb] in *. apply (IH None). exact H.
      * rewrite scan_app, Eb.
        destruct (run_scan_mono not_space 100 (c :: s) ka kb k1 Hb H)
          as [k1' [H' Hk1]].
        destruct (IH (Some (c, 1%nat)) kb k1' H') as [k2 [E2 Hk2]].
        exists k2. split; [exact E2 | lia].
Qed.

Lemma line_terminator_space c :
  is_line_terminator c = true -> is_space c = true.
Proof.
  intros Elt. unfold is_line_terminator in Elt. unfold is_space.
  repeat (apply orb_true_iff in Elt; destruct Elt as [Elt|Elt]);
    apply N.eqb_eq in Elt; subst c; reflexivity.
Qed.

Lemma not_space_repeat_reset n st c :
  is_space c = true -> repeat_step not_space n st c = Some None.
Proof. intros H. unfold repeat_step, not_space. rewrite H. reflexivity. Qed.

(** Copies of a character of the class, after [j] of them. *)
Lemma repeat_scan_copies in_class n d m : forall j,
  in_class d = true -> (0 < j)%nat -> (j + m < n)%nat ->
  scan (repeat_step in_class n) (Some (d, j)) (repeat d m)
  = Some (Some (d, (j + m)%nat)).
Proof.
  induction m as [|m IH]; intros j Hd Hj Hn.
  - cbn. rewrite Nat.add_0_r. reflexivity.
  - cbn [repeat]. rewrite repeat_scan_cons, Hd. cbv zeta.
    rewrite N.eqb_refl. destruct (Nat.ltb_spec (S j) n); [|lia].
    rewrite IH by (try assumption; lia). do 3 f_equal. lia.
Qed.

Lemma flush_repeat_repeats cur st :
  apart st cur ->
  exists st1,
    scan (repeat_step not_space 21) st (flush_repeat cur) = Some st1
    /\ (st1 = None \/ (st1 = cur /\ cur <> None)).
Proof.
  destruct cur as [[d k]|]; cbn [apart flush_repeat].
  - intros [Hk Hst].
    assert (Hfirst : forall r,
              not_space d = true ->
              scan (repeat_step not_space 21) st (d :: r)
              = scan (repeat_step not_space 21) (Some (d, 1%nat)) r).
    { intros r Hd. rewrite repeat_scan_cons, Hd. cbv zeta.
      destruct st as [[d' j]|]; [|reflexivity].
      destruct (N.eqb_spec d d') as [E|_]; [congruence | reflexivity]. }
    destruct (Nat.leb_spec 21 k) as [Hl|Hl].
    + exists None. split; [|left; reflexivity]. rewrite scan_app.
      destruct (not_space d) eqn:Ed.
      * rewrite Hfirst by reflexivity. change [d; d] with (repeat d 2).
        rewrite (repeat_scan_copies not_space 21 d 2 1 Ed) by lia.
        reflexivity.
      * assert (Hs : is_space d = true)
          by (unfold not_space in Ed; destruct (is_space d);
              [reflexivity | discriminate]).
        rewrite (scan_resetting (repeat_step not_space 21) is_space None
                   (not_space_repeat_reset 21) [d; d; d] st)
          by (first [discriminate | cbn [forallb]; rewrite Hs; reflexivity]).
        reflexivity.
    + destruct (not_space d) eqn:Ed.
      * exists (Some (d, k)). split; [|right; split; [reflexivity | discriminate]].
        destruct k as [|k]; [lia|]. cbn [repeat]. rewrite Hfirst by reflexivity.
        rewrite repeat_scan_copies by (try assumption; lia). reflexivity.
      * assert (Hs : is_space d = true)
          by (unfold not_space in Ed; destruct (is_space d);
              [reflexivity | discriminate]).
        exists None. split; [|left; reflexivity].
        apply (scan_resetting (repeat_step not_space 21) is_space None
                 (not_space_repeat_reset 21)).
        -- apply forallb_repeat. exact Hs.
        -- destruct k; [lia | discriminate].
  - intros ->. exists None. split; [reflexivity | left; reflexivity].
Qed.

(** What [limit_repeats] returns has no character other than white
    space twenty-one times in a row. *)
Lemma limit_repeats_repeats s : forall cur st,
  apart st cur ->
  exists st', scan (repeat_step not_space 21) st (limit_repeats_from cur s)
              = Some st'.
Proof.
  induction s as [|c s IH]; intros cur st Hap; cbn [limit_repeats_from].
  - destruct (flush_repeat_repeats cur st Hap) as [st1 [E _]].
    exists st1. exact E.
  - cbv zeta.
    destruct (match cur with Some (d, _) => (c =? d)%N | None => false end)
      eqn:Esame.
    + destruct cur as [[d k]|]; [|discriminate].
      apply IH. cbn [apart] in *. destruct Hap as [Hk Hst].
      split; [lia | exact Hst].
    + destruct (flush_repeat_repeats cur st Hap) as [st1 [E Hst1]].
      destruct (is_line_terminator c) eqn:Elt.
      * rewrite scan_app, E. rewrite repeat_scan_cons.
        unfold not_space at 1. rewrite (line_terminator_space c Elt).
        cbn [negb]. apply (IH None). reflexivity.
      * rewrite scan_app, E. apply IH. cbn [apart]. split; [lia|].
        destruct Hst1 as [->|[-> Hne]]; [exact I|].
        destruct cur as [[d k]|]; [|congruence].
        intros Heq. subst d. rewrite N.eqb_refl in Esame. discriminate.
Qed.

(** A text in which no character other than a line terminator comes
    twenty-one times in a row is left as it is. *)
Lemma limit_repeats_id s : forall cur st',
  match cur with
  | Some (d, k) => is_line_terminator d = false /\ (0 < k < 21)%nat
  | None => True
  end ->
  scan (repeat_step not_line_terminator 21) cur s = Some st' ->
  limit_repeats_from cur s = pending cur ++ s.
Proof.
  induction s as [|c s IH]; intros cur st' Hcur H; cbn [limit_repeats_from].
  - rewrite app_nil_r. destruct cur as [[d k]|]; [|reflexivity].
    cbn [flush_repeat pending]. destruct (Nat.leb_spec 21 k); [lia|].
    reflexivity.
  - cbv zeta. rewrite repeat_scan_cons in H. cbv zeta in H.
    assert (Hflush : flush_repeat cur = pending cur).
    { destruct cur as [[d k]|]; [|reflexivity].
      cbn [flush_repeat pending]. destruct (Nat.leb_spec 21 k); [lia|].
      reflexivity. }
    destruct (match cur with Some (d, _) => (c =? d)%N | None => false end)
      eqn:Esame.
    + destruct cur as [[d k]|]; [|discriminate].
      apply N.eqb_eq in Esame. subst d. destruct Hcur as [Hd Hk].
      unfold not_line_terminator in H at 1. rewrite Hd in H. cbn [negb] in H.
      rewrite N.eqb_refl in H.
      destruct (Nat.ltb_spec (S k) 21) as [Hlt|_]; [|discriminate].
      rewrite (IH (Some (c, S k)) st') by first [exact H | split; [exact Hd | lia]].
      cbn [pending]. symmetry. apply repeat_shift.
    + rewrite Hflush. unfold not_line_terminator in H at 1.
      destruct (is_line_terminator c) eqn:Elt; cbn [negb] in H.
      * rewrite (IH None st' I H). reflexivity.
      * assert (Hk : match cur with
                     | Some (d, k) => if (c =? d)%N then S k else 1%nat
                     | None => 1%nat
                     end = 1%nat).
        { destruct cur as [[d k]|]; [|reflexivity]. rewrite Esame. reflexivity. }
        rewrite Hk in H. cbn [Nat.ltb Nat.leb] in H.
        rewrite (IH (Some (c, 1%nat)) st') by first [exact H | split; [exact Elt | lia]].
        reflexivity.
Qed.

(** White space in runs shorter than three and other characters fewer
    than twenty-one times in a row: then no character but a line
    terminator comes twenty-one times in a row. *)
Lemma repeats_bridge s : forall k cur cur2 k' cur',
  in_step k cur cur2 ->
  scan (run_step is_space 3) k s = Some k' ->
  scan (repeat_step not_space 21) cur s = Some cur' ->
  exists cur2', scan (repeat_step not_line_terminator 21) cur2 s = Some cur2'.
Proof.
  induction s as [|c s IH]; intros k cur cur2 k' cur' Hin Hk Hc.
  - eexists. reflexivity.
  - rewrite run_scan_cons in Hk. rewrite repeat_scan_cons in Hc.
    rewrite repeat_scan_cons. cbv zeta in *. unfold not_space in Hc at 1.
    unfold not_line_terminator at 1.
    destruct (is_space c) eqn:Es; cbn [negb] in Hc.
    + destruct (Nat.ltb_spec (S k) 3) as [Hlt|_]; [|discriminate].
      destruct (is_line_terminator c) eqn:Elt; cbn [negb].
      * apply (IH (S k) None None k' cur'); [|exact Hk | exact Hc].
        left. split; [reflexivity | exact I].
      * set (j := match cur2 with
                  | Some (d, k0) => if (c =? d)%N then S k0 else 1%nat
                  | None => 1%nat
                  end).
        assert (Hj : (j <= S k)%nat).
        { unfold j. destruct Hin as [[-> Hd]|[-> [d [j0 [-> [Hd Hj0]]]]]].
          - destruct cur as [[d k0]|]; [|lia].
            destruct (N.eqb_spec c d) as [->|_]; [congruence | lia].
          - destruct (c =? d)%N; lia. }
        destruct (Nat.ltb_spec j 21) as [_|Hge]; [|lia].
        apply (IH (S k) None (Some (c, j)) k' cur'); [|exact Hk | exact Hc].
        right. split; [reflexivity|]. exists c, j.
        split; [reflexivity|]. split; [exact Es | exact Hj].
    + assert (Elt : is_line_terminator c = false).
      { destruct (is_line_terminator c) eqn:E; [|reflexivity].
        apply line_terminator_space in E. congruence. }
      rewrite Elt. cbn [negb].
      set (j := match cur with
                | Some (d, k0) => if (c =? d)%N then S k0 else 1%nat
                | None => 1%nat
                end) in *.
      assert (Hj : match cur2 with
                   | Some (d, k0) => if (c =? d)%N then S k0 else 1%nat
                   | None => 1%nat
                   end = j).
      { unfold j. destruct Hin as [[-> Hd]|[-> [d [j0 [-> [Hd Hj0]]]]]].
        - reflexivity.
        - destruct (N.eqb_spec c d) as [->|_]; [congruence | reflexivity]. }
      rewrite Hj.
      destruct (Nat.ltb_spec j 21) as [Hlt|_]; [|discriminate].
      apply (IH 0%nat (Some (c, j)) (Some (c, j)) k' cur'); [|exact Hk | exact Hc].
      left. split; [reflexivity | exact Es].
Qed.

(** *** The cleaned text *)

Lemma clean_unfold text :
  _cleanTextContent text
  = replace_runs is_space 3 [LF; LF]
      (limit_repeats
         (replace_runs not_space 100 (str "[BINARY DATA REMOVED]")
            (filter not_control text))).
Proof. destruct text; reflexivity. Qed.

(** What [_cleanTextContent] returns is tidy. *)
Lemma cleaned_tidy text : tidy (_cleanTextContent text).
Proof.
  rewrite clean_unfold.
  set (w := filter not_control text).
  set (v := replace_runs not_space 100 (str "[BINARY DATA REMOVED]") w).
  set (u := limit_repeats v).
  assert (H1w : forallb not_control w = true) by apply forallb_filter.
  assert (H1v : forallb not_control v = true).
  { apply replace_runs_forallb; [reflexivity | reflexivity | exact H1w]. }
  assert (H1u : forallb not_control u = true).
  { apply limit_repeats_forallb; [reflexivity | exact H1v]. }
  destruct (replace_runs_runs_below not_space 100 (str "[BINARY DATA REMOVED]")
              ltac:(lia) eq_refl w [] eq_refl) as [kv H2v].
  fold (replace_runs not_space 100 (str "[BINARY DATA REMOVED]") w) in H2v.
  fold v in H2v.
  destruct (limit_repeats_runs v None 0%nat kv H2v) as [ku [H2u _]].
  fold (limit_repeats v) in H2u. fold u in H2u.
  destruct (limit_repeats_repeats v None None eq_refl) as [cu H3u].
  fold (limit_repeats v) in H3u. fold u in H3u.
  destruct (replace_runs_runs_below is_space 3 [LF; LF]
              ltac:(lia) eq_refl u [] eq_refl) as [kt H4].
  fold (replace_runs is_space 3 [LF; LF] u) in H4.
  set (t := replace_runs is_space 3 [LF; LF] u) in *.
  assert (H2 : scan (run_step not_space 100) 0%nat t = Some ku).
  { unfold t, replace_runs.
    rewrite (scan_replace_runs (run_step not_space 100) is_space 0%nat
               (not_space_reset 100) 3 [LF; LF])
      by first [lia | discriminate | reflexivity].
    exact H2u. }
  assert (H3 : scan (repeat_step not_space 21) None t = Some cu).
  { unfold t, replace_runs.
    rewrite (scan_replace_runs (repeat_step not_space 21) is_space None
               (not_space_repeat_reset 21) 3 [LF; LF])
      by first [lia | discriminate | reflexivity].
    exact H3u. }
  split; [|split; [|split]].
  - apply replace_runs_forallb; [reflexivity | reflexivity | exact H1u].
  - unfold runs_below, accepts. rewrite H2. reflexivity.
  - destruct (repeats_bridge t 0%nat None None kt cu
                ltac:(left; split; [reflexivity | exact I]) H4 H3)
      as [c2 Hb].
    unfold repeats_below, accepts. rewrite Hb. reflexivity.
  - unfold runs_below, accepts. rewrite H4. reflexivity.
Qed.

(** A tidy text is left as it is. *)
Lemma tidy_fixed text : tidy text -> _cleanTextContent text = text.
Proof.
  intros [H1 [H2 [H3 H4]]]. rewrite clean_unfold.
  rewrite (forallb_filter_id not_control text H1).
  unfold runs_below, repeats_below, accepts in *.
  destruct (scan (run_step not_space 100) 0%nat text) as [k2|] eqn:E2;
    [|discriminate].
  destruct (scan (repeat_step not_line_terminator 21) None text) as [c3|] eqn:E3;
    [|discriminate].
  destruct (scan (run_step is_space 3) 0%nat text) as [k4|] eqn:E4;
    [|discriminate].
  unfold replace_runs at 2.
  rewrite (replace_runs_id not_space 100 _ text [] k2 E2)
    by (cbn [List.length]; lia).
  cbn [rev app]. unfold limit_repeats.
  rewrite (limit_repeats_id text None c3 I E3). cbn [pending app].
  unfold replace_runs.
  rewrite (replace_runs_id is_space 3 _ text [] k4 E4)
    by (cbn [List.length]; lia).
  reflexivity.
Qed.

(** X15. What [_cleanTextContent] returns holds none of the things its
    four replacements remove: no control character, no hundred characters
    in a row without white space, no character other than a line
    terminator twenty-one times in a row, and no three white space
    characters in a row. *)
Theorem X15_cleaned_text_is_tidy text :
  let cleaned := _cleanTextContent text in
  forallb not_control cleaned = true
  /\ runs_below not_space 100 cleaned = true
  /\ repeats_below not_line_terminator 21 cleaned = true
  /\ runs_below is_space 3 cleaned = true.
Proof. exact (cleaned_tidy text). Qed.

(** X16. [_cleanTextContent] is idempotent: cleaning a cleaned text
    changes nothing. *)
Theorem X16_clean_idempotent text :
  _cleanTextContent (_cleanTextContent text) = _cleanTextContent text.
Proof. apply tidy_fixed, cleaned_tidy. Qed.

End CleanFacts.

(** ** The content check and the calls of the orchestrator *)

Module ContentFacts.
Import JS Json Spec Repair Content DocAnalyzer JSFacts ChunkerFacts
  PipelineFacts PieceFacts Script Answers Samples.

(** The verdict is computed from the first thousand characters. *)
Lemma isBinary_prefix text :
  _isBinaryContent text = _isBinaryContent (firstn 1000 text).
Proof.
  unfold _isBinaryContent.
  destruct text as [|c text]; [reflexivity|].
  change (firstn 1000 (c :: text)) with (c :: firstn 999 text).
  cbn [is_empty].
  change (c :: firstn 999 text) with (firstn 1000 (c :: text)).
  set (t := c :: text).
  assert (Hs : Z.min (len (firstn 1000 t)) 1000 = Z.min (len t) 1000).
  { unfold len. rewrite length_firstn. lia. }
  rewrite Hs.
  assert (Hf : firstn (Z.to_nat (Z.min (len t) 1000)) (firstn 1000 t)
               = firstn (Z.to_nat (Z.min (len t) 1000)) t).
  { rewrite firstn_firstn. f_equal. unfold len. lia. }
  rewrite Hf.
  rewrite !substring_prefix by lia.
  rewrite firstn_firstn. reflexivity.
Qed.

(** X11. The verdict of [_isBinaryContent] depends on the first thousand
    characters only: two texts that agree on them get the same verdict. *)
Theorem X11_isBinary_reads_first_thousand a b :
  firstn 1000 a = firstn 1000 b -> _isBinaryContent a = _isBinaryContent b.
Proof.
  intros H. rewrite (isBinary_prefix a), (isBinary_prefix b), H. reflexivity.
Qed.

Lemma X11_isBinary_reads_first_thousand_witness :
  _isBinaryContent thousand_then_text = _isBinaryContent thousand_then_controls.
Proof.
  apply (X11_isBinary_reads_first_thousand thousand_then_text
           thousand_then_controls).
  vm_compute. reflexivity.
Defined.

Section Pipeline.
Context {Options World : Type}.
Variable llm_query :
  World -> jsstring -> jsstring -> QueryOptions Options -> Outcome * World.
Variable JSON_stringify : list JSON -> jsstring.

(** X12. A document whose content has one of the signatures [%PDF-],
    [PK], [ID3], [GIF], [PNG], [JFIF], [BM], [MZ] anywhere in its first
    twenty characters is taken for binary, and [analyzeDocument] returns
    the failure [Invalid or binary content detected] without a single
    call of the model. *)
Theorem X12_signature_rejected document sig analysisType options
    (st : St Options World) :
  In sig binarySignatures ->
  includes (substring (_extractContent document) 0 20) sig = true ->
  _isBinaryContent (_extractContent document) = true
  /\ analyzeDocument llm_query JSON_stringify document analysisType options st
     = (invalid_content, st).
Proof.
  intros Hsig Hinc.
  assert (Hb : _isBinaryContent (_extractContent document) = true).
  { unfold _isBinaryContent.
    destruct (is_empty (_extractContent document)); [reflexivity|].
    cbv zeta. destruct (_ >? _); [reflexivity|].
    apply existsb_exists. exists sig. split; assumption. }
  split; [exact Hb|].
  apply analyze_rejected. unfold acceptable. rewrite Hb, orb_true_r.
  reflexivity.
Qed.

(** The calls of the chunk analyses, in the order of the chunks. *)
Lemma analyze_chunks_calls analysisType options chunks :
  forall (st : St Options World) results st',
    analyze_chunks llm_query chunks analysisType options st
    = (Ret results, st') ->
    calls st' = calls st ++ map (fun chunk => chunk_call chunk options) chunks.
Proof.
  induction chunks as [|chunk chunks IH]; intros st results st' H.
  - injection H as _ <-. rewrite app_nil_r. reflexivity.
  - unfold analyze_chunks in H. cbn [all] in H. unfold bind at 1 in H.
    rewrite analyzeChunk_eq in H. unfold bind at 1 in H.
    destruct (analyzeChunks_total llm_query analysisType options chunks
                (called llm_query st (chunk_call chunk options)))
      as [rs [st'' [E _]]].
    unfold analyze_chunks in E. rewrite E in H. injection H as _ <-.
    rewrite (IH _ _ _ E). unfold called. cbn [calls map].
    rewrite <- app_assoc. reflexivity.
Qed.

(** X13. On a document that passes the content check,
    [analyzeDocument] calls the model for the test, then once for each
    chunk of the cleaned content, in the order of the chunks, and then,
    when there are several chunks and at least one valid chunk result,
    once more to merge the valid results; it makes no other call. *)
Theorem X13_analyzeDocument_calls document analysisType options
    (st : St Options World) :
  acceptable document = true ->
  exists chunkResults st2,
    analyze_chunks llm_query (chunks_of document) analysisType options
      (called llm_query st test_call) = (Ret chunkResults, st2)
    /\ List.length chunkResults = List.length (chunks_of document)
    /\ calls (snd (analyzeDocument llm_query JSON_stringify document
                     analysisType options st))
       = calls st
         ++ test_call
            :: map (fun chunk => chunk_call chunk options) (chunks_of document)
         ++ (if (List.length (chunks_of document) =? 1)%nat
                || (List.length (filter is_valid chunkResults) =? 0)%nat
             then []
             else [synthesis_call JSON_stringify
                     (filter is_valid chunkResults) analysisType
                     (content_of document)]).
Proof.
  intros Hacc.
  destruct (analyzeChunks_total llm_query analysisType options
              (chunks_of document) (called llm_query st test_call))
    as [results [st2 [E Hl]]].
  exists results, st2. split; [exact E|]. split; [exact Hl|].
  pose proof (analyze_chunks_calls _ _ _ _ _ _ E) as Hc.
  unfold called at 1 in Hc. cbn [calls] in Hc.
  rewrite (analyze_acceptable _ _ _ _ _ _ _ _ Hacc E).
  destruct (List.length (chunks_of document) =? 1)%nat.
  - cbn [snd orb]. rewrite Hc, app_nil_r, <- app_assoc. reflexivity.
  - cbn [orb].
    destruct (filter is_valid results) as [|v valid] eqn:Ev.
    + rewrite synthesize_no_valid by exact Ev. cbn [snd List.length Nat.eqb].
      rewrite Hc, app_nil_r, <- app_assoc. reflexivity.
    + rewrite synthesize_eq by (rewrite Ev; discriminate). rewrite Ev.
      cbn [List.length Nat.eqb].
      assert (Hgoal : forall st3 : St Options World,
        calls st3 = calls st2
          ++ [synthesis_call JSON_stringify (v :: valid) analysisType
                (content_of document)] ->
        calls st3 = calls st ++ test_call
          :: map (fun chunk => chunk_call chunk options) (chunks_of document)
          ++ [synthesis_call JSON_stringify (v :: valid) analysisType
                (content_of document)]).
      { intros st3 ->. rewrite Hc, <- !app_assoc. reflexivity. }
      destruct (outcome_of llm_query st2 _) as [response|e].
      * cbn [snd]. apply Hgoal. reflexivity.
      * destruct (basicCombine_throws (World := World) (v :: valid)
                    analysisType
                    (called llm_query st2
                       (synthesis_call JSON_stringify (v :: valid)
                          analysisType (content_of document)))) as [err ->].
        cbn [snd]. apply Hgoal. reflexivity.
Qed.

Lemma unusable_invalid outcome :
  unusable outcome -> is_valid (chunk_result_of outcome) = false.
Proof.
  destruct outcome as [response|e]; cbn [unusable chunk_result_of].
  - intros H. unfold chunk_result_of_response.
    rewrite blank_all_space, H. reflexivity.
  - intros H. destruct (message e) as [|c m] eqn:E; [congruence|].
    reflexivity.
Qed.

Lemma analyze_chunks_unusable analysisType options chunks :
  (forall w sys usr o, unusable (fst (llm_query w sys usr o))) ->
  forall (st : St Options World) results st',
    analyze_chunks llm_query chunks analysisType options st
    = (Ret results, st') ->
    filter is_valid results = [].
Proof.
  intros Hu. induction chunks as [|chunk chunks IH]; intros st results st' H.
  - injection H as <- _. reflexivity.
  - unfold analyze_chunks in H. cbn [all] in H. unfold bind at 1 in H.
    rewrite analyzeChunk_eq in H. unfold bind at 1 in H.
    destruct (analyzeChunks_total llm_query analysisType options chunks
                (called llm_query st (chunk_call chunk options)))
      as [rs [st'' [E _]]].
    unfold analyze_chunks in E. rewrite E in H. injection H as <- _.
    cbn [filter]. rewrite unusable_invalid by (unfold outcome_of; apply Hu).
    exact (IH _ _ _ E).
Qed.

(** X14. When the model never gives a usable answer (each call returns
    blank text or throws an error with a message), the analysis of a
    document of several chunks still ends with [success == true]: the data
    is the object with the error [No valid analysis results to synthesize],
    and no merge call is made. *)
Theorem X14_all_chunks_failed_is_success document analysisType options
    (st : St Options World) :
  acceptable document = true ->
  List.length (chunks_of document) <> 1%nat ->
  (forall w sys usr o, unusable (fst (llm_query w sys usr o))) ->
  let result :=
    analyzeDocument llm_query JSON_stringify document analysisType options st in
  fst result
  = mkEnvelope true no_valid_results None
      (Some (mkMeta analysisType (List.length (chunks_of document))
               (len (content_of document)) (Some (documentName_of document))))
  /\ calls (snd result)
     = calls st
       ++ test_call
          :: map (fun chunk => chunk_call chunk options) (chunks_of document).
Proof.
  intros Hacc Hlen Hu. cbv zeta.
  destruct (analyzeChunks_total llm_query analysisType options
              (chunks_of document) (called llm_query st test_call))
    as [results [st2 [E Hl]]].
  pose proof (analyze_chunks_unusable _ _ _ Hu _ _ _ E) as Hv.
  pose proof (analyze_chunks_calls _ _ _ _ _ _ E) as Hc.
  unfold called at 1 in Hc. cbn [calls] in Hc.
  rewrite (analyze_acceptable _ _ _ _ _ _ _ _ Hacc E).
  apply Nat.eqb_neq in Hlen. rewrite Hlen.
  rewrite synthesize_no_valid by exact Hv. cbn [fst snd].
  split; [reflexivity|]. rewrite Hc, <- app_assoc. reflexivity.
Qed.

End Pipeline.

Lemma X12_signature_rejected_witness :
  _isBinaryContent (_extractContent ibm_report) = true
  /\ analyzeDocument play no_stringify ibm_report (str "comprehensive") tt
       (start [])
     = (invalid_content, start []).
Proof.
  apply (X12_signature_rejected play no_stringify ibm_report (str "BM")).
  - do 6 right. left. reflexivity.
  - vm_compute. reflexivity.
Defined.

Lemma X13_analyzeDocument_calls_witness :
  exists chunkResults st2,
    analyze_chunks play (chunks_of long_doc) (str "comprehensive") tt
      (called play
         (start [Returned titleX; Returned titleX; Returned titleX;
                 Returned titleX])
         test_call)
    = (Ret chunkResults, st2)
    /\ List.length chunkResults = List.length (chunks_of long_doc)
    /\ calls (snd (analyzeDocument play no_stringify long_doc
                     (str "comprehensive") tt
                     (start [Returned titleX; Returned titleX;
                             Returned titleX; Returned titleX])))
       = calls (start [Returned titleX; Returned titleX; Returned titleX;
                       Returned titleX])
         ++ test_call
            :: map (fun chunk => chunk_call chunk tt) (chunks_of long_doc)
         ++ (if (List.length (chunks_of long_doc) =? 1)%nat
                || (List.length (filter is_valid chunkResults) =? 0)%nat
             then []
             else [synthesis_call no_stringify
                     (filter is_valid chunkResults) (str "comprehensive")
                     (content_of long_doc)]).
Proof.
  apply (X13_analyzeDocument_calls play no_stringify long_doc
           (str "comprehensive") tt
           (start [Returned titleX; Returned titleX; Returned titleX;
                   Returned titleX])).
  vm_compute. reflexivity.
Defined.

Lemma X14_all_chunks_failed_is_success_witness :
  fst (analyzeDocument silent no_stringify long_doc (str "comprehensive") tt
         (mkSt tt []))
  = mkEnvelope true no_valid_results None meta_long
  /\ calls (snd (analyzeDocument silent no_stringify long_doc
                   (str "comprehensive") tt (mkSt tt [])))
     = [] ++ test_call
          :: map (fun chunk => chunk_call chunk tt) (chunks_of long_doc).
Proof.
  assert (Hacc : acceptable long_doc = true) by (vm_compute; reflexivity).
  assert (Hlen : List.length (chunks_of long_doc) <> 1%nat)
    by (vm_compute; discriminate).
  assert (Hu : forall w sys usr o, unusable (fst (silent w sys usr o)))
    by (intros w sys usr o; reflexivity).
  destruct (X14_all_chunks_failed_is_success silent no_stringify long_doc
              (str "comprehensive") tt (mkSt tt []) Hacc Hlen Hu)
    as [Henv Hcalls].
  split; [|exact Hcalls].
  rewrite Henv. vm_compute. reflexivity.
Defined.

End ContentFacts.

(** ** The two services and their callers *)

Module ServiceFacts.
Import JS Json DocAnalyzer Service Callers Traces DivergenceFacts Samples.

Lemma or_number_not_zero a b :
  num_is_zero b = false -> num_is_zero (or_number a b) = false.
Proof.
  intros Hb. unfold or_number. destruct a as [n|]; [|exact Hb].
  destruct (num_is_zero n) eqn:E; [exact Hb | exact E].
Qed.

Lemma or_count_not_zero a b : b <> 0 -> or_count a b <> 0.
Proof.
  intros Hb. unfold or_count. destruct a as [n|]; [|exact Hb].
  destruct (Z.eqb_spec n 0); assumption.
Qed.

Lemma or_string_not_empty a b : b <> [] -> or_string a b <> [].
Proof.
  intros Hb. unfold or_string. destruct a as [s|]; [|exact Hb].
  destruct s; [exact Hb | discriminate].
Qed.

Section Client.
Context {World : Type}.
Variable create : World -> Request -> Completion * World.

(** X17. The [query] of the later service, on an instance made by the
    constructor, makes one request with the system and the user message
    and no response format; its temperature and its [max_tokens] are
    never zero and its model is never empty, since a zero or an empty
    string in the options gives way to the default.  It resolves to the
    content of the response, or to the empty string when there is none,
    and throws what the client throws. *)
Theorem X17_query_never_sends_zero config w systemPrompt userPrompt options :
  exists request,
    Service.query World create (constructor config) w systemPrompt userPrompt
      options
    = (match fst (create w request) with
       | Answered content => Resolved (Text (or_string content []))
       | Malformed => Resolved (Text [])
       | Refused e => Rejected (mkError (api_message e))
       end,
       snd (create w request))
    /\ req_messages request
       = [system_message systemPrompt; user_message userPrompt]
    /\ num_is_zero (req_temperature request) = false
    /\ req_max_tokens request <> 0
    /\ req_model request <> []
    /\ req_response_format request = None.
Proof.
  unfold Service.query. cbv zeta.
  match goal with |- context [create w ?r] => exists r end. split.
  - destruct (create w _) as [[content| |e] w']; reflexivity.
  - cbn [req_messages req_temperature req_max_tokens req_model
         req_response_format constructor model this_maxTokens
         defaultTemperature].
    split; [reflexivity|]. split; [|split; [|split]].
    + apply or_number_not_zero, or_number_not_zero. vm_compute. reflexivity.
    + apply or_count_not_zero, or_count_not_zero. lia.
    + apply or_string_not_empty. discriminate.
    + reflexivity.
Qed.

End Client.

Section Calls.
Context {World : Type}.
Variable service_query :
  World -> jsstring -> jsstring -> ServiceOptions -> Answer * World.
Variable to_string : JSON -> jsstring.
Variable first_rejected : list Error -> Error.

(** X18. [processLongText] never returns on a text longer than
    [chunkSize] (10000 when not given) unless an [overlapSize] of zero or
    less is given: with the default overlap of 500, or any positive one,
    the loop of [_splitTextIntoChunks] never ends, whatever the service
    answers. *)
Theorem X18_processLongText_hangs this systemPrompt longText options :
  let chunkSize :=
    match opt_chunkSize options with Some n => n | None => 10000 end in
  0 <= chunkSize < len longText ->
  match opt_overlapSize options with Some n => 0 < n | None => True end ->
  forall fuel (st : St ServiceOptions World),
    processLongText service_query to_string fuel this systemPrompt longText
      options st = None.
Proof.
  cbv zeta. intros Hlen Hov fuel st. unfold processLongText. cbv zeta.
  destruct (Z.leb_spec (len longText)
              (match opt_chunkSize options with Some n => n | None => 10000 end));
    [lia|].
  unfold LLMService._splitTextIntoChunks.
  rewrite LLMService_loop_diverges; [reflexivity | | lia].
  destruct (opt_overlapSize options); lia.
Qed.

(** X19. The [analyzeDocument] of the earlier analyzer never returns
    on a document longer than [maxChunkSize] when
    [0 < overlapSize < maxChunkSize], as with the default 4000 and 200:
    the loop of its chunker never ends, and no query is made. *)
Theorem X19_legacy_analyzeDocument_hangs options document :
  0 < overlapSize options < maxChunkSize options ->
  maxChunkSize options < len document ->
  forall fuel (st : St ServiceOptions World),
    analyzeDocument service_query to_string first_rejected fuel options
      document st = None.
Proof.
  intros Hov Hlen fuel st. unfold analyzeDocument.
  rewrite Legacy_diverges by assumption. reflexivity.
Qed.

(** X20. On a document of at most [maxChunkSize] characters, the empty
    document included, the [analyzeDocument] of the earlier analyzer makes
    exactly one query, with the whole document in the user prompt and no
    options.  When the result has a truthy [success], the envelope is a
    success whose data is the [data] of the result, with a chunk count of
    1; otherwise it is the failure [Chunk analysis failed: ] followed by
    the error of the result, or by [Unknown error]; and when the query
    throws, it is the failure with the message of the exception. *)
Theorem X20_legacy_analyzeDocument_short options document fuel
    (st : St ServiceOptions World) :
  len document <= maxChunkSize options ->
  let call :=
    mkCall analyst_systemPrompt (analyst_userPrompt document)
      (CallerOptions no_options) in
  let answer :=
    service_query (world st) analyst_systemPrompt (analyst_userPrompt document)
      no_options in
  analyzeDocument service_query to_string first_rejected fuel options
    document st
  = Some (match fst answer with
          | Resolved result =>
              if truthy_opt (prop "success" result)
              then Analysed (prop "data" result) 1 (len document)
              else NotAnalysed
                     (str "Chunk analysis failed: "
                      ++ or_text to_string (prop "error" result)
                           (str "Unknown error"))
          | Rejected e => NotAnalysed (message e)
          end,
          mkSt (snd answer) (calls st ++ [call])).
Proof.
  intros Hlen. cbv zeta. unfold analyzeDocument.
  unfold LegacyDocAnalyzer._splitIntoChunks.
  destruct (Z.leb_spec (len document) (maxChunkSize options)); [|lia].
  unfold bind, promise_all. cbn [start_all].
  unfold _analyzeChunk at 1, bind, Callers.query.
  destruct (service_query (world st) analyst_systemPrompt
              (analyst_userPrompt document) no_options) as [[result|e] w].
  - cbn [fst snd]. destruct (truthy_opt (prop "success" result)); reflexivity.
  - reflexivity.
Qed.

(** With a service that does not reject, every part gets its entry, and
    the calls made are those of the parts. *)
Lemma process_parts_resolved this systemPrompt options total chunks :
  (forall w sys usr o, exists result w',
      service_query w sys usr o = (Resolved result, w')) ->
  forall i (st : St ServiceOptions World),
  exists chunkResults st',
    process_parts service_query to_string this systemPrompt options total i
      chunks st = (Ret chunkResults, st')
    /\ List.length chunkResults = List.length chunks
    /\ calls st'
       = calls st ++ part_calls this systemPrompt options total i chunks.
Proof.
  intros Hq. induction chunks as [|chunk chunks IH]; intros i st.
  - exists [], st. split; [reflexivity|]. split; [reflexivity|].
    unfold part_calls. cbn. rewrite app_nil_r. reflexivity.
  - cbn [process_parts]. unfold bind at 1, Callers.query at 1.
    match goal with |- context [service_query (world st) ?a ?b ?c] =>
      destruct (Hq (world st) a b c) as [result [w ->]] end.
    unfold bind at 1.
    match goal with |- context [process_parts _ _ _ _ _ _ _ _ ?s] =>
      destruct (IH (S i) s) as [rs [st' [-> [Hl Hc]]]] end.
    eexists. eexists. split; [reflexivity|].
    split; [cbn [List.length]; rewrite Hl; reflexivity|].
    rewrite Hc. cbn [calls]. unfold part_calls.
    cbn [List.length seq combine map fst snd]. rewrite <- app_assoc.
    reflexivity.
Qed.

(** X26. Over a service whose [query] always resolves, as that of the
    earlier service, which catches every error, [processLongText] never
    returns its own failure [Process failed: ...].  On a text of at most
    [chunkSize] characters it makes the one query with the text and the
    options of the caller and returns what that query resolves to.  On a
    longer text that [_splitTextIntoChunks] cuts into n parts it makes
    the call of each part, in order, which leaves one entry per part;
    when n is 1 it returns the object with that entry as data, and
    otherwise it makes one more call, with the merge prompt and the
    entries joined by the separator, and returns what that call resolves
    to. *)
Theorem X26_processLongText_over_resolving_service fuel this systemPrompt
    longText options (st : St ServiceOptions World) :
  (forall w sys usr o, exists result w',
      service_query w sys usr o = (Resolved result, w')) ->
  let chunkSize :=
    match opt_chunkSize options with Some n => n | None => 10000 end in
  let overlapSize :=
    match opt_overlapSize options with Some n => n | None => 500 end in
  (len longText <= chunkSize ->
   exists result w',
     service_query (world st) systemPrompt longText options
     = (Resolved result, w')
     /\ processLongText service_query to_string fuel this systemPrompt
          longText options st
        = Some (Ret (Passed result),
                mkSt w' (calls st ++ [mkCall systemPrompt longText
                                        (CallerOptions options)])))
  /\ (chunkSize < len longText ->
      forall chunks,
        LLMService._splitTextIntoChunks fuel longText chunkSize overlapSize
        = Some chunks ->
        let finalMergePrompt :=
          or_string (mergePrompt options)
            (merge_prompt systemPrompt (List.length chunks)) in
        exists chunkResults st1,
          process_parts service_query to_string this systemPrompt options
            (List.length chunks) 0 chunks st = (Ret chunkResults, st1)
          /\ List.length chunkResults = List.length chunks
          /\ calls st1
             = calls st
               ++ part_calls this systemPrompt options (List.length chunks)
                    0 chunks
          /\ if (List.length chunks =? 1)%nat
             then processLongText service_query to_string fuel this
                    systemPrompt longText options st
                  = Some (Ret (SinglePart (nth 0 chunkResults None)), st1)
             else exists result w',
               service_query (world st1) finalMergePrompt
                 (join part_separator (map (join_item to_string) chunkResults))
                 options
               = (Resolved result, w')
               /\ processLongText service_query to_string fuel this
                    systemPrompt longText options st
                  = Some (Ret (Passed result),
                          mkSt w'
                            (calls st1
                             ++ [mkCall finalMergePrompt
                                   (join part_separator
                                      (map (join_item to_string)
                                         chunkResults))
                                   (CallerOptions options)]))).
Proof.
  intros Hq. cbv zeta. split.
  - intros Hlen. unfold processLongText. cbv zeta.
    destruct (Z.leb_spec (len longText)
                (match opt_chunkSize options with
                 | Some n => n | None => 10000 end)); [|lia].
    unfold try_catch, bind, Callers.query.
    destruct (Hq (world st) systemPrompt longText options)
      as [result [w E]].
    exists result, w. split; [exact E|]. rewrite E. reflexivity.
  - intros Hlen chunks Hsplit. unfold processLongText. cbv zeta.
    destruct (Z.leb_spec (len longText)
                (match opt_chunkSize options with
                 | Some n => n | None => 10000 end)); [lia|].
    rewrite Hsplit.
    destruct (process_parts_resolved this systemPrompt options
                (List.length chunks) chunks Hq 0%nat st)
      as [rs [st1 [E [Hl Hc]]]].
    exists rs, st1. split; [exact E|]. split; [exact Hl|].
    split; [exact Hc|].
    destruct (List.length chunks =? 1)%nat.
    + unfold try_catch, bind. rewrite E. reflexivity.
    + destruct (Hq (world st1)
                  (or_string (mergePrompt options)
                     (merge_prompt systemPrompt (List.length chunks)))
                  (join part_separator (map (join_item to_string) rs))
                  options) as [result [w Eq]].
      exists result, w. split; [exact Eq|].
      unfold try_catch, bind, Callers.query. rewrite E, Eq. reflexivity.
Qed.

End Calls.

(** *** The endpoints over the two services *)

Section Pairings.
Context {World : Type}.
Variable create : World -> Request -> Completion * World.
Variable malformed_message : jsstring.
Variable this : Instance.
Variable to_string : JSON -> jsstring.
Variable cannot_read_length : option JSON -> Error.

(** The earlier [query] resolves, whatever the client does. *)
Lemma query_legacy_resolves w systemPrompt userContent options :
  exists result w',
    query_legacy World create malformed_message this w systemPrompt
      userContent options = (Resolved result, w').
Proof.
  unfold query_legacy. cbv zeta.
  destruct (create w _) as [[content| |e] w'].
  - destruct (responseFormat options) as [type|];
      [|eexists; eexists; reflexivity].
    destruct (jsstring_eqb type (str "json_object"));
      [|eexists; eexists; reflexivity].
    destruct content as [s|]; [|eexists; eexists; reflexivity].
    destruct (parse s); eexists; eexists; reflexivity.
  - eexists. eexists. reflexivity.
  - eexists. eexists. reflexivity.
Qed.

Lemma request_failed_success message details :
  prop "success" (request_failed message details) = Some (JBool false).
Proof. reflexivity. Qed.

Lemma request_failed_error message details :
  prop "error" (request_failed message details)
  = Some (JString (or_string (Some message) (str "unknown error"))).
Proof. reflexivity. Qed.

Lemma or_text_string s fallback :
  s <> [] -> or_text to_string (Some (JString s)) fallback = s.
Proof. intros H. destruct s; [congruence | reflexivity]. Qed.

(** X21. Over the [query] of the later service, which resolves to a
    string, [extractEntities] never succeeds: a string has no [success]
    property, so whatever the model answers the result is the failure
    [Entity extraction failed: Unknown error], and when the client throws
    it is the failure with the message of the exception.  One request is
    made, with the first 8000 characters of the document. *)
Theorem X21_extractEntities_never_succeeds document entityTypes
    (st : St ServiceOptions World) :
  let request :=
    mkRequest (model this)
      [system_message (entity_systemPrompt entityTypes);
       user_message (entity_userPrompt document entityTypes)]
      (this_maxTokens this) (defaultTemperature this) None in
  fst (extractEntities (Service.query World create this) to_string
         document entityTypes st)
  = Ret (NotExtracted
           (match fst (create (world st) request) with
            | Refused e => api_message e
            | _ => str "Entity extraction failed: Unknown error"
            end)).
Proof.
  cbv zeta. unfold extractEntities, try_catch, bind, Callers.query,
    Service.query.
  cbn [temperature maxTokens json_object_options or_count or_number].
  destruct (create (world st) _) as [[content| |e] w]; reflexivity.
Qed.

(** X22. Over the [query] of the later service, [summarizeDocument]
    never succeeds either: the result is the failure
    [Summarization failed: Unknown error] whatever the model answers, and
    the failure with the message of the exception when the client
    throws. *)
Theorem X22_summarizeDocument_never_succeeds document options
    (st : St ServiceOptions World) :
  let request :=
    mkRequest (model this)
      [system_message summary_systemPrompt;
       user_message (summary_userPrompt document options)]
      (this_maxTokens this) (defaultTemperature this) None in
  fst (summarizeDocument (Service.query World create this) to_string
         cannot_read_length document options st)
  = Ret (NotSummarized
           (match fst (create (world st) request) with
            | Refused e => api_message e
            | _ => str "Summarization failed: Unknown error"
            end)).
Proof.
  cbv zeta. unfold summarizeDocument, try_catch, bind, Callers.query,
    Service.query.
  cbn [temperature maxTokens no_options or_count or_number].
  destruct (create (world st) _) as [[content| |e] w]; reflexivity.
Qed.

(** X23. Over the [query] of the earlier service, [extractEntities]
    asks for a JSON object and returns the entities that [JSON.parse]
    makes of the content of the response ([null] for a response without
    content); a content that does not parse gives the failure
    [Entity extraction failed: JSON parsing failed], and an exception of
    the client gives [Entity extraction failed: ] followed by its message,
    or by [unknown error] when it has none. *)
Theorem X23_extractEntities_over_legacy_query document entityTypes
    (st : St ServiceOptions World) :
  let request :=
    mkRequest (model this)
      [system_message (entity_systemPrompt entityTypes);
       user_message (entity_userPrompt document entityTypes)]
      (this_maxTokens this) (defaultTemperature this)
      (Some (str "json_object")) in
  let failed message :=
    NotExtracted (str "Entity extraction failed: "
                  ++ or_string (Some message) (str "unknown error")) in
  fst (extractEntities (query_legacy World create malformed_message this)
         to_string document entityTypes st)
  = Ret (match fst (create (world st) request) with
         | Answered (Some content) =>
             match parse content with
             | Some entities =>
                 Extracted (Some entities) entityTypes (len document)
             | None =>
                 NotExtracted
                   (str "Entity extraction failed: JSON parsing failed")
             end
         | Answered None => Extracted (Some JNull) entityTypes (len document)
         | Malformed => failed malformed_message
         | Refused e => failed (api_message e)
         end).
Proof.
  cbv zeta. unfold extractEntities, try_catch, bind, Callers.query,
    query_legacy.
  cbn [temperature maxTokens responseFormat extraMessages
       json_object_options app].
  replace (jsstring_eqb (str "json_object") (str "json_object")) with true
    by reflexivity.
  destruct (create (world st) _) as [[[content|]| |e] w]; cbn [fst].
  - destruct (parse content); reflexivity.
  - reflexivity.
  - rewrite request_failed_success, request_failed_error. cbn [truthy_opt truthy negb].
    rewrite or_text_string by (apply or_string_not_empty; discriminate).
    reflexivity.
  - rewrite request_failed_success, request_failed_error. cbn [truthy_opt truthy negb].
    rewrite or_text_string by (apply or_string_not_empty; discriminate).
    reflexivity.
Qed.

(** X24. Over the [query] of the earlier service, [summarizeDocument]
    returns the content of the response as the summary, with its length
    and the quotient of that length by the length of the document (zero
    for an empty document); a response without content makes it fail on
    reading the length of [null], and an exception of the client gives
    [Summarization failed: ] followed by its message, or by
    [unknown error]. *)
Theorem X24_summarizeDocument_over_legacy_query document options
    (st : St ServiceOptions World) :
  let request :=
    mkRequest (model this)
      [system_message summary_systemPrompt;
       user_message (summary_userPrompt document options)]
      (this_maxTokens this) (defaultTemperature this) None in
  let failed message :=
    NotSummarized (str "Summarization failed: "
                   ++ or_string (Some message) (str "unknown error")) in
  fst (summarizeDocument (query_legacy World create malformed_message this)
         to_string cannot_read_length document options st)
  = Ret (match fst (create (world st) request) with
         | Answered (Some content) =>
             Summarized (JString content) (len document)
               (Some (number (len content)))
               (if len document >? 0
                then Quotient (Some (number (len content))) (len document)
                else Zero)
         | Answered None =>
             NotSummarized (message (cannot_read_length (Some JNull)))
         | Malformed => failed malformed_message
         | Refused e => failed (api_message e)
         end).
Proof.
  cbv zeta. unfold summarizeDocument, try_catch, bind, Callers.query,
    query_legacy.
  cbn [temperature maxTokens responseFormat extraMessages no_options app].
  destruct (create (world st) _) as [[[content|]| |e] w]; cbn [fst].
  - reflexivity.
  - reflexivity.
  - rewrite request_failed_success, request_failed_error. cbn [truthy_opt truthy negb].
    rewrite or_text_string by (apply or_string_not_empty; discriminate).
    reflexivity.
  - rewrite request_failed_success, request_failed_error. cbn [truthy_opt truthy negb].
    rewrite or_text_string by (apply or_string_not_empty; discriminate).
    reflexivity.
Qed.

(** The later [query] resolves to a string when the client answers. *)
Lemma query_text systemPrompt userPrompt options
    (st : St ServiceOptions World) :
  (forall w request,
      match fst (create w request) with Refused _ => False | _ => True end) ->
  exists content w,
    Callers.query (Service.query World create this) systemPrompt userPrompt
      options st
    = (Ret (Text content),
       mkSt w (calls st ++ [mkCall systemPrompt userPrompt
                              (CallerOptions options)])).
Proof.
  intros Hc. unfold Callers.query, Service.query.
  specialize (Hc (world st)).
  match goal with |- context [create (world st) ?r] =>
    specialize (Hc r); destruct (create (world st) r) as [[content| |e] w]
  end; cbn [fst] in Hc; [| |contradiction]; eexists; eexists; reflexivity.
Qed.

(** The parts of [processLongText] over the later [query], when the
    client answers: every part is recorded as failed. *)
Lemma process_parts_text systemPrompt options total chunks :
  (forall w request,
      match fst (create w request) with Refused _ => False | _ => True end) ->
  forall i (st : St ServiceOptions World),
  exists st',
    process_parts (Service.query World create this) to_string this
      systemPrompt options total i chunks st
    = (Ret (map (fun j => Some (JString (part_failed to_string j None)))
              (seq i (List.length chunks))),
       st')
    /\ calls st'
       = calls st ++ part_calls this systemPrompt options total i chunks.
Proof.
  intros Hc. induction chunks as [|chunk chunks IH]; intros i st.
  - exists st. split; [reflexivity|].
    unfold part_calls. cbn. rewrite app_nil_r. reflexivity.
  - cbn [process_parts]. unfold bind at 1.
    destruct (query_text
                (or_string (chunkPrompt options)
                   (part_prompt systemPrompt i total))
                chunk (part_options this options) st Hc) as [content [w ->]].
    cbn [prop truthy_opt]. unfold bind at 1.
    match goal with |- context [process_parts _ _ _ _ _ _ _ _ ?s] =>
      destruct (IH (S i) s) as [st' [-> Hcalls]] end.
    eexists. split; [reflexivity|].
    rewrite Hcalls. cbn [calls]. unfold part_calls.
    cbn [List.length seq combine map fst snd]. rewrite <- app_assoc.
    reflexivity.
Qed.

Lemma map_join_item_failed (f : nat -> jsstring) l :
  map (join_item to_string) (map (fun j => Some (JString (f j))) l)
  = map f l.
Proof. rewrite map_map. reflexivity. Qed.

(** X25. Over the [query] of the later service, [processLongText] on a
    text cut into several parts discards every answer of the model: a
    string has no [success] property, so after the calls of the parts
    each part is recorded as [[Part i processing failed: undefined]].
    The merge call, the last call made, has the merge prompt and those
    notes joined by the separator as its content, and what
    [processLongText] returns is the bare string that [query] resolves
    to on that call. *)
Theorem X25_processLongText_discards_answers fuel systemPrompt longText options
    chunks (st : St ServiceOptions World) :
  (forall w request,
      match fst (create w request) with Refused _ => False | _ => True end) ->
  (match opt_chunkSize options with Some n => n | None => 10000 end)
    < len longText ->
  LLMService._splitTextIntoChunks fuel longText
    (match opt_chunkSize options with Some n => n | None => 10000 end)
    (match opt_overlapSize options with Some n => n | None => 500 end)
  = Some chunks ->
  List.length chunks <> 1%nat ->
  let finalMergePrompt :=
    or_string (mergePrompt options)
      (merge_prompt systemPrompt (List.length chunks)) in
  let notes :=
    join part_separator
      (map (fun j => part_failed to_string j None)
         (seq 0 (List.length chunks))) in
  exists st1 content w',
    process_parts (Service.query World create this) to_string this
      systemPrompt options (List.length chunks) 0 chunks st
    = (Ret (map (fun j => Some (JString (part_failed to_string j None)))
              (seq 0 (List.length chunks))),
       st1)
    /\ calls st1
       = calls st
         ++ part_calls this systemPrompt options (List.length chunks) 0 chunks
    /\ Service.query World create this (world st1) finalMergePrompt notes
         options
       = (Resolved (Text content), w')
    /\ processLongText (Service.query World create this) to_string fuel this
         systemPrompt longText options st
       = Some (Ret (Passed (Text content)),
               mkSt w'
                 (calls st1
                  ++ [mkCall finalMergePrompt notes (CallerOptions options)])).
Proof.
  intros Hc Hlen Hsplit Hn. cbv zeta. unfold processLongText. cbv zeta.
  destruct (Z.leb_spec (len longText)
              (match opt_chunkSize options with Some n => n | None => 10000 end));
    [lia|].
  rewrite Hsplit. unfold try_catch, bind at 1.
  destruct (process_parts_text systemPrompt options (List.length chunks)
              chunks Hc 0%nat st) as [st1 [E Hcalls]].
  exists st1. rewrite E.
  apply Nat.eqb_neq in Hn. rewrite Hn.
  unfold bind at 1. rewrite map_join_item_failed.
  match goal with |- context [Callers.query _ ?a ?b ?c ?s] =>
    destruct (query_text a b c s Hc) as [content [w Eq]] end.
  exists content, w. split; [reflexivity|]. split; [exact Hcalls|].
  rewrite Eq. split; [|reflexivity].
  unfold Callers.query in Eq.
  destruct (Service.query World create this (world st1) _ _ options)
    as [[result|e] w0]; [|discriminate Eq].
  injection Eq as -> ->. reflexivity.
Qed.

End Pairings.

Lemma X18_processLongText_hangs_witness :
  processLongText ok_service text_of_values 100
    (constructor (mkConfig None None None)) (str "Summarize.") long_text
    no_options (mkSt tt []) = None.
Proof.
  apply (X18_processLongText_hangs ok_service text_of_values
           (constructor (mkConfig None None None)) (str "Summarize.")
           long_text no_options).
  - unfold long_text, len. rewrite repeat_length. cbn. lia.
  - exact I.
Defined.

Lemma X19_legacy_analyzeDocument_hangs_witness :
  analyzeDocument ok_service text_of_values first_of 100 defaultOptions
    Inputs.largeDocument (mkSt tt []) = None.
Proof.
  apply (X19_legacy_analyzeDocument_hangs ok_service text_of_values first_of
           defaultOptions Inputs.largeDocument).
  - cbn. lia.
  - unfold Inputs.largeDocument, len. rewrite repeat_length. cbn. lia.
Defined.

Lemma X20_legacy_analyzeDocument_short_witness :
  analyzeDocument
    (query_legacy unit (echo (str "ok")) [] (constructor (mkConfig None None None)))
    text_of_values first_of 0 defaultOptions (str "short doc") (mkSt tt [])
  = Some (Analysed (Some (JString (str "ok"))) 1 9,
          mkSt tt [mkCall analyst_systemPrompt
                     (analyst_userPrompt (str "short doc"))
                     (CallerOptions no_options)]).
Proof.
  rewrite (X20_legacy_analyzeDocument_short
             (query_legacy unit (echo (str "ok")) []
                (constructor (mkConfig None None None)))
             text_of_values first_of defaultOptions (str "short doc") 0
             (mkSt tt []));
    [reflexivity | vm_compute; discriminate].
Defined.

Lemma X25_processLongText_discards_answers_witness :
  exists st',
    processLongText ok_service text_of_values 7
      (constructor (mkConfig None None None)) (str "Summarize.") sentence
      two_by_two (mkSt tt [])
    = Some (Ret (Passed (Text (str "ok"))), st')
    /\ last (calls st') (mkCall [] [] NoOptions)
       = mkCall (merge_prompt (str "Summarize.") 3)
           (str "[Part 1 processing failed: undefined]" ++ part_separator
            ++ str "[Part 2 processing failed: undefined]" ++ part_separator
            ++ str "[Part 3 processing failed: undefined]")
           (CallerOptions two_by_two).
Proof.
  assert (Hc : forall (w : unit) request,
             match fst (echo (str "ok") w request) with
             | Refused _ => False
             | _ => True
             end) by (intros w request; exact I).
  assert (Hlen : 2 < len sentence) by (vm_compute; reflexivity).
  assert (Hsplit : LLMService._splitTextIntoChunks 7 sentence 2 0
                   = Some [str "ab."; str " c"; str "d"])
    by (vm_compute; reflexivity).
  destruct (X25_processLongText_discards_answers (echo (str "ok"))
              (constructor (mkConfig None None None)) text_of_values 7
              (str "Summarize.") sentence two_by_two
              [str "ab."; str " c"; str "d"] (mkSt tt []) Hc Hlen Hsplit
              ltac:(discriminate)) as [st1 [content [w' [_ [_ [Hq E]]]]]].
  assert (Hok : content = str "ok").
  { unfold Service.query in Hq.
    destruct (echo (str "ok") (world st1) _) as [[c| |e] w0] eqn:Ee;
      vm_compute in Ee; try discriminate Ee.
    injection Ee as <- _. injection Hq as <- _. reflexivity. }
  subst content. eexists. split; [exact E|]. cbn [calls].
  rewrite last_last. reflexivity.
Defined.

Lemma X26_processLongText_over_resolving_service_witness :
  exists chunkResults st',
    processLongText
      (query_legacy unit (echo (str "ok")) []
         (constructor (mkConfig None None None)))
      text_of_values 7 (constructor (mkConfig None None None))
      (str "Summarize.") sentence two_by_two (mkSt tt [])
    = Some (Ret (Passed (Object [(str "success", JBool true);
                                 (str "data", JString (str "ok"))])),
            st')
    /\ chunkResults = [Some (JString (str "ok")); Some (JString (str "ok"));
                        Some (JString (str "ok"))]
    /\ calls st'
       = part_calls (constructor (mkConfig None None None))
           (str "Summarize.") two_by_two 3 0 [str "ab."; str " c"; str "d"]
         ++ [mkCall (merge_prompt (str "Summarize.") 3)
               (join part_separator
                  (map (join_item text_of_values) chunkResults))
               (CallerOptions two_by_two)].
Proof.
  assert (Hlen : 2 < len sentence) by (vm_compute; reflexivity).
  assert (Hsplit : LLMService._splitTextIntoChunks 7 sentence 2 0
                   = Some [str "ab."; str " c"; str "d"])
    by (vm_compute; reflexivity).
  destruct (X26_processLongText_over_resolving_service
              (query_legacy unit (echo (str "ok")) []
                 (constructor (mkConfig None None None)))
              text_of_values 7 (constructor (mkConfig None None None))
              (str "Summarize.") sentence two_by_two (mkSt tt [])
              (query_legacy_resolves (echo (str "ok")) []
                 (constructor (mkConfig None None None))))
    as [_ Hlong].
  destruct (Hlong Hlen _ Hsplit) as [rs [st1 [Hparts [_ [Hcalls Hrest]]]]].
  cbn [List.length Nat.eqb] in Hrest.
  destruct Hrest as [result [w' [Hq E]]].
  assert (Hrs : rs = [Some (JString (str "ok")); Some (JString (str "ok"));
                      Some (JString (str "ok"))]).
  { vm_compute in Hparts. injection Hparts as <- _. reflexivity. }
  assert (Hres : result = Object [(str "success", JBool true);
                                  (str "data", JString (str "ok"))]).
  { vm_compute in Hq. injection Hq as <- _. reflexivity. }
  subst result. exists rs. eexists. split; [exact E|].
  split; [exact Hrs|]. cbn [calls]. rewrite Hcalls. reflexivity.
Defined.

End ServiceFacts.

(** ** The combiner of chunk results *)

Module CombinerFacts.
Import JS Json DocAnalyzer Combiner.

Section Combine.
Variable to_string : JSON -> jsstring.
Variable cannot_read : string -> Error.
Variable not_iterable : JSON -> Error.

Local Abbreviation forEach := (forEach to_string cannot_read not_iterable).
Local Abbreviation add_result :=
  (add_result to_string cannot_read not_iterable).

Lemma validResults_of_null chunkResults :
  forallb (fun r => negb (is_null r)) chunkResults = false ->
  validResults_of cannot_read chunkResults = Throw (cannot_read "error").
Proof.
  induction chunkResults as [|r rest IH]; [discriminate|].
  cbn [forallb validResults_of]. intros H.
  destruct r; try reflexivity; cbn [is_null negb andb] in H;
    unfold read, and_then; rewrite (IH H); reflexivity.
Qed.

Lemma validResults_of_filter chunkResults :
  forallb (fun r => negb (is_null r)) chunkResults = true ->
  validResults_of cannot_read chunkResults
  = Ret (filter (fun r => negb (failed r)) chunkResults).
Proof.
  induction chunkResults as [|r rest IH]; [reflexivity|].
  cbn [forallb validResults_of filter]. intros H.
  apply andb_true_iff in H. destruct H as [Hr H].
  rewrite (IH H). unfold failed.
  destruct r; try discriminate; unfold read, and_then;
    match goal with |- context [truthy_opt ?x] => destruct (truthy_opt x) end;
    reflexivity.
Qed.

Lemma text_of_value result :
  text_of to_string result
  = match get (str "analysis") result with
    | Some value =>
        if truthy value
        then match value with JString s => s | _ => to_string value end
             ++ str " "
        else []
    | None => []
    end.
Proof.
  unfold text_of. destruct (get (str "analysis") result) as [v|];
    [|reflexivity].
  destruct v; cbn [truthy]; try reflexivity.
  destruct (is_empty s); reflexivity. 
Qed.

(** A result that is not [null] and whose [insights] and [topics] can be
    spread brings its elements and its text. *)
Lemma add_result_combinable combined result :
  is_null result = false -> combinable result = true ->
  add_result combined result
  = Ret (mkCombined (insights combined ++ items_of "insights" result)
           (topics combined ++ items_of "topics" result)
           (analysis combined ++ text_of to_string result)).
Proof.
  intros Hn Hc. unfold combinable in Hc. apply andb_true_iff in Hc.
  destruct Hc as [Hi Ht].
  assert (Hread : forall key, read cannot_read key result
                              = Ret (get (str key) result))
    by (intros key; destruct result; try reflexivity; discriminate).
  assert (Hitems : forall key,
             spreadable (get (str key) result) = true ->
             match get (str key) result with
             | Some value =>
                 if truthy value then spread not_iterable value
                 else Ret []
             | None => Ret []
             end = Ret (items_of key result)).
  { intros key Hs. unfold items_of.
    destruct (get (str key) result) as [v|]; [|reflexivity].
    destruct v; cbn in Hs |- *; try reflexivity; try rewrite Hs;
      try discriminate.
    - destruct b; [discriminate|reflexivity].
    - apply negb_true_iff in Hs. rewrite Hs. reflexivity.
    - destruct s; reflexivity. }
  unfold Combiner.add_result. rewrite !Hread. cbn [and_then].
  rewrite text_of_value.
  pose proof (Hitems "insights"%string Hi) as Ei.
  pose proof (Hitems "topics"%string Ht) as Et.
  destruct (get (str "insights") result) as [vi|].
  - destruct (truthy vi).
    + rewrite Ei. cbn [and_then insights topics analysis].
      destruct (get (str "topics") result) as [vt|].
      * destruct (truthy vt).
        -- rewrite Et. cbn [and_then insights topics analysis].
           destruct (get (str "analysis") result) as [va|].
           ++ destruct (truthy va); [reflexivity|].
              rewrite app_nil_r. reflexivity.
           ++ rewrite app_nil_r. reflexivity.
        -- injection Et as <-. cbn [and_then insights topics analysis].
           rewrite !app_nil_r.
           destruct (get (str "analysis") result) as [va|].
           ++ destruct (truthy va); [reflexivity|].
              rewrite app_nil_r. reflexivity.
           ++ rewrite app_nil_r. reflexivity.
      * injection Et as <-. cbn [and_then insights topics analysis].
        rewrite !app_nil_r.
        destruct (get (str "analysis") result) as [va|].
        -- destruct (truthy va); [reflexivity|].
           rewrite app_nil_r. reflexivity.
        -- rewrite app_nil_r. reflexivity.
    + injection Ei as <-. cbn [and_then]. rewrite app_nil_r.
      destruct (get (str "topics") result) as [vt|].
      * destruct (truthy vt).
        -- rewrite Et. cbn [and_then insights topics analysis].
           destruct (get (str "analysis") result) as [va|].
           ++ destruct (truthy va); [reflexivity|].
              rewrite app_nil_r. destruct combined; reflexivity.
           ++ rewrite app_nil_r. destruct combined; reflexivity.
        -- injection Et as <-. cbn [and_then].
           rewrite !app_nil_r.
           destruct (get (str "analysis") result) as [va|].
           ++ destruct (truthy va); [reflexivity|].
              rewrite app_nil_r. destruct combined; reflexivity.
           ++ rewrite app_nil_r. destruct combined; reflexivity.
      * injection Et as <-. cbn [and_then].
        rewrite !app_nil_r.
        destruct (get (str "analysis") result) as [va|].
        -- destruct (truthy va); [reflexivity|].
           rewrite app_nil_r. destruct combined; reflexivity.
        -- rewrite app_nil_r. destruct combined; reflexivity.
  - injection Ei as <-. cbn [and_then]. rewrite app_nil_r.
    destruct (get (str "topics") result) as [vt|].
    + destruct (truthy vt).
      * rewrite Et. cbn [and_then insights topics analysis].
        destruct (get (str "analysis") result) as [va|].
        -- destruct (truthy va); [reflexivity|].
           rewrite app_nil_r. destruct combined; reflexivity.
        -- rewrite app_nil_r. destruct combined; reflexivity.
      * injection Et as <-. cbn [and_then].
        rewrite !app_nil_r.
        destruct (get (str "analysis") result) as [va|].
        -- destruct (truthy va); [reflexivity|].
           rewrite app_nil_r. destruct combined; reflexivity.
        -- rewrite app_nil_r. destruct combined; reflexivity.
    + injection Et as <-. cbn [and_then].
      rewrite !app_nil_r.
      destruct (get (str "analysis") result) as [va|].
      * destruct (truthy va); [reflexivity|].
        rewrite app_nil_r. destruct combined; reflexivity.
      * rewrite app_nil_r. destruct combined; reflexivity.
Qed.

(** A result that is not [null] and whose [insights] or [topics] cannot
    be spread makes the callback throw. *)
Lemma add_result_not_combinable combined result :
  is_null result = false -> combinable result = false ->
  exists value, add_result combined result = Throw (not_iterable value).
Proof.
  intros Hn Hc.
  assert (Hread : forall key, read cannot_read key result
                              = Ret (get (str key) result))
    by (intros key; destruct result; try reflexivity; discriminate).
  assert (Hbad : forall value, spreadable (Some value) = false ->
             truthy value = true
             /\ spread not_iterable value = Throw (not_iterable value)).
  { intros v Hs. destruct v; cbn in Hs |- *; try discriminate;
      try (apply negb_false_iff in Hs; rewrite Hs); split; reflexivity. }
  assert (Hgood : forall value, spreadable (Some value) = true ->
             truthy value = true ->
             exists items, spread not_iterable value = Ret items).
  { intros v Hs Ht. destruct v; cbn in Hs, Ht |- *; try congruence;
      try (eexists; reflexivity);
      apply negb_true_iff in Hs; congruence. }
  unfold Combiner.add_result. rewrite !Hread. cbn [and_then].
  unfold combinable in Hc. apply andb_false_iff in Hc.
  destruct (get (str "insights") result) as [vi|] eqn:Ei.
  - destruct (spreadable (Some vi)) eqn:Si.
    + destruct Hc as [Hc|Hc]; [discriminate|].
      destruct (get (str "topics") result) as [vt|]; [|discriminate].
      destruct (Hbad vt Hc) as [Tt St].
      destruct (truthy vi) eqn:Ti.
      * destruct (Hgood vi Si Ti) as [items ->]. cbn [and_then].
        rewrite Tt, St. exists vt. reflexivity.
      * cbn [and_then]. rewrite Tt, St. exists vt. reflexivity.
    + destruct (Hbad vi Si) as [Ti Sp]. rewrite Ti, Sp.
      exists vi. reflexivity.
  - destruct Hc as [Hc|Hc]; [discriminate|].
    destruct (get (str "topics") result) as [vt|]; [|discriminate].
    destruct (Hbad vt Hc) as [Tt St]. cbn [and_then].
    rewrite Tt, St. exists vt. reflexivity.
Qed.

Lemma forEach_combinable results :
  forall combined,
    forallb (fun r => negb (is_null r) && combinable r) results = true ->
    forEach combined results
    = Ret (mkCombined
             (insights combined ++ flat_map (items_of "insights") results)
             (topics combined ++ flat_map (items_of "topics") results)
             (analysis combined ++ flat_map (text_of to_string) results)).
Proof.
  induction results as [|r rest IH]; intros combined H.
  - cbn. rewrite !app_nil_r. destruct combined; reflexivity.
  - cbn [forallb] in H. apply andb_true_iff in H. destruct H as [Hr H].
    apply andb_true_iff in Hr. destruct Hr as [Hn Hc].
    apply negb_true_iff in Hn.
    cbn [Combiner.forEach]. rewrite (add_result_combinable _ _ Hn Hc).
    cbn [and_then]. rewrite (IH _ H).
    cbn [insights topics analysis flat_map]. rewrite <- !app_assoc.
    reflexivity.
Qed.

Lemma forEach_not_combinable results :
  forall combined,
    forallb (fun r => negb (is_null r)) results = true ->
    forallb combinable results = false ->
    exists value, forEach combined results = Throw (not_iterable value).
Proof.
  induction results as [|r rest IH]; intros combined Hn H; [discriminate|].
  cbn [forallb] in H, Hn. apply andb_true_iff in Hn.
  destruct Hn as [Hr Hn]. apply negb_true_iff in Hr.
  cbn [Combiner.forEach].
  destruct (combinable r) eqn:Hc.
  - rewrite (add_result_combinable _ _ Hr Hc). cbn [and_then].
    apply IH; assumption.
  - destruct (add_result_not_combinable combined r Hr Hc) as [v ->].
    exists v. reflexivity.
Qed.

Lemma forallb_filter_valid (p : JSON -> bool) chunkResults :
  forallb p (filter (fun r => negb (failed r)) chunkResults)
  = forallb (fun r => failed r || p r) chunkResults.
Proof.
  induction chunkResults as [|r rest IH]; [reflexivity|].
  cbn [filter forallb]. destruct (failed r); cbn [negb orb forallb];
    rewrite IH; reflexivity.
Qed.

Lemma filter_valid_nil chunkResults :
  filter (fun r => negb (failed r)) chunkResults = []
  <-> forallb failed chunkResults = true.
Proof.
  induction chunkResults as [|r rest IH]; [split; reflexivity|].
  cbn [filter forallb]. destruct (failed r); cbn [negb andb].
  - exact IH.
  - split; discriminate.
Qed.

Lemma general_not_without_methods analysisType :
  jsstring_eqb analysisType (str "general") = true ->
  without_methods analysisType = false.
Proof.
  unfold jsstring_eqb at 1.
  destruct (list_eq_dec N.eq_dec analysisType (str "general")) as [->|];
    [reflexivity | discriminate].
Qed.

(** When [_combineResults] returns rather than throws. *)
Lemma combineResults_returns chunkResults analysisType :
  (exists value,
      _combineResults to_string cannot_read not_iterable chunkResults
        analysisType = Ret value)
  <-> forallb (fun r => negb (is_null r)) chunkResults = true
      /\ (if without_methods analysisType
          then forallb failed chunkResults = true
          else forallb (fun r => failed r || combinable r) chunkResults
               = true).
Proof.
  unfold _combineResults.
  destruct (forallb (fun r => negb (is_null r)) chunkResults) eqn:Hn.
  2:{ rewrite (validResults_of_null _ Hn). cbn [and_then].
      split; [intros [v Hv]; discriminate | intros [H _]; discriminate]. }
  rewrite (validResults_of_filter _ Hn). cbn [and_then].
  set (valid := filter (fun r => negb (failed r)) chunkResults).
  assert (Hvn : forallb (fun r => negb (is_null r)) valid = true).
  { unfold valid. rewrite forallb_filter_valid.
    rewrite forallb_forall in Hn |- *. intros r Hr. rewrite (Hn r Hr).
    apply orb_true_r. }
  assert (Hgeneral :
            (exists value,
                _combineGeneralResults to_string cannot_read not_iterable
                  valid = Ret value)
            <-> forallb (fun r => failed r || combinable r) chunkResults
                = true).
  { rewrite <- forallb_filter_valid. fold valid.
    unfold _combineGeneralResults.
    destruct (forallb combinable valid) eqn:Hc.
    - rewrite forEach_combinable.
      + cbn [and_then].
        match goal with |- context [if ?b then _ else _] => destruct b end;
          split; intros _; [reflexivity | eexists; reflexivity
                           | reflexivity | eexists; reflexivity].
      + rewrite forallb_forall in Hvn, Hc |- *. intros r Hr.
        rewrite (Hvn r Hr), (Hc r Hr). reflexivity.
    - destruct (forEach_not_combinable valid (mkCombined [] [] []) Hvn Hc)
        as [v ->].
      cbn [and_then]. split; [intros [x Hx]; discriminate | discriminate]. }
  destruct (List.length valid =? 0)%nat eqn:Hl.
  - apply Nat.eqb_eq in Hl. apply length_zero_iff_nil in Hl.
    pose proof (proj1 (filter_valid_nil chunkResults) Hl) as Hall.
    split; [intros _ | intros _; eexists; reflexivity].
    split; [reflexivity|].
    destruct (without_methods analysisType); [exact Hall|].
    rewrite forallb_forall in Hall |- *. intros r Hr.
    rewrite (Hall r Hr). reflexivity.
  - assert (Hsome : forallb failed chunkResults = false).
    { destruct (forallb failed chunkResults) eqn:E; [|reflexivity].
      apply filter_valid_nil in E. fold valid in E. rewrite E in Hl.
      discriminate. }
    destruct (jsstring_eqb analysisType (str "general")) eqn:Eg.
    + rewrite (general_not_without_methods _ Eg), Hgeneral.
      split; [intros H; split; [reflexivity | exact H] | intros [_ H]; exact H].
    + unfold without_methods.
      destruct (jsstring_eqb analysisType (str "entity")).
      * cbn [orb]. rewrite Hsome.
        split; [intros [x Hx]; discriminate | intros [_ H]; discriminate].
      * destruct (jsstring_eqb analysisType (str "summary")).
        -- cbn [orb]. rewrite Hsome.
           split; [intros [x Hx]; discriminate | intros [_ H]; discriminate].
        -- cbn [orb]. rewrite Hgeneral.
           split; [intros H; split; [reflexivity | exact H]
                  | intros [_ H]; exact H].
Qed.

(** X27. [_combineResults] returns, rather than throws, exactly when no
    chunk result is [null] and, for the types [entity] and [summary],
    whose combining methods are defined nowhere, every result has a
    truthy [error] (the value is then [null]); for any other type,
    every result without a truthy [error] has [insights] and [topics]
    that are absent, falsy, an array or a string.  A [null] entry, or a
    number, [true] or an object for [insights] or [topics], makes it
    throw a [TypeError]. *)
Theorem X27_combineResults_returns_iff chunkResults analysisType :
  ((exists value,
       _combineResults to_string cannot_read not_iterable chunkResults
         analysisType = Ret value)
   <-> forallb (fun r => negb (is_null r)) chunkResults = true
       /\ (if without_methods analysisType
           then forallb failed chunkResults = true
           else forallb (fun r => failed r || combinable r) chunkResults
                = true))
  /\ (without_methods analysisType = true ->
      forall value,
        _combineResults to_string cannot_read not_iterable chunkResults
          analysisType = Ret value ->
        value = JNull).
Proof.
  split; [apply combineResults_returns|].
  intros Hm value. unfold _combineResults.
  destruct (validResults_of cannot_read chunkResults) as [valid|e];
    cbn [and_then]; [|discriminate].
  destruct (List.length valid =? 0)%nat; [congruence|].
  destruct (jsstring_eqb analysisType (str "general")) eqn:Eg.
  - rewrite (general_not_without_methods _ Eg) in Hm. discriminate Hm.
  - unfold without_methods in Hm.
    destruct (jsstring_eqb analysisType (str "entity")); [discriminate|].
    destruct (jsstring_eqb analysisType (str "summary")); [discriminate|].
    discriminate Hm.
Qed.

(** X28. When [_combineResults] returns for a type other than [entity]
    and [summary], its value is [null] when every chunk result has a
    truthy [error]; otherwise the [insights] and the [topics] of the
    combination are those of the results without an error, concatenated
    in the order of the chunks (a string counting as its code points),
    and its [analysis] is their truthy [analysis] texts, each followed by
    a space.  A result with an error brings nothing, and when nothing at
    all is brought the value is the object with the [message] that no
    insights were identified. *)
Theorem X28_combineResults_value chunkResults analysisType :
  forallb (fun r => negb (is_null r)) chunkResults = true ->
  forallb (fun r => failed r || combinable r) chunkResults = true ->
  without_methods analysisType = false ->
  let valid := filter (fun r => negb (failed r)) chunkResults in
  let combined :=
    mkCombined (flat_map (items_of "insights") valid)
      (flat_map (items_of "topics") valid)
      (flat_map (text_of to_string) valid) in
  _combineResults to_string cannot_read not_iterable chunkResults
    analysisType
  = Ret (match valid with
         | [] => JNull
         | _ :: _ =>
             match insights combined, topics combined, analysis combined with
             | [], [], [] => no_insights
             | _, _, _ => object_of combined
             end
         end).
Proof.
  intros Hn Hc Hm. cbv zeta. unfold _combineResults.
  rewrite (validResults_of_filter _ Hn). cbn [and_then].
  set (valid := filter (fun r => negb (failed r)) chunkResults).
  assert (Hv : forallb (fun r => negb (is_null r) && combinable r) valid
               = true).
  { unfold valid. rewrite forallb_filter_valid.
    rewrite forallb_forall in Hn, Hc |- *. intros r Hr.
    rewrite (Hn r Hr). specialize (Hc r Hr).
    destruct (failed r); [reflexivity | exact Hc]. }
  assert (Hg : _combineGeneralResults to_string cannot_read not_iterable
                 valid
               = Ret (match flat_map (items_of "insights") valid,
                            flat_map (items_of "topics") valid,
                            flat_map (text_of to_string) valid with
                      | [], [], [] => no_insights
                      | _, _, _ =>
                          object_of
                            (mkCombined (flat_map (items_of "insights") valid)
                               (flat_map (items_of "topics") valid)
                               (flat_map (text_of to_string) valid))
                      end)).
  { unfold _combineGeneralResults. rewrite (forEach_combinable _ _ Hv).
    cbn [and_then insights topics analysis app].
    destruct (flat_map (items_of "insights") valid);
      destruct (flat_map (items_of "topics") valid);
      destruct (flat_map (text_of to_string) valid); reflexivity. }
  destruct valid as [|r rest] eqn:Ev; [reflexivity|].
  cbn [List.length Nat.eqb]. cbn [insights topics analysis].
  unfold without_methods in Hm. apply orb_false_iff in Hm.
  destruct Hm as [-> ->].
  destruct (jsstring_eqb analysisType (str "general")); exact Hg.
Qed.

End Combine.

Lemma X28_combineResults_value_witness :
  _combineResults Callers.text_of_values Samples.reading_of_null
    Samples.spreading Samples.three_results (str "general")
  = Ret (JObject [(str "insights",
                   JArray [JString (str "a"); JString (str "b")]);
                  (str "topics", JArray [JString (str "t")]);
                  (str "analysis", JString (str "x "))]).
Proof.
  rewrite (X28_combineResults_value Callers.text_of_values
             Samples.reading_of_null Samples.spreading
             Samples.three_results (str "general"));
    reflexivity.
Defined.

End CombinerFacts.

(** ** The spans of the chunks *)

Module CoverageClaims.
Import JS Spec JSFacts ChunkerFacts DivergenceFacts PieceFacts Spans.

(** Without overlap, chunk [j] of the loop of the earlier chunker is cut
    at [position + size * j], and the chunks stop when the document is
    exhausted. *)
Lemma legacy_loop_spans fuel :
  forall size document position chunks,
    0 < size -> 0 <= position ->
    Z.max 0 (len document - position) < Z.of_nat fuel ->
    exists rest,
      LegacyDocAnalyzer._splitIntoChunks_loop fuel (mkOptions size 0)
        document position chunks = Some (chunks ++ rest)
      /\ (forall j, (j < List.length rest)%nat ->
            nth j rest []
            = substring document (position + size * Z.of_nat j)
                (Z.min (position + size * Z.of_nat j + size) (len document)))
      /\ len document <= position + size * Z.of_nat (List.length rest)
      /\ (forall j, (j < List.length rest)%nat ->
            position + size * Z.of_nat j < len document).
Proof.
  induction fuel as [|fuel IH]; intros size document position chunks
    Hmax Hpos Hf; [lia|].
  cbn [LegacyDocAnalyzer._splitIntoChunks_loop maxChunkSize overlapSize].
  destruct (Z.ltb_spec position (len document)) as [Hlt|Hge].
  - cbv zeta. set (e := Z.min (position + size) (len document)).
    assert (He : position < e <= len document /\ e <= position + size)
      by (unfold e; lia).
    rewrite Z.sub_0_r.
    destruct (Z.leb_spec e 0) as [H|_]; [lia|].
    destruct (Z.leb_spec size 0) as [H|_]; [lia|]. cbn [orb].
    destruct (IH size document e
                (chunks ++ [substring document position e]) Hmax
                ltac:(lia) ltac:(lia)) as [rest [E [Hn [Hl Hb]]]].
    exists (substring document position e :: rest).
    split; [rewrite E, <- app_assoc; reflexivity|].
    assert (Hcases : e = position + size \/ (e = len document /\ rest = [])).
    { destruct (Z.le_gt_cases (position + size) (len document)) as [H|H].
      - left. unfold e. lia.
      - right. split; [unfold e; lia|].
        destruct rest as [|r rest]; [reflexivity|].
        specialize (Hb 0%nat ltac:(cbn; lia)). unfold e in Hb. lia. }
    cbn [List.length]. split; [|split].
    + intros [|j] Hj.
      * cbn [nth]. f_equal; unfold e; lia.
      * cbn [nth]. destruct Hcases as [Hc|[_ Hc]].
        -- rewrite Hn by lia. f_equal; lia.
        -- subst rest. cbn in Hj. lia.
    + destruct Hcases as [Hc|[Hc Hr]]; [lia|]. subst rest. cbn. lia.
    + intros [|j] Hj; [lia|]. destruct Hcases as [Hc|[_ Hc]].
      * specialize (Hb j ltac:(lia)). lia.
      * subst rest. cbn in Hj. lia.
  - exists []. rewrite app_nil_r. split; [reflexivity|].
    cbn [List.length]. split; [intros j Hj; lia|].
    split; [lia | intros j Hj; lia].
Qed.

Lemma chained_spans_at size text n : forall k,
  0 < size ->
  (forall j, (k <= j < k + n)%nat -> size * Z.of_nat j < len text) ->
  (0 < k)%nat ->
  chained (fst (span_at size text (k - 1))) (snd (span_at size text (k - 1)))
          (map (span_at size text) (seq k n)).
Proof.
  induction n as [|n IH]; intros k Hs Hb Hk; cbn [seq map chained];
    [exact I|].
  unfold span_at at 3. unfold span_at at 1 2. cbn [fst snd].
  pose proof (Hb k ltac:(lia)) as Hbk.
  replace (Z.of_nat (k - 1)) with (Z.of_nat k - 1) by lia.
  split; [nia|]. split; [nia|].
  specialize (IH (S k)).
  replace (S k - 1)%nat with k in IH by lia.
  unfold span_at in IH at 1 2. cbn [fst snd] in IH.
  apply IH; [exact Hs | | lia]. intros j Hj. apply Hb. lia.
Qed.

(** Spans cut every [size] characters cover the text when there are just
    enough of them. *)
Lemma spans_at_cover size text n :
  0 < size ->
  len text <= size * Z.of_nat n ->
  (forall j, (j < n)%nat -> size * Z.of_nat j < len text) ->
  let spans := map (span_at size text) (seq 0 n) in
  (forall p, covered spans p <-> 0 <= p < len text)
  /\ contiguous spans
  /\ (forall s e, In (s, e) spans -> 0 <= s < e /\ e <= len text).
Proof.
  intros Hs Hlen Hlt. cbv zeta.
  assert (Hin : forall s e,
    In (s, e) (map (span_at size text) (seq 0 n)) ->
    exists k, (k < n)%nat /\ (s, e) = span_at size text k).
  { intros s e H. apply in_map_iff in H. destruct H as [k [Hk Hse]].
    apply in_seq in Hse. exists k. split; [lia | congruence]. }
  split; [|split].
  - intros p. split.
    + intros [s [e [H Hp]]]. destruct (Hin s e H) as [k [Hk Hse]].
      pose proof (f_equal fst Hse) as H1. pose proof (f_equal snd Hse) as H2.
      unfold span_at in H1, H2. cbn [fst snd] in H1, H2. nia.
    + intros Hp.
      pose proof (Z.div_mod p size ltac:(lia)) as Hdm.
      pose proof (Z.mod_pos_bound p size ltac:(lia)) as Hmod.
      assert (Hq : 0 <= p / size) by (apply Z.div_pos; lia).
      assert (Hk : (Z.to_nat (p / size) < n)%nat) by nia.
      exists (fst (span_at size text (Z.to_nat (p / size)))),
             (snd (span_at size text (Z.to_nat (p / size)))).
      split.
      * rewrite <- surjective_pairing. apply in_map. apply in_seq. lia.
      * unfold span_at. cbn [fst snd]. rewrite Z2Nat.id by exact Hq. lia.
  - destruct n as [|n]; [exact I|].
    cbn [seq map contiguous]. unfold span_at at 1 2.
    pose proof (Hlt 0%nat ltac:(lia)) as H0.
    split; [lia|]. split; [lia|].
    pose proof (chained_spans_at size text n 1 Hs) as Hc.
    replace (1 - 1)%nat with 0%nat in Hc by lia.
    unfold span_at in Hc at 1 2. cbn [fst snd] in Hc.
    apply Hc; [|lia]. intros j Hj. apply (Hlt j). lia.
  - intros s e H. destruct (Hin s e H) as [k [Hk Hse]].
    pose proof (f_equal fst Hse) as H1. pose proof (f_equal snd Hse) as H2.
    unfold span_at in H1, H2. cbn [fst snd] in H1, H2.
    pose proof (Hlt k Hk). nia.
Qed.

(** C7. For every text and every valid configuration, the spans of the
    chunks of the [_splitIntoChunks] in force, which cuts every 4000
    characters whatever the configuration, cover the text exactly: each
    chunk is the text of its span, a position lies in a span exactly when
    it is a position of the text, the spans start at [0] with increasing
    starts and no gap, and none reaches beyond the text.  The
    [_splitIntoChunks] of the earlier analyzer does the same, with spans
    cut every [maxChunkSize] characters, when the text has at most
    [maxChunkSize] characters or [overlapSize] is zero; on a longer text
    with a positive [overlapSize] its loop never ends, and it returns no
    chunk and no span at all. *)
Theorem C7_spans_cover_unless_legacy_loops
    (text : jsstring) (options : AnalyzerOptions) :
  0 < maxChunkSize options ->
  0 <= overlapSize options < maxChunkSize options ->
  (let chunks := Chunker._splitIntoChunks text in
   let spans := map (span_of text) (seq 0 (List.length chunks)) in
   chunks = map (fun se => substring text (fst se) (snd se)) spans
   /\ (forall p, covered spans p <-> 0 <= p < len text)
   /\ contiguous spans
   /\ (forall s e, In (s, e) spans -> 0 <= s < e /\ e <= len text))
  /\ (len text <= maxChunkSize options \/ overlapSize options = 0 ->
      exists chunks,
        LegacyDocAnalyzer._splitIntoChunks (S (List.length text)) options text
        = Some chunks
        /\ let spans :=
             map (span_at (maxChunkSize options) text)
               (seq 0 (List.length chunks)) in
           chunks = map (fun se => substring text (fst se) (snd se)) spans
           /\ (forall p, covered spans p <-> 0 <= p < len text)
           /\ (text <> [] -> contiguous spans)
           /\ (forall s e, In (s, e) spans ->
                 0 <= s <= e /\ e <= len text /\ (text <> [] -> s < e)))
  /\ (maxChunkSize options < len text -> 0 < overlapSize options ->
      forall fuel,
        LegacyDocAnalyzer._splitIntoChunks fuel options text = None).
Proof.
  intros Hmax Hov. split; [apply fixed_chunker_spans_cover|]. split.
  - intros Hcase.
    destruct (Z.leb_spec (len text) (maxChunkSize options)) as [Hle|Hgt].
    + exists [text]. unfold LegacyDocAnalyzer._splitIntoChunks.
      destruct (Z.leb_spec (len text) (maxChunkSize options)); [|lia].
      split; [reflexivity|]. cbv zeta. cbn [List.length seq map].
      unfold span_at. cbn [fst snd]. rewrite Z.mul_0_r, Z.add_0_l.
      rewrite Z.min_r by lia.
      split.
      { rewrite substring_prefix by (unfold len; lia).
        unfold len. rewrite Nat2Z.id, firstn_all. reflexivity. }
      split.
      { intros p. split.
        - intros [s [e [[Hse|[]] Hp]]]. injection Hse as <- <-. lia.
        - intros Hp. exists 0, (len text). split; [left; reflexivity | lia]. }
      assert (Hpos : text <> [] -> 0 < len text).
      { intros Hne. destruct text; [congruence|]. unfold len. cbn. lia. }
      split.
      { intros Hne. cbn [contiguous chained]. specialize (Hpos Hne).
        split; [reflexivity|]. split; [lia | exact I]. }
      intros s e [Hse|[]]. injection Hse as <- <-.
      split; [unfold len; lia|]. split; [lia | exact Hpos].
    + destruct Hcase as [Hcase|Hzero]; [lia|].
      destruct options as [size overlap]. cbn [maxChunkSize overlapSize] in *.
      subst overlap.
      destruct (legacy_loop_spans (S (List.length text)) size text 0 []
                  Hmax ltac:(lia) ltac:(unfold len; lia))
        as [rest [E [Hn [Hl Hb]]]].
      exists rest. unfold LegacyDocAnalyzer._splitIntoChunks.
      cbn [maxChunkSize].
      destruct (Z.leb_spec (len text) size); [lia|].
      split; [exact E|]. cbv zeta.
      destruct (spans_at_cover size text (List.length rest) Hmax
                  ltac:(lia)
                  ltac:(intros j Hj; specialize (Hb j Hj); lia))
        as [Hcov [Hcont Hbounds]].
      split.
      { rewrite map_map.
        rewrite (list_as_map_seq rest [] _ Hn) at 1.
        apply map_ext_in. intros j Hj. unfold span_at. cbn [fst snd].
        f_equal; lia. }
      split; [exact Hcov|]. split; [intros _; exact Hcont|].
      intros s e Hse. destruct (Hbounds s e Hse) as [H1 H2].
      split; [lia|]. split; [lia | intros _; lia].
  - intros Hlen Hpos fuel. apply Legacy_diverges; lia.
Qed.

Lemma C7_spans_cover_unless_legacy_loops_witness :
  LegacyDocAnalyzer._splitIntoChunks 100 defaultOptions Inputs.largeDocument
  = None
  /\ Chunker._splitIntoChunks Inputs.largeDocument
     = map (fun se => substring Inputs.largeDocument (fst se) (snd se))
         (map (span_of Inputs.largeDocument)
            (seq 0 (List.length (Chunker._splitIntoChunks
                                   Inputs.largeDocument)))).
Proof.
  assert (Hlen : maxChunkSize defaultOptions < len Inputs.largeDocument)
    by (unfold Inputs.largeDocument, len; rewrite repeat_length; cbn; lia).
  destruct (C7_spans_cover_unless_legacy_loops Inputs.largeDocument
              defaultOptions ltac:(cbn; lia) ltac:(cbn; lia))
    as [[Hfixed _] [_ Hloops]].
  split; [|exact Hfixed].
  apply (Hloops Hlen). cbn. lia.
Defined.

End CoverageClaims.

(** ** A blank response and the siblings of its chunk *)

Module SiblingClaims.
Import JS Json Spec Repair Content DocAnalyzer PipelineFacts Script.

Section Siblings.
Context {Options World : Type}.
Variable llm_query :
  World -> jsstring -> jsstring -> QueryOptions Options -> Outcome * World.
Variable JSON_stringify : list JSON -> jsstring.

(** Each chunk gets the result of its own call, made after the calls of
    the chunks before it. *)
Lemma analyze_chunks_own analysisType options chunks :
  forall (st : St Options World),
    analyze_chunks llm_query chunks analysisType options st
    = (Ret (map (fun i =>
                   chunk_result_of
                     (outcome_of llm_query
                        (fold_left
                           (fun s c => called llm_query s (chunk_call c options))
                           (firstn i chunks) st)
                        (chunk_call (nth i chunks []) options)))
              (seq 0 (List.length chunks))),
       fold_left (fun s c => called llm_query s (chunk_call c options))
         chunks st).
Proof.
  induction chunks as [|chunk chunks IH]; intros st; [reflexivity|].
  unfold analyze_chunks. cbn [all]. unfold bind at 1.
  rewrite analyzeChunk_eq. unfold bind at 1.
  pose proof (IH (called llm_query st (chunk_call chunk options))) as E.
  unfold analyze_chunks in E. rewrite E. unfold ret.
  cbn [List.length seq map firstn fold_left nth].
  rewrite <- seq_shift, map_map. reflexivity.
Qed.

Lemma fold_called_calls options chunks :
  forall (st : St Options World),
    calls (fold_left (fun s c => called llm_query s (chunk_call c options))
             chunks st)
    = calls st ++ map (fun chunk => chunk_call chunk options) chunks.
Proof.
  induction chunks as [|chunk chunks IH]; intros st.
  - cbn. rewrite app_nil_r. reflexivity.
  - cbn [fold_left map]. rewrite IH. unfold called at 1. cbn [calls].
    rewrite <- app_assoc. reflexivity.
Qed.

(** The prompt of the merge call holds the text of the results. *)
Lemma synthesis_userPrompt_holds_results validResults contentSummary
    analysisType :
  exists prefix suffix,
    synthesis_userPrompt JSON_stringify validResults contentSummary
      analysisType
    = prefix ++ JSON_stringify validResults ++ suffix.
Proof.
  unfold synthesis_userPrompt.
  match goal with
  | |- exists p s, ?a ++ ?b ++ ?c ++ ?d ++ ?e ++ ?f ++ ?g
                   ++ JSON_stringify validResults ++ ?h = _ =>
      exists (a ++ b ++ c ++ d ++ e ++ f ++ g), h
  end.
  rewrite <- !app_assoc. reflexivity.
Qed.

(** C9. A chunk whose model response is empty or made of white space
    only gets, without any exception, the failed result whose [success]
    is [false], whose [error] is [Empty response from LLM] and whose
    [rawContent] is the empty string.  The failure stays with its chunk:
    in the list that [analyzeDocument] hands to the synthesizer, the
    result at each place is the result of that chunk own call, whatever
    the responses of the other chunks were.  In a multi-chunk analysis
    the failed result is left out of the results to merge, every result
    of a sibling without an error is among them, and when there is one
    the merge call is made, after the test call and the calls of the
    chunks, with the text of those results in its prompt. *)
Theorem C9_blank_response_fails_chunk_only :
  (forall chunk analysisType options (st : St Options World) response,
      outcome_of llm_query st (chunk_call chunk options) = Returned response ->
      forallb is_space response = true ->
      _analyzeChunkWithLLM llm_query chunk analysisType options st
      = (Ret (JObject [(str "success", JBool false);
                       (str "error", JString (str "Empty response from LLM"));
                       (str "rawContent", JString [])]),
         called llm_query st (chunk_call chunk options)))
  /\ (forall document analysisType options (st : St Options World),
        acceptable document = true ->
        List.length (chunks_of document) <> 1%nat ->
        let chunks := chunks_of document in
        let before i :=
          fold_left (fun s c => called llm_query s (chunk_call c options))
            (firstn i chunks) (called llm_query st test_call) in
        let own i :=
          chunk_result_of
            (outcome_of llm_query (before i)
               (chunk_call (nth i chunks []) options)) in
        let chunkResults := map own (seq 0 (List.length chunks)) in
        let validResults := filter is_valid chunkResults in
        analyze_chunks llm_query chunks analysisType options
          (called llm_query st test_call)
        = (Ret chunkResults, before (List.length chunks))
        /\ (forall i response,
              (i < List.length chunks)%nat ->
              outcome_of llm_query (before i)
                (chunk_call (nth i chunks []) options) = Returned response ->
              forallb is_space response = true ->
              nth i chunkResults JNull
              = JObject [(str "success", JBool false);
                         (str "error",
                          JString (str "Empty response from LLM"));
                         (str "rawContent", JString [])]
              /\ ~ In (nth i chunkResults JNull) validResults)
        /\ (forall j,
              (j < List.length chunks)%nat ->
              truthy_opt (get (str "error") (own j)) = false ->
              In (own j) validResults)
        /\ (validResults <> [] ->
            exists prefix suffix,
              calls (snd (analyzeDocument llm_query JSON_stringify document
                            analysisType options st))
              = calls st
                ++ test_call
                   :: map (fun chunk => chunk_call chunk options) chunks
                ++ [mkCall synthesis_systemPrompt
                      (prefix ++ JSON_stringify validResults ++ suffix)
                      SynthesisOptions])).
Proof.
  split.
  - intros chunk analysisType options st response Ho Hb.
    rewrite analyzeChunk_eq, Ho. unfold chunk_result_of,
      chunk_result_of_response. rewrite blank_all_space, Hb. reflexivity.
  - intros document analysisType options st Hacc Hlen. cbv beta zeta.
    pose proof (analyze_chunks_own analysisType options (chunks_of document)
                  (called llm_query st test_call)) as Hown.
    rewrite firstn_all.
    split; [exact Hown|]. split; [|split].
    + intros i response Hi Ho Hb.
      set (f := fun i0 : nat => chunk_result_of _).
      assert (Hnth : nth i (map f (seq 0 (List.length (chunks_of document))))
                       JNull = f i).
      { rewrite (nth_indep _ JNull (f 0%nat))
          by (rewrite length_map, length_seq; exact Hi).
        rewrite (map_nth f), seq_nth by exact Hi. reflexivity. }
      rewrite Hnth. unfold f. rewrite Ho.
      unfold chunk_result_of, chunk_result_of_response.
      rewrite blank_all_space, Hb. unfold failed.
      split; [reflexivity|].
      intros H. apply filter_In in H. destruct H as [_ H]. discriminate H.
    + intros j Hj Hv. apply filter_In. split.
      * apply in_map_iff. exists j. split; [reflexivity|].
        apply in_seq. lia.
      * unfold is_valid. rewrite Hv. reflexivity.
    + intros Hvalid.
      rewrite (analyze_acceptable _ _ _ _ _ _ _ _ Hacc Hown).
      apply Nat.eqb_neq in Hlen. rewrite Hlen.
      rewrite synthesize_eq by exact Hvalid.
      set (valid := filter is_valid _) in *.
      assert (Hcalls : forall st3 : St Options World,
                calls st3
                = calls (fold_left
                           (fun s c => called llm_query s (chunk_call c options))
                           (chunks_of document) (called llm_query st test_call))
                  ++ [synthesis_call JSON_stringify valid analysisType
                        (content_of document)] ->
                exists prefix suffix,
                  calls st3
                  = calls st
                    ++ test_call
                       :: map (fun chunk => chunk_call chunk options)
                            (chunks_of document)
                    ++ [mkCall synthesis_systemPrompt
                          (prefix ++ JSON_stringify valid ++ suffix)
                          SynthesisOptions]).
      { intros st3 ->. rewrite fold_called_calls.
        unfold called at 1. cbn [calls].
        destruct (synthesis_userPrompt_holds_results valid
                    (summary_of (content_of document)) analysisType)
          as [prefix [suffix E]].
        exists prefix, suffix. unfold synthesis_call. rewrite E.
        rewrite <- !app_assoc. reflexivity. }
      destruct (outcome_of llm_query _ _) as [response|e].
      * apply Hcalls. reflexivity.
      * destruct (basicCombine_throws (World := World) valid analysisType
                    (called llm_query
                       (fold_left
                          (fun s c =>
                             called llm_query s (chunk_call c options))
                          (chunks_of document)
                          (called llm_query st test_call))
                       (synthesis_call JSON_stringify valid analysisType
                          (content_of document)))) as [err ->].
        apply Hcalls. reflexivity.
Qed.

End Siblings.

Lemma C9_blank_response_fails_chunk_only_witness :
  fst (_analyzeChunkWithLLM play (str "short doc") (str "comprehensive") tt
         (start [Returned (str "  ")]))
  = Ret (JObject [(str "success", JBool false);
                  (str "error", JString (str "Empty response from LLM"));
                  (str "rawContent", JString [])])
  /\ fst (analyze_chunks play (chunks_of long_doc) (str "comprehensive") tt
            (called play
               (start [Returned (str "x"); Returned (str "  ");
                       Returned titleX; Returned titleX]) test_call))
     = Ret [JObject [(str "success", JBool false);
                     (str "error", JString (str "Empty response from LLM"));
                     (str "rawContent", JString [])];
            succeeded object_titleX titleX]
  /\ exists prefix suffix,
       calls (snd (run long_doc
                     [Returned (str "x"); Returned (str "  ");
                      Returned titleX; Returned titleX]))
       = test_call
         :: map (fun chunk => chunk_call chunk tt) (chunks_of long_doc)
         ++ [mkCall synthesis_systemPrompt
               (prefix ++ no_stringify [succeeded object_titleX titleX]
                ++ suffix)
               SynthesisOptions].
Proof.
  destruct (C9_blank_response_fails_chunk_only play no_stringify)
    as [Hblank Hdoc].
  split.
  - rewrite (Hblank (str "short doc") (str "comprehensive") tt
               (start [Returned (str "  ")]) (str "  ") eq_refl eq_refl).
    reflexivity.
  - assert (Hacc : acceptable long_doc = true) by (vm_compute; reflexivity).
    assert (Hlen : List.length (chunks_of long_doc) <> 1%nat)
      by (vm_compute; discriminate).
    set (st := start [Returned (str "x"); Returned (str "  ");
                      Returned titleX; Returned titleX]).
    pose proof (Hdoc long_doc (str "comprehensive") tt st Hacc Hlen) as H.
    cbv beta zeta in H. destruct H as [Hown [_ [_ Hmerge]]].
    split.
    + rewrite Hown. vm_compute. reflexivity.
    + destruct (Hmerge ltac:(vm_compute; discriminate))
        as [prefix [suffix E]].
      exists prefix, suffix. unfold run. fold st. rewrite E.
      vm_compute. reflexivity.
Defined.

End SiblingClaims.
